(** * SSD core: the alignment / heat / jump step engine

    Shallow embedding of [ssd_core/core/ssd_core.cpp] and of its near-duplicate
    [ssd_align_leap_dll/ssd_align_leap_dll.cpp].

    Numbers.  A C++ [double] is read as a real number: every operation is the
    exact one ([std::log] is [ln], [std::sqrt] is [sqrt], [std::exp] is
    [exp]), so rounding, overflow, infinities and NaN are outside this
    development.  One effect of the format is kept, because the engine
    reaches it with its default parameters: inside [softmax_temp] the
    argument of [std::exp] is [(logit - max) / T] with [T] as small as
    [1e-6], and [std::exp] returns [0.0] once its exact value is at most
    half the smallest positive [double] ([std_exp]).

    Integers.  An [int] holds 32 bits.  The constructor of the handle
    computes [n * n] in [int]; the model keeps the value the 32 bits hold
    ([int32]), so a node count above 46340 does not give an [N * N] matrix.
    Inside [ssd_step] the indices are natural numbers: on a handle built
    from a node count up to 46340 no index or product computed there leaves
    the range of [int].  The three [int32_t] telemetry fields are integers.

    Vectors.  A [std::vector<double>] is a [list R]; reading is [nth] and
    writing is [vupd].  The engine never resizes [kappa] and [w], and every
    index it computes is in range on a well-formed handle ([handle_wf]) as
    long as RelaxTop stays inside its index vector ([relax_in_bounds]).
    When [q_relax] makes [relax_count] exceed [N * N], the call of
    [std::partial_sort] and the loop after it run past the end of the
    vector: the C++ program has no defined behaviour there, and what
    [relax_top] evaluates to stands for nothing.  Every statement below about
    the inertia or the shape of the handle after a jump assumes
    [relax_in_bounds].  A handle value that is not well-formed stands for no
    state of the program.

    Standard library.  What the C++ standard library and the platform leave
    open is a parameter of the development, class [StdRuntime]: the random
    engine with its two distributions, the order in which
    [std::partial_sort] leaves elements that compare equal, and whether an
    allocation finds memory. *)

From Stdlib Require Import Reals Lra Lia ZArith List Bool Permutation.
From Stdlib Require String.
Import ListNotations.
Local Open Scope R_scope.

(** ** Parameters and telemetry ([ssd_core.h], [ssd_align_leap_dll.h]) *)

Record SSDParams : Type := mkParams {
  G0 : R; g : R; eps_noise : R; eta : R; rho : R; lam : R; kappa_min : R;
  alpha : R; beta_E : R;
  Theta0 : R; a1 : R; a2 : R; h0 : R; gamma : R;
  T0 : R; c1 : R; c2 : R; sigma : R;
  delta_w : R; delta_kappa : R; c0_cool : R; q_relax : R; eps_relax : R;
  eps0 : R; d1 : R; d2 : R; b_path : R
}.

(** The default member initialisers of [struct SSDParams]. *)
Definition default_params : SSDParams :=
  {| G0 := 0.5; g := 0.7; eps_noise := 0; eta := 0.3; rho := 0.3; lam := 0.02;
     kappa_min := 0;
     alpha := 0.6; beta_E := 0.15;
     Theta0 := 1; a1 := 0.5; a2 := 0.4; h0 := 0.2; gamma := 0.8;
     T0 := 0.3; c1 := 0.5; c2 := 0.6; sigma := 0.2;
     delta_w := 0.2; delta_kappa := 0.2; c0_cool := 0.6; q_relax := 0.1;
     eps_relax := 0.01;
     eps0 := 0.02; d1 := 0.2; d2 := 0.2; b_path := 0.5 |}.

Record SSDTelemetry : Type := mkTelemetry {
  out_E : R; out_Theta : R; out_h : R; out_T : R; out_H : R;
  out_J_norm : R; out_align_eff : R; out_kappa_mean : R;
  out_current : Z; out_did_jump : Z; out_rewired_to : Z
}.

(** ** The part of the C++ standard library the engine relies on *)

(** The two [new] expressions of the sources that a [catch (...)] guards. *)
Inductive Allocation : Type :=
  (** [new SSDHandle(n, p, seed)]: the handle and its three vectors *)
  | handle_of (n : Z)
  (** [new NeuroSSDSystem(N, seed)] *)
  | neuro_ssd_system.

Class StdRuntime (G : Type) : Type := {
  (** [std::mt19937_64 rng(seed)] together with the two freshly constructed
      distribution objects of the handle *)
  mt19937_64 : Z -> G;
  (** [uni01(rng)]: one draw of [std::uniform_real_distribution<double>(0,1)] *)
  uni01 : G -> R * G;
  (** [norm01(rng)]: one draw of [std::normal_distribution<double>(0,1)] *)
  norm01 : G -> R * G;
  (** the uniform draw lies in the half-open interval [0,1) *)
  uni01_range : forall s, 0 <= fst (uni01 s) < 1;
  (** [std::partial_sort(first, first + m, last, comp)] on a vector of
      indices: [partial_sort comp m l] is the vector afterwards *)
  partial_sort : (nat -> nat -> bool) -> nat -> list nat -> list nat;
  (** the sort rearranges the vector; the standard says so only for a
      middle iterator [first + m] inside the vector *)
  partial_sort_perm : forall comp m l,
    (m <= length l)%nat -> Permutation (partial_sort comp m l) l;
  (** whether the allocation finds memory; [std::bad_alloc] is thrown when it
      does not *)
  allocates : Allocation -> bool
}.

(** ** Scalar and vector helpers *)

(** [std::max(a, b)] is [(a < b) ? b : a]. *)
Definition std_max (a b : R) : R := if Rlt_dec a b then b else a.

(** [std::round]: to the nearest integer, halfway cases away from zero. *)
Definition std_round (x : R) : Z :=
  if Rle_dec 0 x then Zfloor (x + / 2) else (- Zfloor (- x + / 2))%Z.

Definition clip (x lo hi : R) : R :=
  if Rlt_dec x lo then lo else if Rlt_dec hi x then hi else x.

Definition idx (i j N : nat) : nat := (i * N + j)%nat.

(** What an [int] holds after a computation whose exact result is [z]: the
    low 32 bits, two's complement. *)
Definition int32 (z : Z) : Z :=
  ((z + 2147483648) mod 4294967296 - 2147483648)%Z.

(** [std::exp] on a [double]: the exact exponential, except that the result
    is [0.0] when the exact value is at most [2^-1075], half the smallest
    positive [double]. *)
Definition std_exp (z : R) : R :=
  if Rle_dec z (- 1075 * ln 2) then 0 else exp z.

(** [v[i]] *)
Definition vget (v : list R) (i : nat) : R := nth i v 0.

(** [v[i] = f(v[i])] *)
Fixpoint vupd (i : nat) (f : R -> R) (v : list R) : list R :=
  match v, i with
  | [], _ => []
  | x :: v', O => f x :: v'
  | x :: v', S i' => x :: vupd i' f v'
  end.

(** [s = 0.0; for (x : v) s += x;] *)
Definition vsum (v : list R) : R := fold_left Rplus v 0.

(** ** Helpers that read the same in both source files *)

(** [int arg = 0;
     for (i = 1; i < n; ++i) if (logits[i] > logits[arg]) arg = i;] *)
Definition argmax_loop (logits : list R) : nat :=
  fold_left
    (fun arg i => if Rlt_dec (vget logits arg) (vget logits i) then i else arg)
    (seq 1 (length logits - 1)) O.

(** [z = (logits[i] - maxv) / T; e = std::exp(z); out[i] = e;] *)
Definition exp_scores (logits : list R) (maxv T : R) : list R :=
  map (fun l => std_exp ((l - maxv) / T)) logits.

Definition normalise (es : list R) : list R :=
  let sum := vsum es in
  let sum := if Rle_dec sum 0 then 1 else sum in
  map (fun e => e / sum) es.

Definition entropy_term (H x : R) : R :=
  let x := if Rle_dec x 1e-12 then 1e-12 else x in
  H + - x * ln x.

Definition entropy_norm (p : list R) : R :=
  match p with
  | [] => 0
  | _ =>
      let H := fold_left entropy_term p 0 in
      let Hmax := ln (INR (length p)) in
      if Rlt_dec 0 Hmax then H / Hmax else 0
  end.

(** ** The handle ([struct SSDHandle], declared alike in both files) *)

Record SSDHandle (G : Type) : Type := mkHandle {
  N : nat;
  current : nat;
  kappa : list R;
  w : list R;
  E : R; F : R; T : R;
  pi : list R;
  prm : SSDParams;
  (** [rng], [norm01] and [uni01] of the handle: the engine and the state of
      its two distribution objects *)
  rng : G
}.

Arguments mkHandle {G}.
Arguments N {G}.
Arguments current {G}.
Arguments kappa {G}.
Arguments w {G}.
Arguments E {G}.
Arguments F {G}.
Arguments T {G}.
Arguments pi {G}.
Arguments prm {G}.
Arguments rng {G}.

(** What the constructor establishes and [ssd_step] keeps: the shape of the
    vectors and the range of [current]. *)
Definition handle_wf {G : Type} (h : SSDHandle G) : Prop :=
  (1 <= N h)%nat /\ (current h < N h)%nat /\
  length (kappa h) = (N h * N h)%nat /\
  length (w h) = (N h * N h)%nat /\
  length (pi h) = N h.

(** [SSDHandle(int n, const SSDParams& p, uint64_t seed)], for [n > 0].
    [kappa(n*n, 0.0)] and [w(n*n, 0.0)] take the [int] product as their
    size.  When the product the 32 bits hold is negative, the size handed to
    [std::vector] is above [max_size()] and the constructor throws; when the
    allocation finds no memory it throws as well ([constructs]).  Otherwise
    the handle is [new_handle]. *)
Definition constructs {G : Type} {RT : StdRuntime G} (n : Z) : bool :=
  (0 <=? int32 (n * n))%Z && allocates (handle_of n).

Definition new_handle {G : Type} {RT : StdRuntime G}
    (n : Z) (p : SSDParams) (seed : Z) : SSDHandle G :=
  {| N := Z.to_nat n; current := 0;
     kappa := repeat 0 (Z.to_nat (int32 (n * n)));
     w := repeat 0 (Z.to_nat (int32 (n * n)));
     E := 0; F := 0; T := T0 p;
     pi := repeat (1 / IZR (Z.max 1 n)) (Z.to_nat n);
     prm := p; rng := mt19937_64 seed |}.

(** ** Loops of [ssd_step] that read the same in both source files *)

Section Loops.
Context {G : Type} {RT : StdRuntime G}.

(** Phase 1, AlignFlow: [j[i] = (G0 + g * kappa[i]) * p], plus
    [eps_noise * norm01(rng)] when [eps_noise > 0].  Returns [j] and the
    generator afterwards. *)
Fixpoint align_flow (prm : SSDParams) (p : R) (ks : list R) (s : G)
    : list R * G :=
  match ks with
  | [] => ([], s)
  | k :: ks' =>
      let val := (G0 prm + g prm * k) * p in
      let '(val, s) :=
        if Rlt_dec 0 (eps_noise prm) then
          let '(n, s') := norm01 s in (val + eps_noise prm * n, s')
        else (val, s) in
      let '(j, s) := align_flow prm p ks' s in
      (val :: j, s)
  end.

(** [J_norm += val * val] over the loop, then [J_norm = std::sqrt(J_norm)]. *)
Definition flow_norm (j : list R) : R :=
  sqrt (fold_left (fun acc val => acc + val * val) j 0).

(** Phase 4: mean inertia, threshold, jump rate, entropy of the stored policy,
    temperature. *)
Definition mean_kappa (n : nat) (ks : list R) : R := vsum ks / INR (n * n).

Definition threshold (prm : SSDParams) (kappa_mean F : R) : R :=
  Theta0 prm + a1 prm * kappa_mean - a2 prm * F.

Definition jump_rate (prm : SSDParams) (E Theta : R) : R :=
  h0 prm * exp ((E - Theta) / std_max 1e-8 (gamma prm)).

(** [h->pi.empty() ? 1.0 : entropy_norm(h->pi)] *)
Definition policy_entropy_of (pi : list R) : R :=
  match pi with
  | [] => 1
  | _ => entropy_norm pi
  end.

Definition temperature (prm : SSDParams) (E Hn : R) : R :=
  std_max 1e-6 (T0 prm + c1 prm * E - c2 prm * Hn).

Definition jump_probability (hrate dt : R) : R := 1 - exp (- hrate * dt).

(** The logits of the jump branch, for [k] ranging over [range]: the inertia
    of edge [(current, k)], minus [1.0] on the self loop, plus
    [sigma * norm01(rng)] (one normal draw per [k], whatever [sigma]). *)
Fixpoint build_logits (prm : SSDParams) (ks : list R) (cur n : nat)
    (range : list nat) (s : G) : list R * G :=
  match range with
  | [] => ([], s)
  | k :: range' =>
      let l := vget ks (idx cur k n) in
      let l := if Nat.eqb k cur then l - 1 else l in
      let '(z, s) := norm01 s in
      let l := l + sigma prm * z in
      let '(ls, s) := build_logits prm ks cur n range' s in
      (l :: ls, s)
  end.

(** Categorical sampling: [cdf += pi[k]; if (r <= cdf) { selected = k; break; }]
    for [k] from the position of [pis] on; [fallback] when the loop ends. *)
Fixpoint sample_cdf (r : R) (pis : list R) (k : nat) (cdf : R)
    (fallback : nat) : nat :=
  match pis with
  | [] => fallback
  | x :: pis' =>
      let cdf := cdf + x in
      if Rle_dec r cdf then k else sample_cdf r pis' (S k) cdf fallback
  end.

(** The comparator of the partial sort: [std::abs(j[a]) > std::abs(j[b])]. *)
Definition by_abs_flow (j : list R) (a b : nat) : bool :=
  if Rlt_dec (Rabs (vget j b)) (Rabs (vget j a)) then true else false.

(** [std::max(1, (int)std::round(prm.q_relax * total_edges))] *)
Definition relax_count_of (prm : SSDParams) (total_edges : nat) : nat :=
  Z.to_nat (Z.max 1 (std_round (q_relax prm * INR total_edges))).

(** RelaxTop stays inside its index vector: the rounded product is not
    below the range of [int], so that the conversion [(int)] has a result,
    [indices.begin() + relax_count] is not past [indices.end()], and every
    [indices[i]] the loop reads exists.  It fails for [q_relax] above [1]
    (from [1 + 1 / (2 * N * N)] on); the program has no defined behaviour
    then. *)
Definition relax_in_bounds (prm : SSDParams) (n : nat) : Prop :=
  (- 2147483648 <= std_round (q_relax prm * INR (n * n)))%Z /\
  (relax_count_of prm (n * n) <= n * n)%nat.

(** The epsilon-greedy exploration of the no-jump branch: with probability
    [eps] a uniformly drawn target [k]; the edge [(current, k)] gains [0.05]
    in [w] and in [kappa] unless [k] is the current node. *)
Definition explore (h : SSDHandle G) (kappa_mean : R) : SSDHandle G :=
  let n := N h in
  let eps := eps0 (prm h) + d1 (prm h) * E h - d2 (prm h) * kappa_mean in
  let eps := clip eps 0 1 in
  let '(u, s) := uni01 (rng h) in
  if Rlt_dec u eps then
    let '(v, s) := uni01 s in
    let k := Z.to_nat (Zfloor (v * INR n)) in
    let k := if Nat.eqb k n then (n - 1)%nat else k in
    if Nat.eqb k (current h) then
      {| N := n; current := current h; kappa := kappa h; w := w h;
         E := E h; F := F h; T := T h; pi := pi h; prm := prm h; rng := s |}
    else
      let edge_idx := idx (current h) k n in
      {| N := n; current := current h;
         kappa := vupd edge_idx (fun x => x + 0.05) (kappa h);
         w := vupd edge_idx (fun x => x + 0.05) (w h);
         E := E h; F := F h; T := T h; pi := pi h; prm := prm h; rng := s |}
  else
    {| N := n; current := current h; kappa := kappa h; w := w h;
       E := E h; F := F h; T := T h; pi := pi h; prm := prm h; rng := s |}.

(** One round of the deterministic action selection. *)
Definition best_step (ks : list R) (cur n : nat) (acc : nat * R) (k : nat)
    : nat * R :=
  let '(best, best_value) := acc in
  let value := vget ks (idx cur k n) in
  let value := if Nat.eqb k cur then value - 1e-6 else value in
  if Rlt_dec best_value value then (k, value) else (best, best_value).

(** [best = current; best_value = -1e300; for (k = 0; k < N; ++k) ...] *)
Definition best_move (ks : list R) (cur n : nat) : nat :=
  fst (fold_left (best_step ks cur n) (seq 0 n) (cur, - 1e300)).

End Loops.

(** ** [ssd_core/core/ssd_core.cpp] *)

Module Core.
Section Engine.
Context {G : Type} {RT : StdRuntime G}.

(** [*std::max_element(logits.begin(), logits.end())] on a non-empty vector *)
Definition max_element (l0 : R) (rest : list R) : R :=
  fold_left (fun m x => if Rlt_dec m x then x else m) rest l0.

(** The result is the content of [out] on return; [out] is resized to the
    number of logits first. *)
Definition softmax_temp (logits : list R) (T : R) : list R :=
  match logits with
  | [] => []
  | l0 :: rest =>
      if Rle_dec T 1e-8 then
        vupd (argmax_loop logits) (fun _ => 1) (repeat 0 (length logits))
      else
        normalise (exp_scores logits (max_element l0 rest) T)
  end.

(** [ssd_create]: [None] is the null pointer.
    [try { return new SSDHandle(N, p, seed); } catch (...) { return nullptr; }]
    gives the null pointer whenever the constructor throws. *)
Definition ssd_create (n : Z) (params : option SSDParams) (seed : Z)
    : option (SSDHandle G) :=
  if (n <=? 0)%Z then None
  else
    let p := match params with Some p => p | None => default_params end in
    let seed := if (seed =? 0)%Z then 123456789%Z else seed in
    if constructs n then Some (new_handle n p seed) else None.

(** Phase 2, UpdateKappa, on one edge. *)
Definition update_edge (prm : SSDParams) (p dt : R) (kj : R * R) : R :=
  let '(k, ji) := kj in
  let align_work := p * ji - rho prm * ji * ji in
  let gain := eta prm * align_work in
  let decay := lam prm * (k - kappa_min prm) in
  let new_kappa := k + (gain - decay) * dt in
  std_max new_kappa (kappa_min prm).

Definition update_kappa (prm : SSDParams) (p dt : R) (ks j : list R)
    : list R :=
  map (update_edge prm p dt) (combine ks j).

(** Phase 3, UpdateHeat. *)
Definition update_heat (prm : SSDParams) (p J_norm dt E : R) : R :=
  let excess_pressure := std_max (Rabs p - J_norm) 0 in
  let dE := alpha prm * excess_pressure - beta_E prm * E in
  std_max (E + dE * dt) 0.

(** RelaxTop: the [relax_count] edges that carry the largest [|j|] lose
    [eps_relax], floored at [kappa_min].
    [for (i = 0; i < relax_count; ++i) { pos = indices[i]; ... }]; the
    reads [indices[i]] exist when [relax_in_bounds] holds, which is where
    this definition describes the program. *)
Definition relax_top (prm : SSDParams) (n : nat) (j ks : list R) : list R :=
  let total_edges := (n * n)%nat in
  let relax_count := relax_count_of prm total_edges in
  let indices :=
    partial_sort (by_abs_flow j) relax_count (seq 0 total_edges) in
  fold_left
    (fun ks i =>
       let pos := nth i indices O in
       vupd pos (fun k => std_max (k - eps_relax prm) (kappa_min prm)) ks)
    (seq 0 relax_count) ks.

(** The jump branch, from the logits to RelaxTop.  [h] holds the state after
    phases 2 to 4 and the generator after the jump draw; [j] is the flow of
    phase 1. *)
Definition jump_branch (h : SSDHandle G) (j : list R) : SSDHandle G :=
  let n := N h in
  let '(logits, s) :=
    build_logits (prm h) (kappa h) (current h) n (seq 0 n) (rng h) in
  let pi' := softmax_temp logits (T h) in
  let '(r, s) := uni01 s in
  let selected := sample_cdf r pi' 0 0 (n - 1) in
  let edge_idx := idx (current h) selected n in
  let w' := vupd edge_idx (fun x => x + delta_w (prm h)) (w h) in
  let kappa' := vupd edge_idx (fun x => x + delta_kappa (prm h)) (kappa h) in
  let E' := E h * c0_cool (prm h) in
  {| N := n; current := selected;
     kappa := relax_top (prm h) n j kappa'; w := w';
     E := E'; F := F h; T := T h; pi := pi'; prm := prm h; rng := s |}.

(** The no-jump branch: exploration, then the move to the strongest edge. *)
Definition no_jump_branch (h : SSDHandle G) (kappa_mean : R) : SSDHandle G :=
  let h := explore h kappa_mean in
  {| N := N h; current := best_move (kappa h) (current h) (N h);
     kappa := kappa h; w := w h;
     E := E h; F := F h; T := T h; pi := pi h; prm := prm h; rng := rng h |}.

(** The body of [ssd_step] on a handle that is not null: the handle
    afterwards and the record written to [out] when [out] is not null. *)
Definition step (h : SSDHandle G) (p dt : R) : SSDHandle G * SSDTelemetry :=
  let n := N h in
  let prm := prm h in
  let '(j, s) := align_flow prm p (kappa h) (rng h) in
  let J_norm := flow_norm j in
  let kappa2 := update_kappa prm p dt (kappa h) j in
  let E3 := update_heat prm p J_norm dt (E h) in
  let kappa_mean := mean_kappa n kappa2 in
  let Theta := threshold prm kappa_mean (F h) in
  let hrate := jump_rate prm E3 Theta in
  let policy_entropy := policy_entropy_of (pi h) in
  let T4 := temperature prm E3 policy_entropy in
  let '(u, s) := uni01 s in
  let h4 :=
    {| N := n; current := current h; kappa := kappa2; w := w h;
       E := E3; F := F h; T := T4; pi := pi h; prm := prm; rng := s |} in
  let did_jump :=
    if Rlt_dec u (jump_probability hrate dt) then true else false in
  let h5 :=
    if did_jump then jump_branch h4 j else no_jump_branch h4 kappa_mean in
  let align_efficiency :=
    if Rlt_dec 1e-8 (Rabs p) then J_norm / Rabs p else 0 in
  (h5,
   {| out_E := E h5; out_Theta := Theta; out_h := hrate; out_T := T h5;
      out_H := policy_entropy; out_J_norm := J_norm;
      out_align_eff := align_efficiency; out_kappa_mean := kappa_mean;
      out_current := Z.of_nat (current h5);
      out_did_jump := if did_jump then 1%Z else 0%Z;
      out_rewired_to := Z.of_nat (current h5) |}).

(** [ssd_step(h, p, dt, out)]: [None] is a null pointer, [Some t] a pointer to
    a record that holds [t].  The result is the handle and the record behind
    the two pointers on return. *)
Definition ssd_step (h : option (SSDHandle G)) (p dt : R)
    (out : option SSDTelemetry)
    : option (SSDHandle G) * option SSDTelemetry :=
  match h with
  | None => (None, out)
  | Some h =>
      let '(h', t) := step h p dt in
      (Some h', match out with Some _ => Some t | None => None end)
  end.

End Engine.
End Core.

(** ** [ssd_align_leap_dll/ssd_align_leap_dll.cpp]

    The loops of phase 1, phase 4, the logits, the sampling and the no-jump
    branch read as in [ssd_core.cpp] and are shared.  What [ssd_step] and
    its helpers write differently is embedded again here: the maximum inside
    [softmax_temp], the floors of phase 2 and of RelaxTop, the heat update
    and the [H] field of the telemetry.  The [ssd_create] of this file,
    which has no [catch] clause around the constructor, is not part of the
    development. *)

Module AlignLeap.
Section Engine.
Context {G : Type} {RT : StdRuntime G}.

(** [maxv = logits[0]; for (i = 1; i < n; ++i)
      if (logits[i] > maxv) maxv = i == i ? logits[i] : maxv;] *)
Definition maxv_loop (logits : list R) : R :=
  fold_left
    (fun maxv i =>
       if Rlt_dec maxv (vget logits i) then
         (if Nat.eqb i i then vget logits i else maxv)
       else maxv)
    (seq 1 (length logits - 1)) (vget logits 0).

Definition softmax_temp (logits : list R) (T : R) : list R :=
  match logits with
  | [] => []
  | _ =>
      if Rle_dec T 1e-8 then
        vupd (argmax_loop logits) (fun _ => 1) (repeat 0 (length logits))
      else
        normalise (exp_scores logits (maxv_loop logits) T)
  end.

(** Phase 2 on one edge: [(k < kappa_min) ? kappa_min : k]. *)
Definition update_edge (prm : SSDParams) (p dt : R) (kj : R * R) : R :=
  let '(k0, ji) := kj in
  let gain := eta prm * (p * ji - rho prm * ji * ji) in
  let decay := lam prm * (k0 - kappa_min prm) in
  let k := k0 + (gain - decay) * dt in
  if Rlt_dec k (kappa_min prm) then kappa_min prm else k.

Definition update_kappa (prm : SSDParams) (p dt : R) (ks j : list R)
    : list R :=
  map (update_edge prm p dt) (combine ks j).

(** Phase 3: [h->E += dE * dt; if (h->E < 0.0) h->E = 0.0;] *)
Definition update_heat (prm : SSDParams) (p J_norm dt E : R) : R :=
  let dE := alpha prm * std_max (Rabs p - J_norm) 0 - beta_E prm * E in
  let E := E + dE * dt in
  if Rlt_dec E 0 then 0 else E.

(** RelaxTop with the floor written as a conditional; the loop over
    [ii < qn] reads [indices[ii]], inside the vector when [relax_in_bounds]
    holds. *)
Definition relax_top (prm : SSDParams) (n : nat) (j ks : list R) : list R :=
  let M := (n * n)%nat in
  let qn := relax_count_of prm M in
  let indices := partial_sort (by_abs_flow j) qn (seq 0 M) in
  fold_left
    (fun ks ii =>
       let pos := nth ii indices O in
       vupd pos
         (fun k0 =>
            let k := k0 - eps_relax prm in
            if Rlt_dec k (kappa_min prm) then kappa_min prm else k) ks)
    (seq 0 qn) ks.

Definition jump_branch (h : SSDHandle G) (j : list R) : SSDHandle G :=
  let n := N h in
  let '(logits, s) :=
    build_logits (prm h) (kappa h) (current h) n (seq 0 n) (rng h) in
  let pi' := softmax_temp logits (T h) in
  let '(r, s) := uni01 s in
  let ksel := sample_cdf r pi' 0 0 (n - 1) in
  let w' :=
    vupd (idx (current h) ksel n) (fun x => x + delta_w (prm h)) (w h) in
  let kappa' :=
    vupd (idx (current h) ksel n) (fun x => x + delta_kappa (prm h))
      (kappa h) in
  let E' := E h * c0_cool (prm h) in
  {| N := n; current := ksel;
     kappa := relax_top (prm h) n j kappa'; w := w';
     E := E'; F := F h; T := T h; pi := pi'; prm := prm h; rng := s |}.

Definition no_jump_branch (h : SSDHandle G) (km : R) : SSDHandle G :=
  let h := explore h km in
  {| N := N h; current := best_move (kappa h) (current h) (N h);
     kappa := kappa h; w := w h;
     E := E h; F := F h; T := T h; pi := pi h; prm := prm h; rng := rng h |}.

Definition step (h : SSDHandle G) (p dt : R) : SSDHandle G * SSDTelemetry :=
  let n := N h in
  let prm := prm h in
  let '(j, s) := align_flow prm p (kappa h) (rng h) in
  let J_norm := flow_norm j in
  let kappa2 := update_kappa prm p dt (kappa h) j in
  let E3 := update_heat prm p J_norm dt (E h) in
  let km := mean_kappa n kappa2 in
  let Theta := threshold prm km (F h) in
  let hrate := jump_rate prm E3 Theta in
  let Hn := policy_entropy_of (pi h) in
  let T4 := temperature prm E3 Hn in
  let '(u, s) := uni01 s in
  let h4 :=
    {| N := n; current := current h; kappa := kappa2; w := w h;
       E := E3; F := F h; T := T4; pi := pi h; prm := prm; rng := s |} in
  let did_jump :=
    if Rlt_dec u (jump_probability hrate dt) then true else false in
  let h5 := if did_jump then jump_branch h4 j else no_jump_branch h4 km in
  let eff := if Rlt_dec 1e-8 (Rabs p) then J_norm / Rabs p else 0 in
  (h5,
   {| out_E := E h5; out_Theta := Theta; out_h := hrate; out_T := T h5;
      out_H := policy_entropy_of (pi h5);
      out_J_norm := J_norm; out_align_eff := eff; out_kappa_mean := km;
      out_current := Z.of_nat (current h5);
      out_did_jump := if did_jump then 1%Z else 0%Z;
      out_rewired_to := Z.of_nat (current h5) |}).

Definition ssd_step (h : option (SSDHandle G)) (p dt : R)
    (out : option SSDTelemetry)
    : option (SSDHandle G) * option SSDTelemetry :=
  match h with
  | None => (None, out)
  | Some h =>
      let '(h', t) := step h p dt in
      (Some h', match out with Some _ => Some t | None => None end)
  end.

End Engine.
End AlignLeap.

(** ** A scripted runtime

    An instance of [StdRuntime] on which the engine can be run by hand: the
    generator is the list of uniform draws and the list of normal draws still
    to come (a draw outside [0,1) or past the end of the script reads as [0]),
    the partial sort is a stable insertion sort of the whole vector, one of
    the results [std::partial_sort] may leave, and every allocation finds
    memory. *)

Record Tape : Type := mkTape { uniforms : list R; normals : list R }.

Definition tape_uni01 (s : Tape) : R * Tape :=
  match uniforms s with
  | [] => (0, s)
  | u :: us =>
      (if Rle_dec 0 u then if Rlt_dec u 1 then u else 0 else 0,
       {| uniforms := us; normals := normals s |})
  end.

Definition tape_norm01 (s : Tape) : R * Tape :=
  match normals s with
  | [] => (0, s)
  | z :: zs => (z, {| uniforms := uniforms s; normals := zs |})
  end.

Fixpoint insert_by (comp : nat -> nat -> bool) (x : nat) (l : list nat)
    : list nat :=
  match l with
  | [] => [x]
  | y :: l' => if comp y x then y :: insert_by comp x l' else x :: l
  end.

Definition tape_partial_sort (comp : nat -> nat -> bool) (m : nat)
    (l : list nat) : list nat :=
  fold_right (insert_by comp) [] l.

Lemma tape_uni01_range (s : Tape) : 0 <= fst (tape_uni01 s) < 1.
Proof.
  unfold tape_uni01. destruct (uniforms s) as [|u us]; simpl; [lra|].
  destruct (Rle_dec 0 u); [destruct (Rlt_dec u 1)|]; lra.
Qed.

Lemma insert_by_perm (comp : nat -> nat -> bool) (x : nat) (l : list nat) :
  Permutation (insert_by comp x l) (x :: l).
Proof.
  induction l as [|y l IH]; simpl; [apply Permutation_refl|].
  destruct (comp y x); [|apply Permutation_refl].
  apply Permutation_trans with (y :: x :: l); [|apply perm_swap].
  apply perm_skip. exact IH.
Qed.

Lemma tape_partial_sort_perm (comp : nat -> nat -> bool) (m : nat)
    (l : list nat) :
  (m <= length l)%nat -> Permutation (tape_partial_sort comp m l) l.
Proof.
  intros _. unfold tape_partial_sort.
  induction l as [|x l IH]; simpl; [apply Permutation_refl|].
  apply Permutation_trans with (x :: fold_right (insert_by comp) [] l).
  - apply insert_by_perm.
  - apply perm_skip. exact IH.
Qed.

#[export] Instance TapeRuntime : StdRuntime Tape :=
  {| mt19937_64 := fun _ => {| uniforms := []; normals := [] |};
     uni01 := tape_uni01;
     norm01 := tape_norm01;
     uni01_range := tape_uni01_range;
     partial_sort := tape_partial_sort;
     partial_sort_perm := tape_partial_sort_perm;
     allocates := fun _ => true |}.

(** A run on the scripted runtime in which the jump branch is taken: two
    nodes, the walker on node 0, one strong edge [(1,1)], negative
    [delta_kappa] and [c0_cool]. *)
Definition jump_params : SSDParams :=
  {| G0 := 0; g := 0.5; eps_noise := 0; eta := 0; rho := 0; lam := 0;
     kappa_min := 0;
     alpha := 2; beta_E := 0;
     Theta0 := 1; a1 := 0; a2 := 0; h0 := 2; gamma := 1;
     T0 := 1; c1 := 0; c2 := 0; sigma := 0;
     delta_w := 1; delta_kappa := -1; c0_cool := -1; q_relax := 0;
     eps_relax := 0;
     eps0 := 0; d1 := 0; d2 := 0; b_path := 0 |}.

Definition jump_handle : SSDHandle Tape :=
  {| N := 2; current := 0;
     kappa := [0; 0; 0; 1]; w := [0; 0; 0; 0];
     E := 0; F := 0; T := 1; pi := [/ 2; / 2];
     prm := jump_params;
     rng := {| uniforms := [/ 2; / 4]; normals := [0; 0] |} |}.

(** The policy, the handle and the telemetry record that this run leaves. *)
Definition jump_pi : list R :=
  [exp (-1) / (exp (-1) + 1); 1 / (exp (-1) + 1)].

Definition jump_post : SSDHandle Tape :=
  {| N := 2; current := 0;
     kappa := [-1; 0; 0; 1]; w := [1; 0; 0; 0];
     E := -1; F := 0; T := 1; pi := jump_pi;
     prm := jump_params;
     rng := {| uniforms := []; normals := [] |} |}.

Definition jump_telemetry : SSDTelemetry :=
  {| out_E := -1; out_Theta := 1; out_h := 2; out_T := 1;
     out_H := entropy_norm [/ 2; / 2];
     out_J_norm := / 2; out_align_eff := / 2; out_kappa_mean := / 4;
     out_current := 0; out_did_jump := 1; out_rewired_to := 0 |}.

(** A handle as [ssd_create(2, NULL, seed)] leaves it, on a generator whose
    next uniform draws are [1/2] (the jump test), [0] (the exploration test)
    and [1/2] (the exploration target). *)
Definition idle_handle : SSDHandle Tape :=
  {| N := 2; current := 0;
     kappa := [0; 0; 0; 0]; w := [0; 0; 0; 0];
     E := 0; F := 0; T := 0.3; pi := [1 / 2; 1 / 2];
     prm := default_params;
     rng := {| uniforms := [/ 2; 0; / 2]; normals := [] |} |}.

(** The parameters of the three-node scenario: the seven fields it fixes,
    the defaults elsewhere. *)
Definition default_scenario : SSDParams :=
  {| G0 := 0.5; g := 0; eps_noise := 0; eta := 0.3; rho := 0; lam := 0;
     kappa_min := 0;
     alpha := 0.6; beta_E := 0.15;
     Theta0 := 1; a1 := 0.5; a2 := 0.4; h0 := 0.2; gamma := 0.8;
     T0 := 0.3; c1 := 0.5; c2 := 0.6; sigma := 0.2;
     delta_w := 0.2; delta_kappa := 0.2; c0_cool := 0.6; q_relax := 0.1;
     eps_relax := 0.01;
     eps0 := 0.02; d1 := 0.2; d2 := 0.2; b_path := 0.5 |}.

(** A telemetry record with no zero field, for a caller's buffer that was
    not cleared. *)
Definition stale_telemetry : SSDTelemetry :=
  {| out_E := 7; out_Theta := 7; out_h := 7; out_T := 7; out_H := 7;
     out_J_norm := 7; out_align_eff := 7; out_kappa_mean := 7;
     out_current := 7; out_did_jump := 7; out_rewired_to := 7 |}.

Definition zero_telemetry : SSDTelemetry :=
  {| out_E := 0; out_Theta := 0; out_h := 0; out_T := 0; out_H := 0;
     out_J_norm := 0; out_align_eff := 0; out_kappa_mean := 0;
     out_current := 0; out_did_jump := 0; out_rewired_to := 0 |}.

(** ** The draws of one call

    [ssd_step] draws from the generator in a fixed order: the normal draws of
    phase 1 when [eps_noise > 0], the uniform draw of the jump test, and then
    either the draws of the jump branch ([N] normal draws for the logits, one
    uniform draw [r] for the sampling) or those of the exploration (one
    uniform draw for the test against [eps], one more for the target when the
    test succeeds).  The definitions below name these draws, and the handle
    as the chosen branch finds it. *)

Section Draws.
Context {G : Type} {RT : StdRuntime G}.

(** [j] as phase 1 leaves it *)
Definition phase_flow (h : SSDHandle G) (p : R) : list R :=
  fst (align_flow (prm h) p (kappa h) (rng h)).

(** the value of [h->uni01(h->rng)] in the jump test *)
Definition jump_draw (h : SSDHandle G) (p : R) : R :=
  fst (uni01 (snd (align_flow (prm h) p (kappa h) (rng h)))).

(** the handle after phases 2 to 4 and the jump draw, as the branch taken
    finds it *)
Definition decision_state (h : SSDHandle G) (p dt : R) : SSDHandle G :=
  let j := phase_flow h p in
  let E3 := Core.update_heat (prm h) p (flow_norm j) dt (E h) in
  {| N := N h; current := current h;
     kappa := Core.update_kappa (prm h) p dt (kappa h) j; w := w h;
     E := E3; F := F h;
     T := temperature (prm h) E3 (policy_entropy_of (pi h));
     pi := pi h; prm := prm h;
     rng := snd (uni01 (snd (align_flow (prm h) p (kappa h) (rng h)))) |}.

(** [p_jump] of the call *)
Definition decision_probability (h : SSDHandle G) (p dt : R) : R :=
  let h4 := decision_state h p dt in
  jump_probability
    (jump_rate (prm h) (E h4)
       (threshold (prm h) (mean_kappa (N h) (kappa h4)) (F h)))
    dt.

(** [r] of the jump branch entered on [h4]: the uniform draw that follows
    the [N] normal draws of the logits *)
Definition sampling_draw (h4 : SSDHandle G) : R :=
  fst (uni01 (snd (build_logits (prm h4) (kappa h4) (current h4) (N h4)
                     (seq 0 (N h4)) (rng h4)))).

(** [eps] of the no-jump branch entered on [h4] *)
Definition explore_eps (h4 : SSDHandle G) (kappa_mean : R) : R :=
  clip (eps0 (prm h4) + d1 (prm h4) * E h4 - d2 (prm h4) * kappa_mean) 0 1.

(** the draw that is compared with [eps] *)
Definition explore_draw (h4 : SSDHandle G) : R := fst (uni01 (rng h4)).

(** [k] of the exploration when the test succeeds:
    [k = (int)std::floor(uni01(rng) * N); if (k == N) k = N - 1;] *)
Definition explore_target (h4 : SSDHandle G) : nat :=
  let v := fst (uni01 (snd (uni01 (rng h4)))) in
  let k := Z.to_nat (Zfloor (v * INR (N h4))) in
  if Nat.eqb k (N h4) then (N h4 - 1)%nat else k.

End Draws.

(** The cumulative distribution walked by [sample_cdf]: the sum of the first
    [k] entries. *)
Definition cdf_upto (pis : list R) (k : nat) : R := vsum (firstn k pis).

(** The telemetry record with its [H] field replaced. *)
Definition with_H (t : SSDTelemetry) (H : R) : SSDTelemetry :=
  {| out_E := out_E t; out_Theta := out_Theta t; out_h := out_h t;
     out_T := out_T t; out_H := H; out_J_norm := out_J_norm t;
     out_align_eff := out_align_eff t; out_kappa_mean := out_kappa_mean t;
     out_current := out_current t; out_did_jump := out_did_jump t;
     out_rewired_to := out_rewired_to t |}.

(** Decides a comparison between two closed real expressions inside the goal
    and keeps the branch that is taken. *)
Ltac rdec1 :=
  match goal with
  | |- context [Rlt_dec ?a ?b] =>
      first
        [ let H := fresh in
          assert (H : a < b) by lra;
          destruct (Rlt_dec a b); [clear H|exfalso; lra]
        | let H := fresh in
          assert (H : ~ a < b) by lra;
          destruct (Rlt_dec a b); [exfalso; lra|clear H] ]
  | |- context [Rle_dec ?a ?b] =>
      first
        [ let H := fresh in
          assert (H : a <= b) by lra;
          destruct (Rle_dec a b); [clear H|exfalso; lra]
        | let H := fresh in
          assert (H : ~ a <= b) by lra;
          destruct (Rle_dec a b); [exfalso; lra|clear H] ]
  end.

Ltac rdec := repeat rdec1.

(** Opens [Core.step]: names the flow and the jump draw, and splits on the
    jump test. *)
Ltac open_step h p dt j s u s1 Hflow Hu Hjump :=
  unfold Core.step;
  destruct (align_flow (prm h) p (kappa h) (rng h)) as [j s] eqn:Hflow;
  destruct (uni01 s) as [u s1] eqn:Hu;
  match goal with
  | |- context [Rlt_dec u ?jp] => destruct (Rlt_dec u jp) as [Hjump|Hjump]
  end;
  cbv beta iota zeta.

(** ** The accessors of [ssd_core.cpp]

    [ssd_get_params], [ssd_set_params], [ssd_get_N] and [ssd_get_kappa_row]
    read the same in [ssd_align_leap_dll.cpp].  A pointer to a caller's
    buffer is [Some] of the buffer's content, a null pointer is [None]; a
    function that writes through a pointer returns the content afterwards. *)

(** [std::memcpy(dst, src, sizeof(double) * count)] on two vectors of
    doubles, for [count] within both. *)
Definition memcpy (dst src : list R) (count : nat) : list R :=
  firstn count src ++ skipn count dst.

Definition ssd_get_params {G : Type} (h : option (SSDHandle G))
    (out : option SSDParams) : option SSDParams :=
  match h, out with
  | Some h, Some _ => Some (prm h)
  | _, _ => out
  end.

Definition ssd_set_params {G : Type} (h : option (SSDHandle G))
    (in_ : option SSDParams) : option (SSDHandle G) :=
  match h, in_ with
  | Some h, Some p =>
      Some {| N := N h; current := current h; kappa := kappa h; w := w h;
              E := E h; F := F h; T := T h; pi := pi h; prm := p;
              rng := rng h |}
  | _, _ => h
  end.

Definition ssd_get_N {G : Type} (h : option (SSDHandle G)) : Z :=
  match h with
  | Some h => Z.of_nat (N h)
  | None => 0%Z
  end.

(** The count returned and the content of [out_buf] afterwards.  A negative
    [len] makes the size handed to [memcpy] wrap around; the model copies
    nothing then. *)
Definition ssd_get_kappa_row {G : Type} (h : option (SSDHandle G)) (row : Z)
    (out_buf : option (list R)) (len : Z) : Z * option (list R) :=
  match h, out_buf with
  | Some h, Some buf =>
      if ((row <? 0)%Z || (Z.of_nat (N h) <=? row)%Z)%bool then (0%Z, out_buf)
      else
        let n := N h in
        let m := Z.min (Z.of_nat n) len in
        (m, Some (memcpy buf (skipn (Z.to_nat row * n) (kappa h))
                    (Z.to_nat m)))
  | _, _ => (0%Z, out_buf)
  end.

(** ** [ssd_core/core/neuro_core.h] and [neuro_core.cpp]

    A [float] is read as a real number, like a [double]. *)

Module Neuro.
Import String.

Record NeuroState : Type := mkState {
  DA : R; S5 : R; NE : R; AD : R; END : R; OXT : R; CORT : R
}.

(** The default member initialisers of [struct NeuroState]. *)
Definition default_state : NeuroState :=
  {| DA := 0.5; S5 := 0.5; NE := 0.5; AD := 0.5; END := 0.5; OXT := 0.5;
     CORT := 0.5 |}.

Record NeuroCore : Type := mkCore {
  baseline : NeuroState;
  x : NeuroState;
  tau_DA : R; tau_S5 : R; tau_NE : R; tau_AD : R; tau_END : R; tau_OXT : R;
  tau_CORT : R
}.

Definition default_core : NeuroCore :=
  {| baseline := default_state; x := default_state;
     tau_DA := 30; tau_S5 := 45; tau_NE := 20; tau_AD := 8; tau_END := 40;
     tau_OXT := 35; tau_CORT := 120 |}.

Definition clamp01 (v : R) : R :=
  if Rlt_dec v 0 then 0 else if Rlt_dec 1 v then 1 else v.

(** The lambda [step] of [NeuroCore::Tick]: the new value of [v]. *)
Definition step (dt v b tau : R) : R :=
  if Rle_dec tau 1e-3 then v
  else clamp01 (v + (b - v) * (dt / tau)).

Definition Tick (c : NeuroCore) (dt : R) : NeuroCore :=
  {| baseline := baseline c;
     x := {| DA := step dt (DA (x c)) (DA (baseline c)) (tau_DA c);
             S5 := step dt (S5 (x c)) (S5 (baseline c)) (tau_S5 c);
             NE := step dt (NE (x c)) (NE (baseline c)) (tau_NE c);
             AD := step dt (AD (x c)) (AD (baseline c)) (tau_AD c);
             END := step dt (END (x c)) (END (baseline c)) (tau_END c);
             OXT := step dt (OXT (x c)) (OXT (baseline c)) (tau_OXT c);
             CORT := step dt (CORT (x c)) (CORT (baseline c)) (tau_CORT c) |};
     tau_DA := tau_DA c; tau_S5 := tau_S5 c; tau_NE := tau_NE c;
     tau_AD := tau_AD c; tau_END := tau_END c; tau_OXT := tau_OXT c;
     tau_CORT := tau_CORT c |}.

Definition kEvents : list (string * NeuroState) :=
  [ ("praise"%string,
     {| DA := 0.10; S5 := 0.05; NE := 0; AD := 0; END := 0; OXT := 0.10;
        CORT := -0.02 |});
    ("insult_god"%string,
     {| DA := -0.05; S5 := -0.10; NE := 0.12; AD := 0.12; END := 0;
        OXT := -0.08; CORT := 0.15 |});
    ("ritual_success"%string,
     {| DA := 0.08; S5 := 0.05; NE := 0; AD := 0; END := 0; OXT := 0.10;
        CORT := -0.02 |});
    ("taboo_violation"%string,
     {| DA := -0.05; S5 := -0.05; NE := 0.10; AD := 0.10; END := 0;
        OXT := -0.05; CORT := 0.12 |});
    ("comfort"%string,
     {| DA := 0.02; S5 := 0.05; NE := -0.05; AD := 0; END := 0.05;
        OXT := 0.08; CORT := -0.05 |}) ].

(** The lambda [add_clamp] of [NeuroCore::ApplyEvent]. *)
Definition add_clamp (v delta : R) : R := clamp01 (v + delta).

Definition add_event (s delta : NeuroState) : NeuroState :=
  {| DA := add_clamp (DA s) (DA delta);
     S5 := add_clamp (S5 s) (S5 delta);
     NE := add_clamp (NE s) (NE delta);
     AD := add_clamp (AD s) (AD delta);
     END := add_clamp (END s) (END delta);
     OXT := add_clamp (OXT s) (OXT delta);
     CORT := add_clamp (CORT s) (CORT delta) |}.

(** [for (const auto& event : kEvents) if (id == event.id) { ...; return; }] *)
Fixpoint apply_first (events : list (string * NeuroState)) (id : string)
    (s : NeuroState) : NeuroState :=
  match events with
  | [] => s
  | (event_id, delta) :: events' =>
      if String.eqb id event_id then add_event s delta
      else apply_first events' id s
  end.

Definition ApplyEvent (c : NeuroCore) (id : string) : NeuroCore :=
  {| baseline := baseline c;
     x := apply_first kEvents id (x c);
     tau_DA := tau_DA c; tau_S5 := tau_S5 c; tau_NE := tau_NE c;
     tau_AD := tau_AD c; tau_END := tau_END c; tau_OXT := tau_OXT c;
     tau_CORT := tau_CORT c |}.

Definition Get (c : NeuroCore) : NeuroState := x c.

Definition OxtBoost (c : NeuroCore) (gain : R) : R :=
  1 + gain * (2 * OXT (x c) - 1).

End Neuro.

(** ** [ssd_core/bridge/neuro_ssd_bridge.cpp] *)

Module Bridge.

Definition dev (u01 : R) : R := 2 * u01 - 1.

Definition clip01 (v : R) : R :=
  if Rlt_dec v 0 then 0 else if Rlt_dec 1 v then 1 else v.

Definition clipPos (v : R) : R := if Rlt_dec v 1e-6 then 1e-6 else v.

(** The parameters after the call.  The local constants [a1], [a2], [c1],
    [c2] and [d1] of the source carry a prime here, the names being those of
    parameter fields. *)
Definition MapNeuroToSSD (n : Neuro.NeuroState) (prm : SSDParams)
    : SSDParams :=
  let DA := dev (Neuro.DA n) in
  let S5 := dev (Neuro.S5 n) in
  let NE := dev (Neuro.NE n) in
  let AD := dev (Neuro.AD n) in
  let END := dev (Neuro.END n) in
  let OXT := dev (Neuro.OXT n) in
  let CORT := dev (Neuro.CORT n) in
  let k1 := 0.20 in let k2 := 0.15 in let k3 := 0.10 in
  let a1' := 0.25 in let a2' := 0.20 in let a3 := 0.25 in
  let b1 := 0.20 in let b2 := 0.15 in let b3 := 0.15 in
  let c1' := 0.10 in let c2' := 0.10 in let d1' := 0.10 in
  let e1 := 0.15 in let e2 := 0.10 in let f1 := 0.10 in let f2 := 0.10 in
  let s1 := 0.05 in let s2 := 0.05 in
  {| G0 := G0 prm; g := g prm; eps_noise := eps_noise prm;
     eta := clipPos (eta prm + c1' * DA - c2' * CORT);
     rho := rho prm;
     lam := clipPos (lam prm + d1' * S5);
     kappa_min := kappa_min prm;
     alpha := clipPos (alpha prm + e1 * NE - e2 * END);
     beta_E := clipPos (beta_E prm + f1 * S5 + f2 * END);
     Theta0 := clip01 (Theta0 prm + a1' * S5 + a2' * OXT - a3 * CORT);
     a1 := a1 prm; a2 := a2 prm;
     h0 := clip01 (h0 prm + b1 * DA + b2 * AD - b3 * S5);
     gamma := gamma prm;
     T0 := clip01 (T0 prm + k1 * DA - k2 * NE + k3 * AD);
     c1 := c1 prm; c2 := c2 prm;
     sigma := clip01 (sigma prm + s1 * DA - s2 * S5);
     delta_w := delta_w prm; delta_kappa := delta_kappa prm;
     c0_cool := c0_cool prm; q_relax := q_relax prm;
     eps_relax := eps_relax prm;
     eps0 := eps0 prm; d1 := d1 prm; d2 := d2 prm; b_path := b_path prm |}.

Section System.
Context {G : Type} {RT : StdRuntime G}.

Record NeuroSSDSystem : Type := mkSystem {
  neuro : Neuro.NeuroCore;
  ssd_handle : option (SSDHandle G)
}.

(** [NeuroSSDSystem::NeuroSSDSystem(int32_t N, uint64_t seed)] *)
Definition new_system (n : Z) (seed : Z) : NeuroSSDSystem :=
  {| neuro := Neuro.default_core;
     ssd_handle :=
       Core.ssd_create n (Some default_params)
         (if (seed =? 0)%Z then 123456789%Z else seed) |}.

(** [NeuroSSDSystem::GetSSDParams]: the content of [out] afterwards. *)
Definition GetSSDParams (sys : NeuroSSDSystem) (out : option SSDParams)
    : option SSDParams :=
  ssd_get_params (ssd_handle sys) out.

(** [NeuroSSDSystem::Tick]: the system and the record behind [telemetry]
    afterwards.  [current_params] is the local, default-initialised
    [SSDParams] that [ssd_get_params] fills. *)
Definition Tick (sys : NeuroSSDSystem) (meaning_pressure dt_sec : R)
    (telemetry : option SSDTelemetry)
    : NeuroSSDSystem * option SSDTelemetry :=
  let neuro' := Neuro.Tick (neuro sys) dt_sec in
  let current_params :=
    match ssd_get_params (ssd_handle sys) (Some default_params) with
    | Some p => p
    | None => default_params
    end in
  let current_params := MapNeuroToSSD (Neuro.Get neuro') current_params in
  let h := ssd_set_params (ssd_handle sys) (Some current_params) in
  let '(h, telemetry) := Core.ssd_step h meaning_pressure dt_sec telemetry in
  ({| neuro := neuro'; ssd_handle := h |}, telemetry).

Definition ApplyEvent (sys : NeuroSSDSystem) (event_id : String.string)
    : NeuroSSDSystem :=
  {| neuro := Neuro.ApplyEvent (neuro sys) event_id;
     ssd_handle := ssd_handle sys |}.

End System.
End Bridge.

(** ** [ssd_core/api/ssd_api.cpp]

    A [NeuroSSDSystem*] is an [option]. *)

Module Api.
Section Wrappers.
Context {G : Type} {RT : StdRuntime G}.

(** [try { return new NeuroSSDSystem(N, seed); } catch (...) { return
    nullptr; }]: the constructor itself does not throw, [ssd_create] catches
    what [new SSDHandle] throws. *)
Definition neurossd_create (n : Z) (seed : Z)
    : option (Bridge.NeuroSSDSystem (G := G)) :=
  if allocates neuro_ssd_system then Some (Bridge.new_system n seed)
  else None.

Definition neurossd_tick (sys : option (Bridge.NeuroSSDSystem (G := G)))
    (meaning_pressure dt_sec : R) (out : option SSDTelemetry)
    : option (Bridge.NeuroSSDSystem (G := G)) * option SSDTelemetry :=
  match sys with
  | None => (None, out)
  | Some s =>
      let '(s', out') := Bridge.Tick s meaning_pressure dt_sec out in
      (Some s', out')
  end.

Definition neurossd_apply_event
    (sys : option (Bridge.NeuroSSDSystem (G := G)))
    (event_id : option String.string)
    : option (Bridge.NeuroSSDSystem (G := G)) :=
  match sys, event_id with
  | Some s, Some id => Some (Bridge.ApplyEvent s id)
  | _, _ => sys
  end.

Definition neurossd_get_ssd_params
    (sys : option (Bridge.NeuroSSDSystem (G := G))) (out : option SSDParams)
    : option SSDParams :=
  match sys, out with
  | Some s, Some _ => Bridge.GetSSDParams s out
  | _, _ => out
  end.

Definition neurossd_get_neuro_state
    (sys : option (Bridge.NeuroSSDSystem (G := G)))
    (out : option Neuro.NeuroState) : option Neuro.NeuroState :=
  match sys, out with
  | Some s, Some _ => Some (Neuro.Get (Bridge.neuro s))
  | _, _ => out
  end.

Definition neurossd_set_neuro_baseline
    (sys : option (Bridge.NeuroSSDSystem (G := G)))
    (baseline : option Neuro.NeuroState)
    : option (Bridge.NeuroSSDSystem (G := G)) :=
  match sys, baseline with
  | Some s, Some b =>
      let c := Bridge.neuro s in
      Some {| Bridge.neuro :=
                {| Neuro.baseline := b; Neuro.x := Neuro.x c;
                   Neuro.tau_DA := Neuro.tau_DA c;
                   Neuro.tau_S5 := Neuro.tau_S5 c;
                   Neuro.tau_NE := Neuro.tau_NE c;
                   Neuro.tau_AD := Neuro.tau_AD c;
                   Neuro.tau_END := Neuro.tau_END c;
                   Neuro.tau_OXT := Neuro.tau_OXT c;
                   Neuro.tau_CORT := Neuro.tau_CORT c |};
              Bridge.ssd_handle := Bridge.ssd_handle s |}
  | _, _ => sys
  end.

Definition neurossd_get_neuro_baseline
    (sys : option (Bridge.NeuroSSDSystem (G := G)))
    (out : option Neuro.NeuroState) : option Neuro.NeuroState :=
  match sys, out with
  | Some s, Some _ => Some (Neuro.baseline (Bridge.neuro s))
  | _, _ => out
  end.

(** [neurossd_get_current_node]: the system afterwards and the value
    returned.  [telem] is what the uninitialised local [SSDTelemetry telem]
    happens to hold when [ssd_step] is called. *)
Definition neurossd_get_current_node
    (sys : option (Bridge.NeuroSSDSystem (G := G))) (telem : SSDTelemetry)
    : option (Bridge.NeuroSSDSystem (G := G)) * Z :=
  match sys with
  | None => (None, (-1)%Z)
  | Some s =>
      let '(h, out) :=
        Core.ssd_step (Bridge.ssd_handle s) 0 0 (Some telem) in
      (Some {| Bridge.neuro := Bridge.neuro s; Bridge.ssd_handle := h |},
       match out with Some t => out_current t | None => out_current telem end)
  end.

Definition neurossd_get_heat_level
    (sys : option (Bridge.NeuroSSDSystem (G := G))) (telem : SSDTelemetry)
    : option (Bridge.NeuroSSDSystem (G := G)) * R :=
  match sys with
  | None => (None, 0)
  | Some s =>
      let '(h, out) :=
        Core.ssd_step (Bridge.ssd_handle s) 0 0 (Some telem) in
      (Some {| Bridge.neuro := Bridge.neuro s; Bridge.ssd_handle := h |},
       match out with Some t => out_E t | None => out_E telem end)
  end.

(** One call of the C API on a system, for a caller's sequence of calls. *)
Inductive ApiCall : Type :=
  | call_tick (meaning_pressure dt_sec : R) (out : option SSDTelemetry)
  | call_apply_event (event_id : option String.string)
  | call_set_neuro_baseline (baseline : option Neuro.NeuroState)
  | call_get_current_node (telem : SSDTelemetry)
  | call_get_heat_level (telem : SSDTelemetry).

(** The system after the call. *)
Definition do_call (sys : option (Bridge.NeuroSSDSystem (G := G)))
    (c : ApiCall) : option (Bridge.NeuroSSDSystem (G := G)) :=
  match c with
  | call_tick meaning_pressure dt_sec out =>
      fst (neurossd_tick sys meaning_pressure dt_sec out)
  | call_apply_event event_id => neurossd_apply_event sys event_id
  | call_set_neuro_baseline baseline =>
      neurossd_set_neuro_baseline sys baseline
  | call_get_current_node telem => fst (neurossd_get_current_node sys telem)
  | call_get_heat_level telem => fst (neurossd_get_heat_level sys telem)
  end.

End Wrappers.
End Api.

(** ** A neuromodulator core away from its baseline

    The default baseline and time constants, with a state that sits on the
    bounds in places: dopamine at [1], cortisol almost at [0]. *)

Module NeuroRun.
Import String.

Definition stirred_core : Neuro.NeuroCore :=
  {| Neuro.baseline := Neuro.default_state;
     Neuro.x :=
       {| Neuro.DA := 1; Neuro.S5 := 0.98; Neuro.NE := 0; Neuro.AD := 0.9;
          Neuro.END := 0.5; Neuro.OXT := 0.95; Neuro.CORT := 0.01 |};
     Neuro.tau_DA := 30; Neuro.tau_S5 := 45; Neuro.tau_NE := 20;
     Neuro.tau_AD := 8; Neuro.tau_END := 40; Neuro.tau_OXT := 35;
     Neuro.tau_CORT := 120 |}.

(** The identifier of the first event of the table. *)
Definition praise : string := "praise".

End NeuroRun.

(** * Properties *)

(** ** Scalars and vectors *)

Lemma std_max_ge_l (a b : R) : a <= std_max a b.
Proof. unfold std_max. destruct (Rlt_dec a b); lra. Qed.

Lemma std_max_ge_r (a b : R) : b <= std_max a b.
Proof. unfold std_max. destruct (Rlt_dec a b); lra. Qed.

Lemma std_max_left (a b : R) : b <= a -> std_max a b = a.
Proof. intros Hba. unfold std_max. destruct (Rlt_dec a b); lra. Qed.

Lemma length_vupd (i : nat) (f : R -> R) (v : list R) :
  length (vupd i f v) = length v.
Proof.
  revert i. induction v as [|x v IH]; intros [|i]; simpl; auto.
Qed.

Lemma vget_vupd (a i : nat) (f : R -> R) (v : list R) :
  (i < length v)%nat ->
  vget (vupd a f v) i = if Nat.eqb i a then f (vget v i) else vget v i.
Proof.
  unfold vget. revert a i.
  induction v as [|x v IH]; intros a i Hi; simpl in Hi; [lia|].
  destruct a as [|a], i as [|i]; simpl; auto.
  apply IH. lia.
Qed.

Lemma Forall_vupd (P : R -> Prop) (a : nat) (f : R -> R) (v : list R) :
  (forall x, P x -> P (f x)) -> Forall P v -> Forall P (vupd a f v).
Proof.
  intros Hf Hv. revert a.
  induction Hv as [|x v Hx Hv IH]; intros [|a]; simpl; auto.
Qed.

Lemma fold_Rplus_from (v : list R) (a : R) :
  fold_left Rplus v a = a + vsum v.
Proof.
  unfold vsum. revert a.
  induction v as [|x v IH]; intros a; simpl; [lra|].
  rewrite (IH (a + x)), (IH (0 + x)). lra.
Qed.

Lemma vsum_cons (x : R) (v : list R) : vsum (x :: v) = x + vsum v.
Proof. unfold vsum at 1. simpl. rewrite fold_Rplus_from. lra. Qed.

Lemma vsum_nil : vsum [] = 0.
Proof. reflexivity. Qed.

Lemma vsum_repeat_0 (n : nat) : vsum (repeat 0 n) = 0.
Proof.
  induction n as [|n IH]; simpl; [reflexivity|].
  rewrite vsum_cons, IH. lra.
Qed.

Lemma vsum_vupd (a : nat) (f : R -> R) (v : list R) :
  (a < length v)%nat -> vsum (vupd a f v) = vsum v - vget v a + f (vget v a).
Proof.
  unfold vget. revert a.
  induction v as [|x v IH]; intros a Ha; simpl in Ha; [lia|].
  destruct a as [|a]; simpl.
  - rewrite !vsum_cons. lra.
  - rewrite !vsum_cons, IH by lia. lra.
Qed.

Lemma vsum_map_div (v : list R) (d : R) :
  vsum (map (fun e => e / d) v) = vsum v / d.
Proof.
  induction v as [|x v IH]; simpl.
  - rewrite vsum_nil. unfold Rdiv. ring.
  - rewrite !vsum_cons, IH. unfold Rdiv. ring.
Qed.

Lemma vget_repeat (x : R) (n i : nat) :
  (i < n)%nat -> vget (repeat x n) i = x.
Proof.
  unfold vget. revert i.
  induction n as [|n IH]; intros i Hi; [lia|].
  destruct i as [|i]; simpl; [reflexivity|]. apply IH. lia.
Qed.

(** ** [softmax_temp] *)

(** [a] is the first position, among the first [m + 1], that holds the
    largest logit. *)
Definition first_max (logits : list R) (m a : nat) : Prop :=
  (a <= m)%nat /\
  (forall i, (i <= m)%nat -> vget logits i <= vget logits a) /\
  (forall i, (i < a)%nat -> vget logits i < vget logits a).

Lemma argmax_scan (logits : list R) (m : nat) :
  first_max logits m
    (fold_left
       (fun arg i =>
          if Rlt_dec (vget logits arg) (vget logits i) then i else arg)
       (seq 1 m) O).
Proof.
  induction m as [|m IH].
  - simpl. split; [lia|]. split; intros i Hi; [|lia].
    replace i with O by lia. lra.
  - rewrite seq_S, fold_left_app. simpl.
    set (arg := fold_left _ (seq 1 m) O) in *.
    destruct IH as (Harg & Hmax & Hfirst).
    destruct (Rlt_dec (vget logits arg) (vget logits (S m))) as [Hlt|Hge].
    + split; [lia|]. split.
      * intros i Hi. destruct (Nat.eq_dec i (S m)) as [->|Hne]; [lra|].
        specialize (Hmax i ltac:(lia)). lra.
      * intros i Hi. specialize (Hmax i ltac:(lia)). lra.
    + split; [lia|]. split; [|assumption].
      intros i Hi. destruct (Nat.eq_dec i (S m)) as [->|Hne]; [lra|].
      apply Hmax. lia.
Qed.

Lemma argmax_loop_first_max (logits : list R) :
  logits <> [] -> first_max logits (length logits - 1) (argmax_loop logits).
Proof. intros _. apply argmax_scan. Qed.


Lemma max_element_in (rest : list R) (l0 : R) :
  In (Core.max_element l0 rest) (l0 :: rest).
Proof.
  unfold Core.max_element. revert l0.
  induction rest as [|x rest IH]; intros l0; simpl; [auto|].
  destruct (Rlt_dec l0 x).
  - destruct (IH x) as [<-|Hin]; auto.
  - destruct (IH l0) as [<-|Hin]; auto.
Qed.

Lemma std_exp_nonneg (z : R) : 0 <= std_exp z.
Proof.
  unfold std_exp. destruct (Rle_dec z (- 1075 * ln 2)); [lra|].
  apply Rlt_le, exp_pos.
Qed.

(** No underflow above [-1075 * ln 2], in particular on [-537 <= z]. *)
Lemma std_exp_exact (z : R) : -537 <= z -> std_exp z = exp z.
Proof.
  intros Hz. unfold std_exp.
  destruct (Rle_dec z (- 1075 * ln 2)) as [Hle|_]; [|reflexivity].
  pose proof ln_lt_2 as Hln. lra.
Qed.

Lemma std_exp_0 : std_exp 0 = 1.
Proof. rewrite std_exp_exact by lra. apply exp_0. Qed.

Lemma exp_scores_nonneg (logits : list R) (maxv T : R) :
  Forall (fun x => 0 <= x) (exp_scores logits maxv T).
Proof.
  unfold exp_scores. apply Forall_forall. intros x Hx.
  apply in_map_iff in Hx. destruct Hx as (l & <- & _). apply std_exp_nonneg.
Qed.

(** The largest logit scores [std::exp(0) = 1]. *)
Lemma exp_scores_max (l0 : R) (rest : list R) (T : R) :
  In 1 (exp_scores (l0 :: rest) (Core.max_element l0 rest) T).
Proof.
  unfold exp_scores. apply in_map_iff.
  exists (Core.max_element l0 rest). split; [|apply max_element_in].
  replace ((Core.max_element l0 rest - Core.max_element l0 rest) / T)
    with 0 by (unfold Rdiv; ring).
  apply std_exp_0.
Qed.

Lemma vsum_ge_entry (v : list R) (x : R) :
  Forall (fun y => 0 <= y) v -> In x v -> x <= vsum v.
Proof.
  intros Hv. induction Hv as [|y v Hy Hv IH]; intros Hin; [destruct Hin|].
  rewrite vsum_cons.
  assert (Hsum : 0 <= vsum v).
  { clear - Hv. induction Hv as [|z v Hz Hv IH]; [rewrite vsum_nil; lra|].
    rewrite vsum_cons. lra. }
  destruct Hin as [->|Hin]; [lra|]. specialize (IH Hin). lra.
Qed.

Lemma normalise_distribution (es : list R) :
  Forall (fun x => 0 <= x) es -> 0 < vsum es ->
  Forall (fun x => 0 <= x) (normalise es) /\ vsum (normalise es) = 1.
Proof.
  intros Hpos Hsum. unfold normalise.
  destruct (Rle_dec (vsum es) 0) as [Hle|_]; [lra|].
  split.
  - apply Forall_forall. intros x Hx.
    apply in_map_iff in Hx. destruct Hx as (e & <- & He).
    rewrite Forall_forall in Hpos. specialize (Hpos e He).
    apply Rmult_le_pos; [exact Hpos|].
    apply Rlt_le, Rinv_0_lt_compat. exact Hsum.
  - rewrite vsum_map_div. field. lra.
Qed.

(** The policy is a probability vector whatever the temperature and the
    logits: scores that underflow are zero, the largest logit scores one. *)
Lemma softmax_temp_distribution (logits : list R) (T : R) :
  logits <> [] ->
  Forall (fun x => 0 <= x) (Core.softmax_temp logits T) /\
  vsum (Core.softmax_temp logits T) = 1.
Proof.
  intros Hne. unfold Core.softmax_temp.
  destruct logits as [|l0 rest]; [congruence|].
  destruct (Rle_dec T 1e-8) as [_|_].
  - destruct (argmax_loop_first_max (l0 :: rest) Hne) as (Ha & _ & _).
    assert (Hlen : (argmax_loop (l0 :: rest)
                    < length (repeat 0%R (length (l0 :: rest))))%nat)
      by (rewrite repeat_length; simpl in *; lia).
    split.
    + apply Forall_vupd; [intros; lra|].
      apply Forall_forall. intros x Hx. apply repeat_spec in Hx. lra.
    + rewrite vsum_vupd by exact Hlen.
      rewrite vsum_repeat_0, vget_repeat; [lra|].
      rewrite repeat_length in Hlen. exact Hlen.
  - apply normalise_distribution; [apply exp_scores_nonneg|].
    apply Rlt_le_trans with 1; [lra|].
    apply vsum_ge_entry; [apply exp_scores_nonneg|apply exp_scores_max].
Qed.

(** C6.  Zero-temperature collapse: when the temperature handed to
    [softmax_temp] is at most [1e-8], the policy it returns over a non-empty
    vector of logits is exactly one-hot: [1] at the first position that holds
    the largest logit and [0] at every other position. *)
Theorem softmax_temp_zero_temperature_one_hot (logits : list R) (T : R) :
  logits <> [] -> T <= 1e-8 ->
  exists a,
    first_max logits (length logits - 1) a /\
    length (Core.softmax_temp logits T) = length logits /\
    forall i, (i < length logits)%nat ->
      vget (Core.softmax_temp logits T) i = if Nat.eqb i a then 1 else 0.
Proof.
  intros Hne HT. exists (argmax_loop logits).
  split; [apply argmax_loop_first_max; exact Hne|].
  unfold Core.softmax_temp.
  destruct logits as [|l0 rest]; [congruence|].
  destruct (Rle_dec T 1e-8) as [_|Hgt]; [|lra].
  split; [rewrite length_vupd; apply repeat_length|].
  intros i Hi.
  rewrite vget_vupd by (rewrite repeat_length; exact Hi).
  rewrite vget_repeat by exact Hi. reflexivity.
Qed.

Lemma softmax_temp_zero_temperature_one_hot_witness :
  exists a,
    first_max [1; 3; 3] (length [1; 3; 3] - 1) a /\
    length (Core.softmax_temp [1; 3; 3] 0) = length [1; 3; 3] /\
    forall i, (i < length [1; 3; 3])%nat ->
      vget (Core.softmax_temp [1; 3; 3] 0) i = if Nat.eqb i a then 1 else 0.
Proof.
  apply (softmax_temp_zero_temperature_one_hot [1; 3; 3] 0).
  - discriminate.
  - lra.
Defined.

(** ** The step *)

Section StepFacts.
Context {G : Type} {RT : StdRuntime G}.

Lemma temperature_floor (prm : SSDParams) (E Hn : R) :
  1e-6 <= temperature prm E Hn.
Proof. apply std_max_ge_l. Qed.

Lemma jump_probability_dt_0 (hrate : R) : jump_probability hrate 0 = 0.
Proof.
  unfold jump_probability.
  replace (- hrate * 0) with 0 by ring. rewrite exp_0. ring.
Qed.

Lemma build_logits_length (prm : SSDParams) (ks : list R) (cur n : nat)
    (range : list nat) (s : G) :
  length (fst (build_logits prm ks cur n range s)) = length range.
Proof.
  revert s. induction range as [|k range IH]; intros s; simpl; [reflexivity|].
  destruct (norm01 s) as [z s1].
  specialize (IH s1).
  destruct (build_logits prm ks cur n range s1) as [ls s2].
  simpl in *. congruence.
Qed.

(** The policy stored by the jump branch is the softmax of [N] logits. *)
Lemma jump_branch_pi (h : SSDHandle G) (j : list R) :
  exists logits,
    length logits = N h /\
    pi (Core.jump_branch h j) = Core.softmax_temp logits (T h).
Proof.
  unfold Core.jump_branch.
  pose proof (build_logits_length (prm h) (kappa h) (current h) (N h)
                (seq 0 (N h)) (rng h)) as Hlen.
  destruct (build_logits _ _ _ _ _ _) as [logits s].
  destruct (uni01 s) as [r s1]. simpl in *.
  exists logits. rewrite Hlen, length_seq. auto.
Qed.

Lemma ssd_step_some (h h' : SSDHandle G) (p dt : R)
    (out out' : option SSDTelemetry) :
  Core.ssd_step (Some h) p dt out = (Some h', out') ->
  h' = fst (Core.step h p dt) /\
  out' = match out with
         | Some _ => Some (snd (Core.step h p dt))
         | None => None
         end.
Proof.
  unfold Core.ssd_step. destruct (Core.step h p dt) as [h1 t1].
  intros Heq. inversion Heq. auto.
Qed.

(** The step, read through the draws it makes: phases 1 to 4 lead to
    [decision_state], the jump draw is compared with the jump probability,
    and the branch taken runs on that state. *)
Lemma step_decision (h : SSDHandle G) (p dt : R) :
  Core.step h p dt =
  let h4 := decision_state h p dt in
  let kappa_mean := mean_kappa (N h) (kappa h4) in
  let Theta := threshold (prm h) kappa_mean (F h) in
  let jumps :=
    if Rlt_dec (jump_draw h p) (decision_probability h p dt)
    then true else false in
  let h5 :=
    if jumps then Core.jump_branch h4 (phase_flow h p)
    else Core.no_jump_branch h4 kappa_mean in
  (h5,
   {| out_E := E h5; out_Theta := Theta;
      out_h := jump_rate (prm h) (E h4) Theta; out_T := T h5;
      out_H := policy_entropy_of (pi h);
      out_J_norm := flow_norm (phase_flow h p);
      out_align_eff :=
        if Rlt_dec 1e-8 (Rabs p) then flow_norm (phase_flow h p) / Rabs p
        else 0;
      out_kappa_mean := kappa_mean;
      out_current := Z.of_nat (current h5);
      out_did_jump := if jumps then 1%Z else 0%Z;
      out_rewired_to := Z.of_nat (current h5) |}).
Proof.
  unfold Core.step, decision_probability, decision_state, jump_draw,
    phase_flow.
  destruct (align_flow (prm h) p (kappa h) (rng h)) as [j s].
  cbn [fst snd].
  destruct (uni01 s) as [u s1]. reflexivity.
Qed.

Lemma step_jump_decision (h : SSDHandle G) (p dt : R) :
  out_did_jump (snd (Core.step h p dt)) = 1%Z ->
  fst (Core.step h p dt)
  = Core.jump_branch (decision_state h p dt) (phase_flow h p).
Proof.
  rewrite step_decision. cbv zeta. cbn [fst snd out_did_jump].
  destruct (Rlt_dec (jump_draw h p) (decision_probability h p dt));
    [reflexivity|discriminate].
Qed.

Lemma step_no_jump_decision (h : SSDHandle G) (p dt : R) :
  out_did_jump (snd (Core.step h p dt)) = 0%Z ->
  fst (Core.step h p dt)
  = Core.no_jump_branch (decision_state h p dt)
      (out_kappa_mean (snd (Core.step h p dt))).
Proof.
  rewrite step_decision. cbv zeta. cbn [fst snd out_did_jump out_kappa_mean].
  destruct (Rlt_dec (jump_draw h p) (decision_probability h p dt));
    [discriminate|reflexivity].
Qed.

Lemma step_kappa_mean (h : SSDHandle G) (p dt : R) :
  out_kappa_mean (snd (Core.step h p dt))
  = mean_kappa (N h) (kappa (decision_state h p dt)).
Proof. rewrite step_decision. reflexivity. Qed.

Lemma step_dt_0_did_jump (h : SSDHandle G) (p : R) :
  out_did_jump (snd (Core.step h p 0)) = 0%Z.
Proof.
  rewrite step_decision. cbv zeta. cbn [snd out_did_jump].
  destruct (Rlt_dec (jump_draw h p) (decision_probability h p 0))
    as [Hlt|_]; [exfalso|reflexivity].
  unfold decision_probability in Hlt. cbv zeta in Hlt.
  rewrite jump_probability_dt_0 in Hlt.
  pose proof (uni01_range (snd (align_flow (prm h) p (kappa h) (rng h))))
    as Hrange.
  unfold jump_draw in Hlt. lra.
Qed.

(** The jump branch, read through its sampling draw. *)
Lemma jump_branch_draw (h : SSDHandle G) (j : list R) :
  N (Core.jump_branch h j) = N h /\
  pi (Core.jump_branch h j)
  = Core.softmax_temp
      (fst (build_logits (prm h) (kappa h) (current h) (N h) (seq 0 (N h))
              (rng h)))
      (T h) /\
  current (Core.jump_branch h j)
  = sample_cdf (sampling_draw h) (pi (Core.jump_branch h j)) 0 0 (N h - 1) /\
  w (Core.jump_branch h j)
  = vupd (idx (current h) (current (Core.jump_branch h j)) (N h))
      (fun x => x + delta_w (prm h)) (w h).
Proof.
  unfold Core.jump_branch, sampling_draw.
  destruct (build_logits _ _ _ _ _ _) as [logits s]. cbn [fst snd].
  destruct (uni01 s) as [r s1]. cbn [fst snd]. repeat split.
Qed.

(** The exploration, read through its two draws. *)
Lemma explore_draws (h : SSDHandle G) (kappa_mean : R) :
  let fires :=
    if Rlt_dec (explore_draw h) (explore_eps h kappa_mean)
    then negb (Nat.eqb (explore_target h) (current h)) else false in
  let edge_idx := idx (current h) (explore_target h) (N h) in
  kappa (explore h kappa_mean)
  = (if fires then vupd edge_idx (fun x => x + 0.05) (kappa h)
     else kappa h) /\
  w (explore h kappa_mean)
  = (if fires then vupd edge_idx (fun x => x + 0.05) (w h) else w h).
Proof.
  unfold explore, explore_draw, explore_eps, explore_target.
  destruct (uni01 (rng h)) as [u s]. cbn [fst snd].
  destruct (Rlt_dec u _) as [Hu|Hu]; [|split; reflexivity].
  destruct (uni01 s) as [v s1]. cbn [fst snd].
  destruct (Nat.eqb _ (current h)); split; reflexivity.
Qed.

Lemma explore_target_range (h : SSDHandle G) :
  (1 <= N h)%nat -> (explore_target h < N h)%nat.
Proof.
  intros HN. unfold explore_target.
  pose proof (uni01_range (snd (uni01 (rng h)))) as Hv.
  set (v := fst (uni01 (snd (uni01 (rng h))))) in *.
  assert (Hpos : 0 < INR (N h)) by (apply lt_0_INR; lia).
  pose proof (Zfloor_bound (v * INR (N h))) as [Hlo Hhi].
  assert (Hlt : IZR (Zfloor (v * INR (N h))) < IZR (Z.of_nat (N h))).
  { rewrite <- INR_IZR_INZ. nra. }
  apply lt_IZR in Hlt.
  destruct (Nat.eqb _ (N h)) eqn:Hk; [lia|].
  lia.
Qed.

(** C3.  A call with [dt = 0] on a handle that is not null never takes the
    jump branch: the [did_jump] flag it writes is [0], whatever the state, the
    parameters and the drive. *)
Theorem ssd_step_dt_0_no_jump (h h' : SSDHandle G) (p : R)
    (out t : SSDTelemetry) :
  Core.ssd_step (Some h) p 0 (Some out) = (Some h', Some t) ->
  out_did_jump t = 0%Z.
Proof.
  intros Hstep. apply ssd_step_some in Hstep. destruct Hstep as [_ Ht].
  inversion Ht as [Ht']. clear Ht Ht' h' t.
  open_step h p 0 j s u s1 Hflow Hu Hjump; simpl.
  - rewrite jump_probability_dt_0 in Hjump.
    pose proof (uni01_range s) as Hrange. rewrite Hu in Hrange. simpl in Hrange.
    lra.
  - reflexivity.
Qed.

(** C5.  Whenever a call takes the jump branch, the policy it stores has no
    negative entry and sums to [1] (exactly, the arithmetic being exact). *)
Theorem ssd_step_jump_policy_distribution (h h' : SSDHandle G) (p dt : R)
    (out t : SSDTelemetry) :
  (1 <= N h)%nat ->
  Core.ssd_step (Some h) p dt (Some out) = (Some h', Some t) ->
  out_did_jump t = 1%Z ->
  Forall (fun x => 0 <= x) (pi h') /\ vsum (pi h') = 1.
Proof.
  intros HN Hstep. apply ssd_step_some in Hstep. destruct Hstep as [Hh Ht].
  inversion Ht as [Ht']. subst h'. clear Ht Ht' t.
  open_step h p dt j s u s1 Hflow Hu Hjump; simpl; [|discriminate].
  intros _.
  match goal with
  | |- context [Core.jump_branch ?h4 j] =>
      destruct (jump_branch_pi h4 j) as (logits & Hlen & ->)
  end.
  simpl in Hlen.
  apply softmax_temp_distribution.
  destruct logits; simpl in *; [lia|discriminate].
Qed.

End StepFacts.

(** ** The jump run, phase by phase

    [Core.step jump_handle 1 1] evaluated by hand: each lemma is one phase of
    [ssd_step] on the values the phases before it have left. *)

(** Phase 1: [j = (0 + 0.5 * kappa) * 1], no noise drawn. *)
Lemma jump_flow (s : Tape) :
  align_flow jump_params 1 [0; 0; 0; 1] s = ([0; 0; 0; / 2], s).
Proof.
  simpl. rdec. repeat f_equal; lra.
Qed.

Lemma jump_flow_norm : flow_norm [0; 0; 0; / 2] = / 2.
Proof.
  unfold flow_norm. simpl.
  replace (0 + 0 * 0 + 0 * 0 + 0 * 0 + / 2 * / 2) with (/ 2 * / 2) by lra.
  apply sqrt_square. lra.
Qed.

(** Phase 2: [eta = 0] and [lam = 0] leave the inertia as it is. *)
Lemma jump_update_kappa :
  Core.update_kappa jump_params 1 1 [0; 0; 0; 1] [0; 0; 0; / 2]
  = [0; 0; 0; 1].
Proof.
  unfold Core.update_kappa, Core.update_edge, std_max. simpl. rdec.
  repeat f_equal; lra.
Qed.

(** Phase 3: the excess pressure is [1 - 1/2] and [alpha = 2]. *)
Lemma jump_update_heat : Core.update_heat jump_params 1 (/ 2) 1 0 = 1.
Proof.
  unfold Core.update_heat, std_max. simpl. rewrite Rabs_R1. rdec. lra.
Qed.

(** Phase 4. *)
Lemma jump_mean : mean_kappa 2 [0; 0; 0; 1] = / 4.
Proof.
  unfold mean_kappa, vsum. simpl. lra.
Qed.

Lemma jump_rate_val :
  jump_rate jump_params 1 (threshold jump_params (/ 4) 0) = 2.
Proof.
  unfold jump_rate, threshold, std_max. simpl. rdec.
  replace ((1 - (1 + 0 * / 4 - 0 * 0)) / 1) with 0 by lra.
  rewrite exp_0. lra.
Qed.

Lemma jump_temperature (Hn : R) : temperature jump_params 1 Hn = 1.
Proof.
  unfold temperature, std_max. simpl. rdec. lra.
Qed.

Lemma exp_neg_2_small : exp (Ropp 2 * 1) < / 2.
Proof.
  replace (Ropp 2 * 1) with (Ropp 2) by lra.
  rewrite exp_Ropp.
  apply Rinv_lt_contravar.
  - pose proof (exp_pos 2). lra.
  - pose proof (exp_ineq1 2 ltac:(lra)). lra.
Qed.

(** Phase 5: the jump draw [1/2] is below [1 - exp(-2)]. *)
Lemma jump_taken : / 2 < jump_probability 2 1.
Proof. unfold jump_probability. pose proof exp_neg_2_small. lra. Qed.

(** The logits of row 0: [-1] on the self loop, [0] towards node 1. *)
Lemma jump_logits :
  build_logits jump_params [0; 0; 0; 1] 0 2 (seq 0 2)
    {| uniforms := [/ 4]; normals := [0; 0] |}
  = ([-1; 0], {| uniforms := [/ 4]; normals := [] |}).
Proof.
  simpl. unfold vget, idx. simpl. repeat f_equal; lra.
Qed.

Lemma exp_neg_1_bounds : / 3 <= exp (-1) < / 2.
Proof.
  replace (-1) with (Ropp 1) by lra. rewrite exp_Ropp.
  pose proof exp_le_3. pose proof (exp_ineq1 1 ltac:(lra)).
  pose proof (exp_pos 1).
  split.
  - apply Rinv_le_contravar; lra.
  - apply Rinv_lt_contravar; lra.
Qed.

Lemma jump_softmax : Core.softmax_temp [-1; 0] 1 = jump_pi.
Proof.
  unfold Core.softmax_temp, Core.max_element, normalise, exp_scores, vsum.
  simpl. pose proof exp_neg_1_bounds. rdec.
  replace ((-1 - 0) / 1) with (-1) by lra.
  replace ((0 - 0) / 1) with 0 by lra.
  rewrite (std_exp_exact (-1)) by lra.
  rewrite std_exp_0. rdec. unfold jump_pi.
  replace (0 + exp (-1) + 1) with (exp (-1) + 1) by lra. reflexivity.
Qed.

(** The sampling draw [1/4] is not above [pi[0]], since [exp 1 <= 3]. *)
Lemma jump_sample : sample_cdf (/ 4) jump_pi 0 0 (2 - 1) = 0%nat.
Proof.
  unfold jump_pi. simpl.
  pose proof exp_neg_1_bounds as [Hlo Hhi].
  assert (/ 4 <= 0 + exp (-1) / (exp (-1) + 1)).
  { rewrite Rplus_0_l. apply Rmult_le_reg_r with (exp (-1) + 1); [lra|].
    unfold Rdiv. rewrite Rmult_assoc, Rinv_l by lra. lra. }
  destruct (Rle_dec _ _); [reflexivity|contradiction].
Qed.

(** RelaxTop: [relax_count = max(1, round(0 * 4)) = 1], and the edge with the
    largest [|j|] is edge 3. *)
Lemma round_zero : std_round (0 * INR (2 * 2)) = 0%Z.
Proof.
  rewrite Rmult_0_l. unfold std_round.
  destruct (Rle_dec 0 0); [|lra].
  apply Zfloor_eq. simpl. lra.
Qed.

Lemma jump_sort :
  tape_partial_sort (by_abs_flow [0; 0; 0; / 2]) 1 (seq 0 4)
  = [3; 0; 1; 2]%nat.
Proof.
  assert (Hcmp : forall a b,
            by_abs_flow [0; 0; 0; / 2] a b =
            if Rlt_dec (Rabs (vget [0; 0; 0; / 2] b))
                 (Rabs (vget [0; 0; 0; / 2] a))
            then true else false)
    by reflexivity.
  assert (H3 : forall b,
            (b < 3)%nat -> by_abs_flow [0; 0; 0; / 2] 3 b = true).
  { intros b Hb. rewrite Hcmp.
    assert (Hb0 : vget [0; 0; 0; / 2] b = 0).
    { destruct b as [|[|[|b]]]; try reflexivity; lia. }
    rewrite Hb0. unfold vget. simpl. rewrite Rabs_R0, Rabs_pos_eq by lra.
    destruct (Rlt_dec 0 (/ 2)); [reflexivity|lra]. }
  assert (H0 : forall a b,
            (a < 3)%nat -> (b < 3)%nat ->
            by_abs_flow [0; 0; 0; / 2] a b = false).
  { intros a b Ha Hb. rewrite Hcmp.
    assert (Ha0 : vget [0; 0; 0; / 2] a = 0).
    { destruct a as [|[|[|a]]]; try reflexivity; lia. }
    assert (Hb0 : vget [0; 0; 0; / 2] b = 0).
    { destruct b as [|[|[|b]]]; try reflexivity; lia. }
    rewrite Ha0, Hb0.
    destruct (Rlt_dec (Rabs 0) (Rabs 0)); [lra|reflexivity]. }
  unfold tape_partial_sort. simpl.
  rewrite (H3 2%nat) by lia. simpl.
  rewrite (H3 1%nat) by lia. simpl.
  rewrite (H0 2%nat 1%nat) by lia.
  rewrite (H3 0%nat) by lia. simpl.
  rewrite (H0 1%nat 0%nat) by lia.
  reflexivity.
Qed.

Lemma jump_relax :
  Core.relax_top jump_params 2 [0; 0; 0; / 2] [-1; 0; 0; 1] = [-1; 0; 0; 1].
Proof.
  unfold Core.relax_top, relax_count_of. cbn [q_relax jump_params].
  rewrite round_zero.
  change (Z.to_nat (Z.max 1 0)) with 1%nat. change (2 * 2)%nat with 4%nat.
  cbn [partial_sort TapeRuntime]. rewrite jump_sort.
  simpl. unfold std_max. rdec. repeat f_equal; lra.
Qed.

Lemma jump_relax_in_bounds : relax_in_bounds jump_params 2.
Proof.
  unfold relax_in_bounds, relax_count_of. cbn [q_relax jump_params].
  rewrite round_zero. simpl. lia.
Qed.

(** The whole step. *)
Lemma jump_step : Core.step jump_handle 1 1 = (jump_post, jump_telemetry).
Proof.
  unfold Core.step, jump_handle.
  cbn [N prm kappa rng E F pi current w T].
  rewrite jump_flow. cbv beta iota zeta.
  rewrite jump_flow_norm, jump_update_kappa, jump_update_heat, jump_mean.
  cbn [uni01 TapeRuntime tape_uni01 uniforms normals].
  rewrite jump_rate_val, jump_temperature.
  pose proof jump_taken. rdec.
  unfold Core.jump_branch.
  cbn [N prm kappa rng E F pi current w T].
  rewrite jump_logits.
  rewrite jump_softmax.
  cbn [uni01 TapeRuntime tape_uni01 uniforms normals].
  rdec. rewrite jump_sample.
  cbn [idx Nat.mul Nat.add vupd delta_kappa delta_w c0_cool jump_params
       N prm kappa rng E F pi current w T].
  replace (0 + -1) with (-1) by lra. rewrite jump_relax.
  rewrite Rabs_R1. rdec.
  unfold jump_post, jump_telemetry, threshold.
  cbn [policy_entropy_of Z.of_nat Theta0 a1 a2 jump_params].
  repeat f_equal; lra.
Qed.

(** The entropy of the two policies of the run. *)
Lemma ln_lt_minus_1 (x : R) : 0 < x -> x <> 1 -> ln x < x - 1.
Proof.
  intros Hx Hne.
  assert (Hln : ln x <> 0) by (apply ln_neq_0; assumption).
  pose proof (exp_ineq1 (ln x) Hln) as Hexp.
  rewrite exp_ln in Hexp by exact Hx. lra.
Qed.

Lemma binary_entropy_lt (a b : R) :
  0 < a -> 0 < b -> a + b = 1 -> a <> / 2 ->
  - a * ln a + - b * ln b < ln 2.
Proof.
  intros Ha Hb Hab Hne.
  assert (H2a : ln (/ (2 * a)) < / (2 * a) - 1).
  { apply ln_lt_minus_1.
    - apply Rinv_0_lt_compat. lra.
    - intros Heq. apply Hne.
      assert (2 * a = 1) by (rewrite <- (Rinv_inv (2 * a)), Heq; apply Rinv_1).
      lra. }
  assert (H2b : ln (/ (2 * b)) <= / (2 * b) - 1).
  { destruct (Req_dec (/ (2 * b)) 1) as [Heq|Hneq].
    - rewrite Heq, ln_1. lra.
    - apply Rlt_le, ln_lt_minus_1; [apply Rinv_0_lt_compat; lra|exact Hneq]. }
  rewrite ln_Rinv, ln_mult in H2a, H2b by lra.
  assert (Ea : a * (/ (2 * a) - 1) = / 2 - a) by (field; lra).
  assert (Eb : b * (/ (2 * b) - 1) = / 2 - b) by (field; lra).
  assert (La : a * - (ln 2 + ln a) < a * (/ (2 * a) - 1))
    by (apply Rmult_lt_compat_l; assumption).
  assert (Lb : b * - (ln 2 + ln b) <= b * (/ (2 * b) - 1))
    by (apply Rmult_le_compat_l; lra).
  nra.
Qed.

Lemma entropy_uniform_2 : entropy_norm [/ 2; / 2] = 1.
Proof.
  unfold entropy_norm, entropy_term. simpl. rdec.
  pose proof ln_lt_2.
  change (1 + 1) with (INR 2). replace (INR 2) with 2 by (simpl; lra).
  destruct (Rlt_dec 0 (ln 2)); [|lra].
  rewrite ln_Rinv by lra. field. lra.
Qed.

Lemma entropy_jump_pi : entropy_norm jump_pi < 1.
Proof.
  unfold entropy_norm, entropy_term, jump_pi. simpl.
  pose proof exp_neg_1_bounds as [Hlo Hhi].
  set (e := exp (-1)) in *.
  assert (Ha : / 4 <= e / (e + 1) < / 2).
  { split.
    - apply Rmult_le_reg_r with (e + 1); [lra|].
      unfold Rdiv. rewrite Rmult_assoc, Rinv_l by lra. lra.
    - apply Rmult_lt_reg_r with (e + 1); [lra|].
      unfold Rdiv. rewrite Rmult_assoc, Rinv_l by lra. lra. }
  assert (Hb : 1 / (e + 1) = 1 - e / (e + 1)) by (field; lra).
  rewrite Hb. set (a := e / (e + 1)) in *.
  rdec.
  pose proof ln_lt_2.
  change (1 + 1) with (INR 2). replace (INR 2) with 2 by (simpl; lra).
  destruct (Rlt_dec 0 (ln 2)); [|lra].
  apply Rmult_lt_reg_r with (ln 2); [lra|].
  unfold Rdiv. rewrite Rmult_assoc, Rinv_l by lra.
  pose proof (binary_entropy_lt a (1 - a)
                ltac:(lra) ltac:(lra) ltac:(lra) ltac:(lra)).
  lra.
Qed.

(** ** The inertia floor and the sign of the heat *)

(** A loop that rewrites one position per round keeps what every rewrite
    keeps. *)
Lemma fold_vupd_Forall (P : R -> Prop) (f : R -> R) (pos : nat -> nat)
    (l : list nat) (ks : list R) :
  (forall x, P x -> P (f x)) -> Forall P ks ->
  Forall P (fold_left (fun ks i => vupd (pos i) f ks) l ks).
Proof.
  intros Hf. revert ks.
  induction l as [|i l IH]; intros ks Hks; simpl; [exact Hks|].
  apply IH. apply Forall_vupd; assumption.
Qed.

Lemma fold_vupd_length (f : R -> R) (pos : nat -> nat) (l : list nat)
    (ks : list R) :
  length (fold_left (fun ks i => vupd (pos i) f ks) l ks) = length ks.
Proof.
  revert ks. induction l as [|i l IH]; intros ks; simpl; [reflexivity|].
  rewrite IH. apply length_vupd.
Qed.

(** RelaxTop is inside its index vector for every [q_relax] from [0] to
    [1], the documented range, on a handle with at least one node. *)
Lemma relax_in_bounds_unit (prm : SSDParams) (n : nat) :
  0 <= q_relax prm <= 1 -> (1 <= n)%nat -> relax_in_bounds prm n.
Proof.
  intros Hq Hn. unfold relax_in_bounds, relax_count_of.
  assert (HM : (1 <= n * n)%nat) by nia.
  set (M := (n * n)%nat) in *.
  assert (HMr : 1 <= INR M) by (change 1 with (INR 1); apply le_INR; exact HM).
  assert (Hround : (0 <= std_round (q_relax prm * INR M) <= Z.of_nat M)%Z).
  { unfold std_round.
    destruct (Rle_dec 0 (q_relax prm * INR M)) as [Hpos|Hneg]; [|nra].
    pose proof (Zfloor_bound (q_relax prm * INR M + / 2)) as [Hlo Hhi].
    assert (Hlt : IZR (Zfloor (q_relax prm * INR M + / 2))
                  < IZR (Z.of_nat M + 1)).
    { rewrite plus_IZR, <- INR_IZR_INZ. nra. }
    assert (Hgt : IZR (-1) < IZR (Zfloor (q_relax prm * INR M + / 2)))
      by (simpl; lra).
    apply lt_IZR in Hlt. apply lt_IZR in Hgt. lia. }
  lia.
Qed.

Section Invariants.
Context {G : Type} {RT : StdRuntime G}.

Lemma update_kappa_floor (prm : SSDParams) (p dt : R) (ks j : list R) :
  Forall (fun k => kappa_min prm <= k) (Core.update_kappa prm p dt ks j).
Proof.
  unfold Core.update_kappa. apply Forall_forall. intros x Hx.
  apply in_map_iff in Hx. destruct Hx as ([k ji] & <- & _).
  unfold Core.update_edge. apply std_max_ge_r.
Qed.

Lemma update_heat_nonneg (prm : SSDParams) (p J_norm dt E : R) :
  0 <= Core.update_heat prm p J_norm dt E.
Proof. unfold Core.update_heat. apply std_max_ge_r. Qed.

Lemma relax_top_floor (prm : SSDParams) (n : nat) (j ks : list R) :
  Forall (fun k => kappa_min prm <= k) ks ->
  Forall (fun k => kappa_min prm <= k) (Core.relax_top prm n j ks).
Proof.
  intros Hks. unfold Core.relax_top.
  apply (fold_vupd_Forall (fun k => kappa_min prm <= k)); [|exact Hks].
  intros x _. apply std_max_ge_r.
Qed.

Lemma jump_branch_floor (h : SSDHandle G) (j : list R) :
  0 <= delta_kappa (prm h) ->
  Forall (fun k => kappa_min (prm h) <= k) (kappa h) ->
  Forall (fun k => kappa_min (prm h) <= k) (kappa (Core.jump_branch h j)).
Proof.
  intros Hdelta Hks. unfold Core.jump_branch.
  destruct (build_logits _ _ _ _ _ _) as [logits s].
  destruct (uni01 s) as [r s1]. simpl.
  apply relax_top_floor. apply Forall_vupd; [|exact Hks].
  intros x Hx. lra.
Qed.

Lemma jump_branch_E (h : SSDHandle G) (j : list R) :
  E (Core.jump_branch h j) = E h * c0_cool (prm h).
Proof.
  unfold Core.jump_branch.
  destruct (build_logits _ _ _ _ _ _) as [logits s].
  destruct (uni01 s) as [r s1]. reflexivity.
Qed.

(** What [explore] leaves of a handle: everything but the generator, and one
    edge out of the current node that may have gained [0.05]. *)
Lemma explore_cases (h : SSDHandle G) (kappa_mean : R) :
  let h' := explore h kappa_mean in
  N h' = N h /\ current h' = current h /\ E h' = E h /\ F h' = F h /\
  T h' = T h /\ pi h' = pi h /\ prm h' = prm h /\
  ((kappa h' = kappa h /\ w h' = w h) \/
   exists k, k <> current h /\ (k < N h \/ N h = O)%nat /\
     kappa h' = vupd (idx (current h) k (N h)) (fun x => x + 0.05) (kappa h) /\
     w h' = vupd (idx (current h) k (N h)) (fun x => x + 0.05) (w h)).
Proof.
  unfold explore.
  destruct (uni01 (rng h)) as [u s].
  destruct (Rlt_dec u _) as [Hu|Hu]; [|simpl; tauto].
  pose proof (uni01_range s) as Hv.
  destruct (uni01 s) as [v s1]. simpl in Hv.
  set (k0 := Z.to_nat (Zfloor (v * INR (N h)))).
  assert (Hk0 : (k0 < N h \/ N h = O)%nat).
  { destruct (N h) as [|n] eqn:HN; [right; reflexivity|left].
    assert (Hpos : 0 < INR (S n)) by (apply lt_0_INR; lia).
    pose proof (Zfloor_bound (v * INR (S n))) as [Hlo Hhi].
    assert (Hlt : IZR (Zfloor (v * INR (S n))) < IZR (Z.of_nat (S n))).
    { rewrite <- INR_IZR_INZ. nra. }
    apply lt_IZR in Hlt. subst k0. lia. }
  destruct (Nat.eqb k0 (N h)) eqn:Hkn.
  - apply Nat.eqb_eq in Hkn.
    destruct (Nat.eqb (N h - 1) (current h)) eqn:Hkc; simpl; [tauto|].
    apply Nat.eqb_neq in Hkc.
    repeat (split; [reflexivity|]). right. exists (N h - 1)%nat.
    repeat split; auto. lia.
  - destruct (Nat.eqb k0 (current h)) eqn:Hkc; simpl; [tauto|].
    apply Nat.eqb_neq in Hkc.
    repeat (split; [reflexivity|]). right. exists k0.
    repeat split; auto.
Qed.

Lemma no_jump_branch_floor (h : SSDHandle G) (kappa_mean : R) :
  Forall (fun k => kappa_min (prm h) <= k) (kappa h) ->
  Forall (fun k => kappa_min (prm h) <= k)
    (kappa (Core.no_jump_branch h kappa_mean)).
Proof.
  intros Hks. unfold Core.no_jump_branch. simpl.
  destruct (explore_cases h kappa_mean)
    as (_ & _ & _ & _ & _ & _ & _ & [[-> _]|(k & _ & _ & -> & _)]);
    [exact Hks|].
  apply Forall_vupd; [|exact Hks]. intros x Hx. lra.
Qed.

Lemma no_jump_branch_E (h : SSDHandle G) (kappa_mean : R) :
  E (Core.no_jump_branch h kappa_mean) = E h.
Proof.
  unfold Core.no_jump_branch. simpl.
  apply (explore_cases h kappa_mean).
Qed.

(** C1, as the code has it.  After [ssd_step] on a handle that is not null,
    every entry of the inertia matrix is at least [kappa_min] and the heat is
    not negative, provided [delta_kappa] and [c0_cool] are not negative and
    [q_relax] keeps RelaxTop inside its index vector ([relax_in_bounds]:
    [relax_count <= N * N]; beyond it a call that jumps has no defined
    behaviour).  Nothing is asked of the state before the call, of the other
    parameters, of the drive or of [dt]. *)
Theorem ssd_step_floor_and_heat (h h' : SSDHandle G) (p dt : R)
    (out out' : option SSDTelemetry) :
  0 <= delta_kappa (prm h) -> 0 <= c0_cool (prm h) ->
  relax_in_bounds (prm h) (N h) ->
  Core.ssd_step (Some h) p dt out = (Some h', out') ->
  Forall (fun k => kappa_min (prm h) <= k) (kappa h') /\ 0 <= E h'.
Proof.
  intros Hdelta Hcool _ Hstep.
  apply ssd_step_some in Hstep. destruct Hstep as [-> _].
  open_step h p dt j s u s1 Hflow Hu Hjump; cbn [fst].
  - split.
    + match goal with
      | |- context [Core.jump_branch ?h4 j] =>
          apply (jump_branch_floor h4 j); cbn [prm kappa]; [exact Hdelta|]
      end.
      apply update_kappa_floor.
    + rewrite jump_branch_E. cbn [E prm].
      apply Rmult_le_pos; [apply update_heat_nonneg|exact Hcool].
  - split.
    + match goal with
      | |- context [Core.no_jump_branch ?h4 ?km] =>
          apply (no_jump_branch_floor h4 km); cbn [prm kappa]
      end.
      apply update_kappa_floor.
    + rewrite no_jump_branch_E. cbn [E]. apply update_heat_nonneg.
Qed.

End Invariants.

(** ** Calls through the pointers *)

Section Calls.
Context {G : Type} {RT : StdRuntime G}.

Lemma ssd_step_run (h : SSDHandle G) (p dt : R) (out : option SSDTelemetry) :
  Core.ssd_step (Some h) p dt out =
  (Some (fst (Core.step h p dt)),
   match out with Some _ => Some (snd (Core.step h p dt)) | None => None end).
Proof.
  unfold Core.ssd_step. destruct (Core.step h p dt) as [h1 t1]. reflexivity.
Qed.

(** C9, as the code has it.  [ssd_step] on a null handle returns at once: the
    handle stays null and the caller's telemetry record, if any, is left
    exactly as it was; no field is written. *)
Theorem ssd_step_null_handle_untouched (p dt : R)
    (out : option SSDTelemetry) :
  Core.ssd_step (G := G) None p dt out = (None, out).
Proof. reflexivity. Qed.

End Calls.

(** C9 as stated fails: a record that holds [stale_telemetry] before the call
    on a null handle still holds it afterwards, and none of its fields is
    zero. *)
Lemma ssd_step_null_handle_not_zeroed :
  exists t,
    Core.ssd_step (G := Tape) None 1 1 (Some stale_telemetry)
      = (None, Some t) /\
    out_E t <> 0 /\ out_did_jump t <> 0%Z /\ t <> zero_telemetry.
Proof.
  exists stale_telemetry. split; [reflexivity|].
  split; [simpl; lra|]. split; [discriminate|].
  intros Heq. apply (f_equal out_current) in Heq. discriminate.
Qed.

Lemma ssd_step_dt_0_no_jump_witness :
  Core.ssd_step (Some jump_handle) 1 0 (Some stale_telemetry) =
    (Some (fst (Core.step jump_handle 1 0)),
     Some (snd (Core.step jump_handle 1 0))) /\
  out_did_jump (snd (Core.step jump_handle 1 0)) = 0%Z.
Proof.
  split; [exact (ssd_step_run jump_handle 1 0 (Some stale_telemetry))|].
  exact (ssd_step_dt_0_no_jump jump_handle (fst (Core.step jump_handle 1 0))
           1 stale_telemetry (snd (Core.step jump_handle 1 0))
           (ssd_step_run jump_handle 1 0 (Some stale_telemetry))).
Defined.

Lemma jump_ssd_step (out : SSDTelemetry) :
  Core.ssd_step (Some jump_handle) 1 1 (Some out) =
  (Some jump_post, Some jump_telemetry).
Proof. rewrite ssd_step_run, jump_step. reflexivity. Qed.

Lemma ssd_step_jump_policy_distribution_witness :
  (1 <= N jump_handle)%nat /\
  Core.ssd_step (Some jump_handle) 1 1 (Some stale_telemetry) =
    (Some jump_post, Some jump_telemetry) /\
  out_did_jump jump_telemetry = 1%Z /\
  Forall (fun x => 0 <= x) (pi jump_post) /\ vsum (pi jump_post) = 1.
Proof.
  assert (HN : (1 <= N jump_handle)%nat) by (simpl; lia).
  assert (Hjump : out_did_jump jump_telemetry = 1%Z) by reflexivity.
  split; [exact HN|]. split; [apply jump_ssd_step|]. split; [exact Hjump|].
  exact (ssd_step_jump_policy_distribution jump_handle jump_post 1 1
           stale_telemetry jump_telemetry HN (jump_ssd_step stale_telemetry)
           Hjump).
Defined.

Lemma ssd_step_floor_and_heat_witness :
  0 <= delta_kappa (prm (new_handle (G := Tape) 2 default_params 1)) /\
  0 <= c0_cool (prm (new_handle (G := Tape) 2 default_params 1)) /\
  relax_in_bounds (prm (new_handle (G := Tape) 2 default_params 1))
    (N (new_handle (G := Tape) 2 default_params 1)) /\
  Forall (fun k => kappa_min default_params <= k)
    (kappa (fst (Core.step (new_handle (G := Tape) 2 default_params 1) 1 1))) /\
  0 <= E (fst (Core.step (new_handle (G := Tape) 2 default_params 1) 1 1)).
Proof.
  assert (Hd : 0 <= delta_kappa
                      (prm (new_handle (G := Tape) 2 default_params 1)))
    by (simpl; lra).
  assert (Hc : 0 <= c0_cool (prm (new_handle (G := Tape) 2 default_params 1)))
    by (simpl; lra).
  assert (Hq : relax_in_bounds
                 (prm (new_handle (G := Tape) 2 default_params 1))
                 (N (new_handle (G := Tape) 2 default_params 1)))
    by (apply relax_in_bounds_unit; simpl; [lra|lia]).
  split; [exact Hd|]. split; [exact Hc|]. split; [exact Hq|].
  exact (ssd_step_floor_and_heat (new_handle 2 default_params 1) _ 1 1 None None
           Hd Hc Hq (ssd_step_run _ 1 1 None)).
Defined.

(** C1 as stated fails.  On [jump_handle], with [delta_kappa = -1] and
    [c0_cool = -1], the jump branch rewires edge [(0,0)] from [0] to [-1],
    below [kappa_min = 0], RelaxTop floors edge [(1,1)] only, and the heat
    goes from [1] to [-1].  [q_relax = 0] keeps RelaxTop to one edge, inside
    the index vector. *)
Lemma ssd_step_floor_and_heat_fail :
  exists h',
    handle_wf jump_handle /\
    relax_in_bounds (prm jump_handle) (N jump_handle) /\
    Core.ssd_step (Some jump_handle) 1 1 None = (Some h', None) /\
    kappa h' = [-1; 0; 0; 1] /\ E h' = -1 /\
    ~ Forall (fun k => kappa_min (prm jump_handle) <= k) (kappa h') /\
    ~ 0 <= E h'.
Proof.
  exists jump_post.
  split; [unfold handle_wf; simpl; lia|].
  split; [exact jump_relax_in_bounds|].
  split; [rewrite ssd_step_run, jump_step; reflexivity|].
  split; [reflexivity|]. split; [reflexivity|]. split.
  - intros Hall. inversion Hall as [|x l Hx _]. simpl in Hx. lra.
  - simpl. lra.
Qed.


(** ** Phases 1 and 2 on a fresh handle *)

Section FreshHandle.
Context {G : Type} {RT : StdRuntime G}.

Lemma align_flow_no_noise (params : SSDParams) (p : R) (ks : list R) (s : G) :
  ~ 0 < eps_noise params ->
  align_flow params p ks s =
  (map (fun k => (G0 params + g params * k) * p) ks, s).
Proof.
  intros Hnoise. induction ks as [|k ks IH]; simpl; [reflexivity|].
  destruct (Rlt_dec 0 (eps_noise params)); [contradiction|].
  rewrite IH. reflexivity.
Qed.

Lemma align_flow_length (params : SSDParams) (p : R) (ks : list R) (s : G) :
  length (fst (align_flow params p ks s)) = length ks.
Proof.
  revert s. induction ks as [|k ks IH]; intros s; simpl; [reflexivity|].
  destruct (Rlt_dec 0 (eps_noise params)).
  - destruct (norm01 s) as [z s1]. specialize (IH s1).
    destruct (align_flow params p ks s1). simpl in *. congruence.
  - specialize (IH s).
    destruct (align_flow params p ks s). simpl in *. congruence.
Qed.

Lemma step_J_norm (h : SSDHandle G) (p dt : R) :
  out_J_norm (snd (Core.step h p dt)) =
  flow_norm (fst (align_flow (prm h) p (kappa h) (rng h))).
Proof.
  unfold Core.step.
  destruct (align_flow (prm h) p (kappa h) (rng h)) as [j s].
  destruct (uni01 s) as [u s1]. reflexivity.
Qed.

Lemma ssd_create_some (n : Z) (params : option SSDParams) (seed : Z)
    (h : SSDHandle G) :
  Core.ssd_create n params seed = Some h ->
  (0 < n)%Z /\ constructs n = true /\
  h = new_handle n
        (match params with Some p => p | None => default_params end)
        (if (seed =? 0)%Z then 123456789%Z else seed).
Proof.
  unfold Core.ssd_create. destruct (n <=? 0)%Z eqn:Hn; [discriminate|].
  destruct (constructs n) eqn:Hc; [|discriminate].
  intros Heq. inversion Heq. split; [lia|]. split; reflexivity.
Qed.

(** Up to 46340 nodes the product [n * n] fits an [int]. *)
Lemma int32_square (n : Z) :
  (0 <= n <= 46340)%Z -> int32 (n * n) = (n * n)%Z.
Proof.
  intros Hn. unfold int32.
  rewrite Z.mod_small by nia. lia.
Qed.

(** The handle that the constructor builds from a node count that fits:
    two [N * N] matrices of zeros and the uniform policy [1 / N]. *)
Lemma new_handle_fits (n : Z) (params : SSDParams) (seed : Z) :
  (0 < n <= 46340)%Z ->
  new_handle n params seed =
  {| N := Z.to_nat n; current := 0;
     kappa := repeat 0 (Z.to_nat n * Z.to_nat n);
     w := repeat 0 (Z.to_nat n * Z.to_nat n);
     E := 0; F := 0; T := T0 params;
     pi := repeat (1 / INR (Z.to_nat n)) (Z.to_nat n);
     prm := params; rng := mt19937_64 seed |}.
Proof.
  intros Hn. unfold new_handle.
  rewrite int32_square by lia.
  rewrite Z2Nat.inj_mul by lia.
  rewrite Z.max_r by lia.
  rewrite INR_IZR_INZ, Z2Nat.id by lia. reflexivity.
Qed.

(** C8.  On a fresh handle with three nodes, and parameters [G0 = 0.5],
    [g = 0], [eta = 0.3], [rho = 0], [lam = 0], [kappa_min = 0],
    [eps_noise = 0], a step with drive [1.0] and [dt = 1.0] computes a flow of
    [0.5] on each of the nine edges and the flow norm [1.5], and phase 2
    leaves an inertia of [0.15] on each of the nine edges.  This is what the
    step itself does: the telemetry it writes holds [J_norm = 1.5] and the
    mean inertia [0.15] taken right after phase 2, and the handle it returns
    is the result of the jump branch or of the no-jump branch, whichever the
    jump draw selects, run on the state whose inertia is [0.15] everywhere
    with the flow [0.5] everywhere (for a [q_relax] that keeps RelaxTop
    inside its index vector). *)
Theorem fresh_three_nodes_phase_1_2 (params : SSDParams) (seed : Z)
    (h : SSDHandle G) :
  G0 params = 0.5 -> g params = 0 -> eta params = 0.3 -> rho params = 0 ->
  lam params = 0 -> kappa_min params = 0 -> eps_noise params = 0 ->
  Core.ssd_create 3 (Some params) seed = Some h ->
  kappa h = repeat 0 9 /\
  fst (align_flow (prm h) 1 (kappa h) (rng h)) = repeat 0.5 9 /\
  flow_norm (fst (align_flow (prm h) 1 (kappa h) (rng h))) = 1.5 /\
  Core.update_kappa (prm h) 1 1 (kappa h)
    (fst (align_flow (prm h) 1 (kappa h) (rng h))) = repeat 0.15 9 /\
  kappa (decision_state h 1 1) = repeat 0.15 9 /\
  out_J_norm (snd (Core.step h 1 1)) = 1.5 /\
  out_kappa_mean (snd (Core.step h 1 1)) = 0.15 /\
  out_did_jump (snd (Core.step h 1 1)) =
    (if Rlt_dec (jump_draw h 1) (decision_probability h 1 1)
     then 1%Z else 0%Z) /\
  (relax_in_bounds params 3 ->
   fst (Core.step h 1 1) =
     (if Rlt_dec (jump_draw h 1) (decision_probability h 1 1)
      then Core.jump_branch (decision_state h 1 1) (repeat 0.5 9)
      else Core.no_jump_branch (decision_state h 1 1) 0.15)).
Proof.
  intros HG0 Hg Heta Hrho Hlam Hmin Hnoise Hcreate.
  apply ssd_create_some in Hcreate. destruct Hcreate as (_ & _ & ->).
  set (seed' := if (seed =? 0)%Z then 123456789%Z else seed).
  assert (Hflow :
    fst (align_flow params 1 (repeat 0 9) (mt19937_64 seed'))
    = repeat 0.5 9).
  { rewrite align_flow_no_noise by lra. simpl.
    rewrite HG0, Hg. repeat f_equal; lra. }
  assert (Hnorm : flow_norm (repeat 0.5 9) = 1.5).
  { unfold flow_norm. simpl.
    replace (0 + 0.5 * 0.5 + 0.5 * 0.5 + 0.5 * 0.5 + 0.5 * 0.5 + 0.5 * 0.5
             + 0.5 * 0.5 + 0.5 * 0.5 + 0.5 * 0.5 + 0.5 * 0.5)
      with (1.5 * 1.5) by lra.
    apply sqrt_square. lra. }
  assert (Hupd :
    Core.update_kappa params 1 1 (repeat 0 9) (repeat 0.5 9)
    = repeat 0.15 9).
  { unfold Core.update_kappa, Core.update_edge, std_max. simpl.
    rewrite Heta, Hrho, Hlam, Hmin. rdec.
    repeat f_equal; lra. }
  assert (Hmean : mean_kappa 3 (repeat 0.15 9) = 0.15).
  { unfold mean_kappa, vsum. simpl. lra. }
  assert (Hphase : phase_flow (new_handle 3 params seed') 1 = repeat 0.5 9)
    by exact Hflow.
  assert (Hstate :
    kappa (decision_state (new_handle 3 params seed') 1 1) = repeat 0.15 9).
  { unfold decision_state. cbn [kappa]. rewrite Hphase. exact Hupd. }
  change (prm (new_handle 3 params seed')) with params.
  change (kappa (new_handle 3 params seed')) with (repeat 0 9).
  change (rng (new_handle 3 params seed')) with (mt19937_64 seed').
  rewrite Hflow, Hupd, Hnorm.
  split; [reflexivity|]. split; [reflexivity|]. split; [reflexivity|].
  split; [reflexivity|]. split; [exact Hstate|].
  rewrite step_decision. cbv zeta. cbn [fst snd out_J_norm out_kappa_mean
                                        out_did_jump].
  rewrite Hphase, Hstate, Hnorm.
  change (N (new_handle 3 params seed')) with 3%nat.
  rewrite Hmean.
  split; [reflexivity|]. split; [reflexivity|].
  destruct (Rlt_dec (jump_draw (new_handle 3 params seed') 1)
              (decision_probability (new_handle 3 params seed') 1 1));
    split; try reflexivity; intros _; reflexivity.
Qed.

End FreshHandle.

Lemma fresh_three_nodes_phase_1_2_witness :
  G0 default_scenario = 0.5 /\ g default_scenario = 0 /\
  eta default_scenario = 0.3 /\ rho default_scenario = 0 /\
  lam default_scenario = 0 /\ kappa_min default_scenario = 0 /\
  eps_noise default_scenario = 0 /\
  Core.ssd_create (G := Tape) 3 (Some default_scenario) 42
    = Some (new_handle 3 default_scenario 42) /\
  kappa (decision_state (new_handle (G := Tape) 3 default_scenario 42) 1 1)
    = repeat 0.15 9 /\
  out_J_norm
    (snd (Core.step (new_handle (G := Tape) 3 default_scenario 42) 1 1))
    = 1.5 /\
  out_kappa_mean
    (snd (Core.step (new_handle (G := Tape) 3 default_scenario 42) 1 1))
    = 0.15 /\
  relax_in_bounds default_scenario 3 /\
  fst (Core.step (new_handle (G := Tape) 3 default_scenario 42) 1 1) =
    (if Rlt_dec (jump_draw (new_handle (G := Tape) 3 default_scenario 42) 1)
          (decision_probability
             (new_handle (G := Tape) 3 default_scenario 42) 1 1)
     then Core.jump_branch
            (decision_state (new_handle (G := Tape) 3 default_scenario 42)
               1 1)
            (repeat 0.5 9)
     else Core.no_jump_branch
            (decision_state (new_handle (G := Tape) 3 default_scenario 42)
               1 1)
            0.15).
Proof.
  pose proof (fresh_three_nodes_phase_1_2 (G := Tape) default_scenario 42
                (new_handle 3 default_scenario 42)
                eq_refl eq_refl eq_refl eq_refl eq_refl eq_refl eq_refl eq_refl)
    as (_ & _ & _ & _ & Hk & HJ & Hm & _ & Hpost).
  assert (Hin : relax_in_bounds default_scenario 3)
    by (apply relax_in_bounds_unit; simpl; [lra|lia]).
  repeat (split; [reflexivity|]).
  split; [exact Hk|]. split; [exact HJ|]. split; [exact Hm|].
  split; [exact Hin|exact (Hpost Hin)].
Defined.

(** ** The two implementations of the step *)

Section TwoImplementations.
Context {G : Type} {RT : StdRuntime G}.

Lemma maxv_scan (rest pre : list R) (a : R) :
  fold_left
    (fun maxv i =>
       if Rlt_dec maxv (vget (pre ++ rest) i) then
         (if Nat.eqb i i then vget (pre ++ rest) i else maxv)
       else maxv)
    (seq (length pre) (length rest)) a
  = fold_left (fun m x => if Rlt_dec m x then x else m) rest a.
Proof.
  revert pre a. induction rest as [|x rest IH]; intros pre a; [reflexivity|].
  cbn [length seq fold_left].
  rewrite Nat.eqb_refl.
  assert (Hx : vget (pre ++ x :: rest) (length pre) = x)
    by (unfold vget; apply nth_middle).
  rewrite Hx.
  specialize (IH (pre ++ [x])).
  rewrite <- app_assoc, length_app in IH. cbn [app length] in IH.
  rewrite Nat.add_1_r in IH. apply IH.
Qed.

Lemma maxv_loop_max_element (l0 : R) (rest : list R) :
  AlignLeap.maxv_loop (l0 :: rest) = Core.max_element l0 rest.
Proof.
  unfold AlignLeap.maxv_loop, Core.max_element.
  replace (length (l0 :: rest) - 1)%nat with (length rest) by (simpl; lia).
  change (vget (l0 :: rest) 0) with l0.
  apply (maxv_scan rest [l0] l0).
Qed.

Lemma softmax_temp_same (logits : list R) (T : R) :
  AlignLeap.softmax_temp logits T = Core.softmax_temp logits T.
Proof.
  unfold AlignLeap.softmax_temp, Core.softmax_temp.
  destruct logits as [|l0 rest]; [reflexivity|].
  rewrite maxv_loop_max_element. reflexivity.
Qed.

Lemma update_kappa_same (params : SSDParams) (p dt : R) (ks j : list R) :
  AlignLeap.update_kappa params p dt ks j = Core.update_kappa params p dt ks j.
Proof.
  unfold AlignLeap.update_kappa, Core.update_kappa.
  apply map_ext. intros [k ji]. reflexivity.
Qed.

Lemma update_heat_same (params : SSDParams) (p J_norm dt E : R) :
  AlignLeap.update_heat params p J_norm dt E
  = Core.update_heat params p J_norm dt E.
Proof. reflexivity. Qed.

Lemma relax_top_same (params : SSDParams) (n : nat) (j ks : list R) :
  AlignLeap.relax_top params n j ks = Core.relax_top params n j ks.
Proof. reflexivity. Qed.

Lemma jump_branch_same (h : SSDHandle G) (j : list R) :
  AlignLeap.jump_branch h j = Core.jump_branch h j.
Proof.
  unfold AlignLeap.jump_branch, Core.jump_branch.
  destruct (build_logits _ _ _ _ _ _) as [logits s].
  rewrite softmax_temp_same.
  destruct (uni01 s) as [r s1]. rewrite relax_top_same. reflexivity.
Qed.

Lemma no_jump_branch_pi (h : SSDHandle G) (kappa_mean : R) :
  pi (Core.no_jump_branch h kappa_mean) = pi h.
Proof.
  unfold Core.no_jump_branch. simpl. apply (explore_cases h kappa_mean).
Qed.

(** The step of [ssd_align_leap_dll.cpp] in terms of the step of
    [ssd_core.cpp]: the same handle, and the same telemetry but for [H], which
    is taken from the policy after the step. *)
Lemma align_leap_step (h : SSDHandle G) (p dt : R) :
  AlignLeap.step h p dt =
  (fst (Core.step h p dt),
   with_H (snd (Core.step h p dt))
     (policy_entropy_of (pi (fst (Core.step h p dt))))).
Proof.
  unfold AlignLeap.step, Core.step.
  destruct (align_flow (prm h) p (kappa h) (rng h)) as [j s].
  destruct (uni01 s) as [u s1].
  cbv beta iota zeta.
  rewrite update_kappa_same, update_heat_same.
  destruct (Rlt_dec u _) as [Hjump|Hjump].
  - rewrite jump_branch_same. reflexivity.
  - reflexivity.
Qed.

Lemma step_H (h : SSDHandle G) (p dt : R) :
  out_H (snd (Core.step h p dt)) = policy_entropy_of (pi h).
Proof.
  unfold Core.step.
  destruct (align_flow (prm h) p (kappa h) (rng h)) as [j s].
  destruct (uni01 s) as [u s1]. reflexivity.
Qed.

Lemma step_no_jump_pi (h : SSDHandle G) (p dt : R) :
  out_did_jump (snd (Core.step h p dt)) = 0%Z ->
  pi (fst (Core.step h p dt)) = pi h.
Proof.
  open_step h p dt j s u s1 Hflow Hu Hjump; cbn [fst snd out_did_jump].
  - discriminate.
  - intros _. rewrite no_jump_branch_pi. reflexivity.
Qed.

Lemma with_H_same (t : SSDTelemetry) : with_H t (out_H t) = t.
Proof. destruct t. reflexivity. Qed.

(** C10, as the code has it.  From the same handle state and the same
    [(drive, dt)], [ssd_step] of [ssd_core.cpp] and [ssd_step] of
    [ssd_align_leap_dll.cpp] leave the same handle and write the same
    telemetry in every field but [H]: the first reports the entropy of the
    policy held before the step, the second the entropy of the policy held
    after it.  The two records are equal whenever the step does not jump, and
    the two calls agree on a null handle and on a null [out]. *)
Theorem align_leap_agrees_except_H (h : SSDHandle G) (p dt : R)
    (buf : SSDTelemetry) :
  exists h' t,
    Core.ssd_step (Some h) p dt (Some buf) = (Some h', Some t) /\
    AlignLeap.ssd_step (Some h) p dt (Some buf)
      = (Some h', Some (with_H t (policy_entropy_of (pi h')))) /\
    out_H t = policy_entropy_of (pi h) /\
    (out_did_jump t = 0%Z -> with_H t (policy_entropy_of (pi h')) = t) /\
    Core.ssd_step (Some h) p dt None = (Some h', None) /\
    AlignLeap.ssd_step (Some h) p dt None = (Some h', None) /\
    (forall out : option SSDTelemetry,
       AlignLeap.ssd_step (G := G) None p dt out = Core.ssd_step None p dt out).
Proof.
  exists (fst (Core.step h p dt)), (snd (Core.step h p dt)).
  split; [exact (ssd_step_run h p dt (Some buf))|].
  split; [unfold AlignLeap.ssd_step; rewrite align_leap_step; reflexivity|].
  split; [apply step_H|].
  split.
  - intros Hno. rewrite (step_no_jump_pi h p dt Hno), <- (step_H h p dt).
    apply with_H_same.
  - split; [exact (ssd_step_run h p dt None)|].
    split; [unfold AlignLeap.ssd_step; rewrite align_leap_step; reflexivity|].
    reflexivity.
Qed.

End TwoImplementations.

(** C10 as stated fails.  On [jump_handle] the two implementations leave the
    same handle, but the [H] they report differs: [ssd_core.cpp] reports the
    entropy [1] of the uniform policy held before the jump,
    [ssd_align_leap_dll.cpp] the entropy, below [1], of the policy the jump
    has just computed. *)
Lemma align_leap_H_differs :
  exists h' t1 t2,
    Core.ssd_step (Some jump_handle) 1 1 (Some stale_telemetry)
      = (Some h', Some t1) /\
    AlignLeap.ssd_step (Some jump_handle) 1 1 (Some stale_telemetry)
      = (Some h', Some t2) /\
    out_H t1 = 1 /\ out_H t2 < 1 /\ t1 <> t2.
Proof.
  exists jump_post, jump_telemetry,
    (with_H jump_telemetry (policy_entropy_of jump_pi)).
  split; [apply jump_ssd_step|].
  split.
  { unfold AlignLeap.ssd_step. rewrite align_leap_step, jump_step.
    reflexivity. }
  split; [apply entropy_uniform_2|].
  assert (Hlt : out_H (with_H jump_telemetry (policy_entropy_of jump_pi)) < 1)
    by apply entropy_jump_pi.
  split; [exact Hlt|].
  intros Heq. rewrite <- Heq in Hlt.
  change (out_H jump_telemetry) with (entropy_norm [/ 2; / 2]) in Hlt.
  rewrite entropy_uniform_2 in Hlt. lra.
Qed.

(** ** A call with no drive and no time *)

Section Idle.
Context {G : Type} {RT : StdRuntime G}.

Lemma update_kappa_dt_0 (params : SSDParams) (p : R) (ks j : list R) :
  length j = length ks ->
  Forall (fun k => kappa_min params <= k) ks ->
  Core.update_kappa params p 0 ks j = ks.
Proof.
  unfold Core.update_kappa. intros Hlen Hks. revert j Hlen.
  induction Hks as [|k ks Hk Hks IH]; intros [|ji j] Hlen;
    simpl in *; try reflexivity; try discriminate.
  f_equal.
  - rewrite Rmult_0_r, Rplus_0_r. apply std_max_left. exact Hk.
  - apply IH. congruence.
Qed.

Lemma update_heat_dt_0 (params : SSDParams) (p J_norm E : R) :
  0 <= E -> Core.update_heat params p J_norm 0 E = E.
Proof.
  intros HE. unfold Core.update_heat.
  rewrite Rmult_0_r, Rplus_0_r. apply std_max_left. exact HE.
Qed.

(** What a step with [dt = 0] does to a handle whose inertia respects the
    floor and whose heat is not negative: phases 2 and 3 change nothing, the
    jump test fails, and the no-jump branch runs on the state as it was. *)
Lemma step_idle (h : SSDHandle G) (p : R) :
  Forall (fun k => kappa_min (prm h) <= k) (kappa h) -> 0 <= E h ->
  exists s T4,
    fst (Core.step h p 0) =
      Core.no_jump_branch
        {| N := N h; current := current h; kappa := kappa h; w := w h;
           E := E h; F := F h; T := T4; pi := pi h; prm := prm h; rng := s |}
        (mean_kappa (N h) (kappa h)) /\
    out_did_jump (snd (Core.step h p 0)) = 0%Z.
Proof.
  intros Hks HE.
  pose proof (align_flow_length (prm h) p (kappa h) (rng h)) as Hlen.
  open_step h p 0 j s u s1 Hflow Hu Hjump; cbn [fst snd out_did_jump].
  - exfalso. rewrite jump_probability_dt_0 in Hjump.
    pose proof (uni01_range s) as Hrange. rewrite Hu in Hrange.
    simpl in Hrange. lra.
  - simpl in Hlen.
    rewrite (update_kappa_dt_0 _ _ _ _ Hlen Hks), (update_heat_dt_0 _ _ _ _ HE).
    eexists _, _. split; reflexivity.
Qed.

Lemma decision_state_dt_0 (h : SSDHandle G) (p : R) :
  Forall (fun k => kappa_min (prm h) <= k) (kappa h) -> 0 <= E h ->
  kappa (decision_state h p 0) = kappa h /\ E (decision_state h p 0) = E h.
Proof.
  intros Hks HE. unfold decision_state, phase_flow. cbn [kappa E].
  pose proof (align_flow_length (prm h) p (kappa h) (rng h)) as Hlen.
  split.
  - apply update_kappa_dt_0; assumption.
  - apply update_heat_dt_0. exact HE.
Qed.

(** C2, as the code has it.  A call with [drive = 0] and [dt = 0] on a
    handle whose inertia entries are at least [kappa_min] and whose heat is
    not negative takes no jump and leaves the heat unchanged.  The inertia
    matrix is unchanged unless the exploration fires: the uniform draw that
    follows the jump draw is below
    [eps = clip(eps0 + d1 * E - d2 * kappa_mean, 0, 1)] and the target [k]
    computed from the next draw is not the current node; then exactly the
    edge from the current node to [k] gains [0.05], and [k] is a node.  It
    is unchanged for sure when [eps0 + d1 * E - d2 * kappa_mean <= 0].  The
    current node is not kept: it is replaced by the target of the strongest
    edge of its row, the self loop counted [1e-6] lower. *)
Theorem ssd_step_idle (h h' : SSDHandle G) (out out' : option SSDTelemetry) :
  Forall (fun k => kappa_min (prm h) <= k) (kappa h) -> 0 <= E h ->
  Core.ssd_step (Some h) 0 0 out = (Some h', out') ->
  let h4 := decision_state h 0 0 in
  let eps :=
    clip (eps0 (prm h) + d1 (prm h) * E h
          - d2 (prm h) * mean_kappa (N h) (kappa h)) 0 1 in
  let k := explore_target h4 in
  E h' = E h /\
  ((1 <= N h)%nat -> (k < N h)%nat) /\
  kappa h' =
    (if Rlt_dec (explore_draw h4) eps then
       if Nat.eqb k (current h) then kappa h
       else vupd (idx (current h) k (N h)) (fun x => x + 0.05) (kappa h)
     else kappa h) /\
  (eps0 (prm h) + d1 (prm h) * E h
     - d2 (prm h) * mean_kappa (N h) (kappa h) <= 0 ->
   kappa h' = kappa h) /\
  current h' = best_move (kappa h') (current h) (N h) /\
  (forall t, out' = Some t -> out_did_jump t = 0%Z).
Proof.
  intros Hks HE Hstep h4 eps k.
  apply ssd_step_some in Hstep. destruct Hstep as [-> ->].
  pose proof (step_dt_0_did_jump h 0) as Hno.
  destruct (decision_state_dt_0 h 0 Hks HE) as [Hk4 HE4].
  fold h4 in Hk4, HE4.
  rewrite (step_no_jump_decision h 0 0 Hno), step_kappa_mean.
  fold h4. rewrite Hk4.
  set (km := mean_kappa (N h) (kappa h)) in *.
  destruct (explore_cases h4 km)
    as (HN & Hcur & HE' & _ & _ & _ & _ & _).
  destruct (explore_draws h4 km) as [Hkappa _].
  cbv zeta in Hkappa.
  assert (Heps : explore_eps h4 km = eps).
  { unfold explore_eps. rewrite HE4. reflexivity. }
  rewrite Heps, Hk4 in Hkappa.
  change (current h4) with (current h) in *.
  change (N h4) with (N h) in *.
  fold k in Hkappa.
  unfold Core.no_jump_branch. cbn [E kappa current].
  rewrite HN, Hcur, HE', HE4, Hkappa.
  split; [reflexivity|].
  split; [intros HN1; apply (explore_target_range h4); exact HN1|].
  split.
  { destruct (Rlt_dec (explore_draw h4) eps); [|reflexivity].
    destruct (Nat.eqb k (current h)); reflexivity. }
  split.
  { intros Hle.
    destruct (Rlt_dec (explore_draw h4) eps) as [Hlt|_]; [|reflexivity].
    exfalso. pose proof (uni01_range (rng h4)) as Hu.
    unfold explore_draw in Hlt. revert Hlt. unfold eps, clip.
    destruct (Rlt_dec _ 0); [lra|]. destruct (Rlt_dec 1 _); lra. }
  split; [reflexivity|].
  destruct out as [buf|]; intros t Ht; [|discriminate].
  inversion Ht. exact Hno.
Qed.

(** On a fresh handle with two nodes and the default parameters, a call with
    no drive and no time moves the walker from node 0 to node 1, whatever the
    generator draws. *)
Lemma fresh_two_nodes_idle_moves (seed : Z) :
  current (fst (Core.step (new_handle 2 default_params seed) 0 0)) = 1%nat.
Proof.
  set (h := new_handle 2 default_params seed).
  assert (Hks : Forall (fun k => kappa_min (prm h) <= k) (kappa h)).
  { simpl. repeat constructor; lra. }
  assert (HE : 0 <= E h) by (simpl; lra).
  destruct (step_idle h 0 Hks HE) as (s & T4 & -> & _).
  set (h4 := {| N := N h; current := current h; kappa := kappa h; w := w h;
                E := E h; F := F h; T := T4; pi := pi h; prm := prm h;
                rng := s |}).
  destruct (explore_cases h4 (mean_kappa (N h) (kappa h)))
    as (HN & Hcur & _ & _ & _ & _ & _ & Hkappa).
  unfold Core.no_jump_branch. cbn [current].
  set (h5 := explore h4 (mean_kappa (N h) (kappa h))) in *.
  rewrite HN, Hcur.
  change (N h4) with 2%nat. change (current h4) with 0%nat.
  assert (Hrow : vget (kappa h5) 0 = 0 /\ 0 <= vget (kappa h5) 1).
  { destruct Hkappa as [[-> _]|(k & Hk & _ & -> & _)].
    - unfold vget. simpl. lra.
    - change (current h4) with 0%nat in *. change (N h4) with 2%nat.
      change (kappa h4) with [0; 0; 0; 0].
      destruct k as [|[|[|[|k]]]]; [congruence| | | |];
        unfold idx, vget; simpl; lra. }
  destruct Hrow as [H0 H1].
  unfold best_move. cbn [seq fold_left best_step idx Nat.mul Nat.add Nat.eqb].
  rewrite H0.
  destruct (Rlt_dec (- 1e300) (0 - 1e-6)) as [_|Hn]; [|exfalso; lra].
  cbn [fold_left best_step idx Nat.mul Nat.add Nat.eqb].
  destruct (Rlt_dec (0 - 1e-6) (vget (kappa h5) 1)) as [_|Hn];
    [reflexivity|exfalso; lra].
Qed.

End Idle.

(** The draws of the idle call on [idle_handle]: the exploration test draws
    [0], below [eps = 0.02], and the target is node 1. *)
Lemma idle_draws :
  explore_draw (decision_state idle_handle 0 0) = 0 /\
  explore_target (decision_state idle_handle 0 0) = 1%nat.
Proof.
  unfold explore_draw, explore_target, decision_state, idle_handle.
  cbn [rng N prm kappa].
  rewrite align_flow_no_noise by (simpl; lra).
  cbn [fst snd uni01 TapeRuntime tape_uni01 uniforms normals].
  rdec. cbn [fst snd uniforms normals]. rdec. cbn [fst snd].
  split; [reflexivity|].
  assert (Hfloor : Zfloor (/ 2 * INR 2) = 1%Z)
    by (apply Zfloor_eq; simpl; lra).
  rewrite Hfloor. reflexivity.
Qed.

Lemma ssd_step_idle_witness :
  Forall (fun k => kappa_min (prm idle_handle) <= k) (kappa idle_handle) /\
  0 <= E idle_handle /\
  E (fst (Core.step idle_handle 0 0)) = 0 /\
  kappa (fst (Core.step idle_handle 0 0)) = [0; 0 + 0.05; 0; 0].
Proof.
  assert (Hks : Forall (fun k => kappa_min (prm idle_handle) <= k)
                  (kappa idle_handle))
    by (simpl; repeat constructor; lra).
  assert (HE : 0 <= E idle_handle) by (simpl; lra).
  split; [exact Hks|]. split; [exact HE|].
  destruct (ssd_step_idle idle_handle _ None None Hks HE
              (ssd_step_run _ 0 0 None)) as (HE' & _ & Hkappa & _).
  split; [exact HE'|].
  rewrite Hkappa. destruct idle_draws as [-> ->].
  unfold clip, mean_kappa, vsum. simpl. rdec. reflexivity.
Defined.

(** C2 as stated fails.  The handle [ssd_create(2, NULL, 1)] has its walker
    on node 0; after [ssd_step] with [drive = 0] and [dt = 0] the walker is on
    node 1: the no-jump branch always moves to the strongest edge of the row,
    and the self loop is counted [1e-6] lower than the edge to node 1. *)
Lemma ssd_step_idle_moves_current :
  exists h h',
    Core.ssd_create (G := Tape) 2 None 1 = Some h /\
    Core.ssd_step (Some h) 0 0 None = (Some h', None) /\
    current h = 0%nat /\ current h' = 1%nat.
Proof.
  exists (new_handle 2 default_params 1),
    (fst (Core.step (new_handle 2 default_params 1) 0 0)).
  split; [reflexivity|].
  split; [exact (ssd_step_run _ 0 0 None)|].
  split; [reflexivity|apply fresh_two_nodes_idle_moves].
Qed.

(** ** Re-selecting the current node at a jump *)

Section SelfLoop.
Context {G : Type} {RT : StdRuntime G}.

Lemma cdf_upto_0 (pis : list R) : cdf_upto pis 0 = 0.
Proof. reflexivity. Qed.

Lemma cdf_upto_cons (x : R) (pis : list R) (k : nat) :
  cdf_upto (x :: pis) (S k) = x + cdf_upto pis k.
Proof. unfold cdf_upto. cbn [firstn]. apply vsum_cons. Qed.

Lemma cdf_upto_S (pis : list R) (k : nat) :
  (k < length pis)%nat ->
  cdf_upto pis (S k) = cdf_upto pis k + vget pis k.
Proof.
  revert k. induction pis as [|x pis IH]; intros k Hk; simpl in Hk; [lia|].
  destruct k as [|k].
  - rewrite cdf_upto_cons, !cdf_upto_0. unfold vget. simpl. lra.
  - rewrite !cdf_upto_cons, IH by lia. unfold vget. simpl. lra.
Qed.

Lemma cdf_upto_mono (pis : list R) (a b : nat) :
  Forall (fun x => 0 <= x) pis -> (a <= b)%nat ->
  cdf_upto pis a <= cdf_upto pis b.
Proof.
  intros Hpos. revert a b.
  induction Hpos as [|x pis Hx Hpos IH]; intros a b Hab.
  - unfold cdf_upto. rewrite !firstn_nil. lra.
  - destruct a as [|a]; destruct b as [|b]; try lia.
    + rewrite cdf_upto_0. lra.
    + rewrite cdf_upto_0, cdf_upto_cons.
      specialize (IH O b ltac:(lia)). rewrite cdf_upto_0 in IH. lra.
    + rewrite !cdf_upto_cons. specialize (IH a b ltac:(lia)). lra.
Qed.

(** The walk stops at the first position whose cumulative sum reaches the
    draw. *)
Lemma sample_cdf_first (pis : list R) (r : R) (k0 : nat) (acc : R)
    (fallback : nat) :
  r <= acc + vsum pis -> (acc < r \/ pis <> []) ->
  exists i,
    sample_cdf r pis k0 acc fallback = (k0 + i)%nat /\
    (i < length pis)%nat /\
    r <= acc + cdf_upto pis (S i) /\
    forall i', (i' < i)%nat -> acc + cdf_upto pis (S i') < r.
Proof.
  revert k0 acc.
  induction pis as [|x pis IH]; intros k0 acc Hsum Hne.
  - rewrite vsum_nil in Hsum. destruct Hne as [Hlt|Hne]; [lra|congruence].
  - cbn [sample_cdf]. destruct (Rle_dec r (acc + x)) as [Hle|Hgt].
    + exists O. rewrite Nat.add_0_r. split; [reflexivity|].
      split; [simpl; lia|]. split; [|intros i' Hi'; lia].
      rewrite cdf_upto_cons, cdf_upto_0. lra.
    + rewrite vsum_cons in Hsum.
      destruct (IH (S k0) (acc + x) ltac:(lra) ltac:(left; lra))
        as (i & Hres & Hi & Hreach & Hbefore).
      exists (S i). split; [rewrite Hres; lia|].
      split; [simpl; lia|]. split.
      * rewrite cdf_upto_cons. lra.
      * intros [|i'] Hi'.
        -- rewrite cdf_upto_cons, cdf_upto_0. lra.
        -- rewrite cdf_upto_cons. specialize (Hbefore i' ltac:(lia)). lra.
Qed.


Lemma softmax_temp_length (logits : list R) (T : R) :
  length (Core.softmax_temp logits T) = length logits.
Proof.
  unfold Core.softmax_temp. destruct logits as [|l0 rest]; [reflexivity|].
  destruct (Rle_dec T 1e-8).
  - rewrite length_vupd. apply repeat_length.
  - unfold normalise, exp_scores. rewrite !length_map. reflexivity.
Qed.

(** The jump branch: the policy it stores and the node it moves to. *)
Lemma jump_branch_selection (h : SSDHandle G) (j : list R) :
  exists logits r,
    length logits = N h /\ 0 <= r < 1 /\
    N (Core.jump_branch h j) = N h /\
    pi (Core.jump_branch h j) = Core.softmax_temp logits (T h) /\
    current (Core.jump_branch h j)
      = sample_cdf r (pi (Core.jump_branch h j)) 0 0 (N h - 1).
Proof.
  unfold Core.jump_branch.
  pose proof (build_logits_length (prm h) (kappa h) (current h) (N h)
                (seq 0 (N h)) (rng h)) as Hlen.
  destruct (build_logits _ _ _ _ _ _) as [logits s].
  pose proof (uni01_range s) as Hr.
  destruct (uni01 s) as [r s1]. simpl in *.
  exists logits, r. rewrite Hlen, length_seq. auto.
Qed.


End SelfLoop.



(** ** Well-formed handles *)

Section WellFormed.
Context {G : Type} {RT : StdRuntime G}.

Lemma new_handle_wf (n : Z) (params : SSDParams) (seed : Z) :
  (0 < n <= 46340)%Z -> handle_wf (new_handle n params seed).
Proof.
  intros Hn. rewrite new_handle_fits by exact Hn.
  unfold handle_wf. cbn [N current kappa w pi]. rewrite !repeat_length.
  repeat split; lia.
Qed.

Lemma ssd_create_wf (n : Z) (params : option SSDParams) (seed : Z)
    (h : SSDHandle G) :
  (n <= 46340)%Z -> Core.ssd_create n params seed = Some h -> handle_wf h.
Proof.
  intros Hmax Hcreate. apply ssd_create_some in Hcreate.
  destruct Hcreate as (Hn & _ & ->). apply new_handle_wf. lia.
Qed.

Lemma update_kappa_length (params : SSDParams) (p dt : R) (ks j : list R) :
  length j = length ks ->
  length (Core.update_kappa params p dt ks j) = length ks.
Proof.
  intros Hlen. unfold Core.update_kappa.
  rewrite length_map, length_combine. lia.
Qed.

Lemma relax_top_length (params : SSDParams) (n : nat) (j ks : list R) :
  length (Core.relax_top params n j ks) = length ks.
Proof.
  unfold Core.relax_top. apply fold_vupd_length.
Qed.

(** Inside its bounds RelaxTop reads entries of the index vector that exist,
    and each of them is a cell of the [N * N] matrix. *)
Lemma relax_top_reads (params : SSDParams) (n : nat) (j : list R) (i : nat) :
  relax_in_bounds params n ->
  (i < relax_count_of params (n * n))%nat ->
  let indices :=
    partial_sort (by_abs_flow j) (relax_count_of params (n * n))
      (seq 0 (n * n)) in
  (i < length indices)%nat /\ (nth i indices O < n * n)%nat.
Proof.
  intros [_ Hin] Hi indices.
  assert (Hperm : Permutation indices (seq 0 (n * n))).
  { apply partial_sort_perm. rewrite length_seq. exact Hin. }
  assert (Hlen : length indices = (n * n)%nat)
    by (rewrite (Permutation_length Hperm); apply length_seq).
  split; [lia|].
  assert (Hmem : In (nth i indices O) (seq 0 (n * n))).
  { apply (Permutation_in _ Hperm). apply nth_In. lia. }
  apply in_seq in Hmem. lia.
Qed.

Lemma sample_cdf_range (pis : list R) (r : R) (k0 : nat) (acc : R)
    (fallback : nat) :
  sample_cdf r pis k0 acc fallback = fallback \/
  (k0 <= sample_cdf r pis k0 acc fallback < k0 + length pis)%nat.
Proof.
  revert k0 acc. induction pis as [|x pis IH]; intros k0 acc; simpl;
    [left; reflexivity|].
  destruct (Rle_dec r (acc + x)); [right; lia|].
  destruct (IH (S k0) (acc + x)) as [Hfb|Hin]; [left; exact Hfb|right; lia].
Qed.

Lemma best_move_range (ks : list R) (cur n : nat) :
  (cur < n)%nat -> (best_move ks cur n < n)%nat.
Proof.
  intros Hcur. unfold best_move.
  assert (Hfold : forall l acc,
            (forall k, In k l -> (k < n)%nat) -> (fst acc < n)%nat ->
            (fst (fold_left (best_step ks cur n) l acc) < n)%nat).
  { induction l as [|k l IH]; intros [best v] Hl Hacc; simpl; [exact Hacc|].
    apply IH; [intros k' Hk'; apply Hl; right; exact Hk'|].
    destruct (Rlt_dec v _); simpl; [apply Hl; left; reflexivity|exact Hacc]. }
  apply Hfold; [|exact Hcur].
  intros k Hk. apply in_seq in Hk. lia.
Qed.

Lemma jump_branch_wf (h : SSDHandle G) (j : list R) :
  handle_wf h -> handle_wf (Core.jump_branch h j).
Proof.
  intros (HN & Hcur & Hk & Hw & Hpi).
  destruct (jump_branch_selection h j)
    as (logits & r & Hlen & _ & HN' & Hpi' & Hsel).
  unfold handle_wf. rewrite HN', Hsel, Hpi', softmax_temp_length, Hlen.
  split; [exact HN|]. split.
  - destruct (sample_cdf_range (Core.softmax_temp logits (T h)) r 0 0 (N h - 1))
      as [->|Hin]; [lia|].
    rewrite softmax_temp_length, Hlen in Hin. lia.
  - unfold Core.jump_branch.
    destruct (build_logits _ _ _ _ _ _) as [logits' s].
    destruct (uni01 s) as [r' s1]. cbn [kappa w].
    rewrite relax_top_length, !length_vupd. auto.
Qed.

Lemma no_jump_branch_wf (h : SSDHandle G) (kappa_mean : R) :
  handle_wf h -> handle_wf (Core.no_jump_branch h kappa_mean).
Proof.
  intros (HN & Hcur & Hk & Hw & Hpi).
  destruct (explore_cases h kappa_mean)
    as (HN' & Hcur' & _ & _ & _ & Hpi' & _ & Hkw).
  unfold handle_wf, Core.no_jump_branch. cbn [N current kappa w pi].
  rewrite HN', Hcur', Hpi'.
  split; [exact HN|]. split; [apply best_move_range; exact Hcur|].
  destruct Hkw as [[-> ->]|(k & _ & _ & -> & ->)];
    rewrite ?length_vupd; auto.
Qed.

(** [ssd_step] keeps a handle well formed. *)
Lemma step_wf (h : SSDHandle G) (p dt : R) :
  handle_wf h -> handle_wf (fst (Core.step h p dt)).
Proof.
  intros (HN & Hcur & Hk & Hw & Hpi).
  pose proof (align_flow_length (prm h) p (kappa h) (rng h)) as Hlen.
  open_step h p dt j s u s1 Hflow Hu Hjump; cbn [fst]; simpl in Hlen;
    [apply jump_branch_wf|apply no_jump_branch_wf];
    unfold handle_wf; cbn [N current kappa w pi];
    rewrite update_kappa_length by exact Hlen; auto.
Qed.

End WellFormed.

(** * Further properties of the engine *)

(** ** Shape and frame of a step *)

Section StepFrame.
Context {G : Type} {RT : StdRuntime G}.

Lemma jump_branch_frame (h : SSDHandle G) (j : list R) :
  N (Core.jump_branch h j) = N h /\
  prm (Core.jump_branch h j) = prm h /\
  F (Core.jump_branch h j) = F h /\
  T (Core.jump_branch h j) = T h.
Proof.
  unfold Core.jump_branch.
  destruct (build_logits _ _ _ _ _ _) as [logits s].
  destruct (uni01 s) as [r s1]. simpl. auto.
Qed.

Lemma no_jump_branch_frame (h : SSDHandle G) (kappa_mean : R) :
  N (Core.no_jump_branch h kappa_mean) = N h /\
  prm (Core.no_jump_branch h kappa_mean) = prm h /\
  F (Core.no_jump_branch h kappa_mean) = F h /\
  T (Core.no_jump_branch h kappa_mean) = T h.
Proof.
  unfold Core.no_jump_branch. cbn [N prm F T].
  destruct (explore_cases h kappa_mean)
    as (HN & _ & _ & HF & HT & _ & Hprm & _).
  auto.
Qed.

Lemma step_frame (h : SSDHandle G) (p dt : R) :
  N (fst (Core.step h p dt)) = N h /\
  prm (fst (Core.step h p dt)) = prm h /\
  F (fst (Core.step h p dt)) = F h /\
  1e-6 <= T (fst (Core.step h p dt)).
Proof.
  open_step h p dt j s u s1 Hflow Hu Hjump; cbn [fst].
  - match goal with
    | |- context [Core.jump_branch ?h4 j] =>
        destruct (jump_branch_frame h4 j) as (-> & -> & -> & ->)
    end.
    cbn [N prm F T]. repeat split. apply temperature_floor.
  - match goal with
    | |- context [Core.no_jump_branch ?h4 ?km] =>
        destruct (no_jump_branch_frame h4 km) as (-> & -> & -> & ->)
    end.
    cbn [N prm F T]. repeat split. apply temperature_floor.
Qed.

(** X1.  On a handle that is well formed and whose [q_relax] keeps RelaxTop
    inside its index vector ([relax_count <= N * N]), [ssd_step] leaves a
    handle that is well formed again (vector sizes [N * N], [N * N] and [N],
    [current] below [N]) and on which RelaxTop stays inside its bounds; it
    never changes [N], the parameters or the threshold offset [F]; the
    temperature it leaves is at least [1e-6].  Every index that RelaxTop
    reads in such a call exists in the index vector and names a cell of the
    matrix. *)
Theorem ssd_step_keeps_shape (h h' : SSDHandle G) (p dt : R)
    (out out' : option SSDTelemetry) :
  handle_wf h -> relax_in_bounds (prm h) (N h) ->
  Core.ssd_step (Some h) p dt out = (Some h', out') ->
  handle_wf h' /\ relax_in_bounds (prm h') (N h') /\
  N h' = N h /\ prm h' = prm h /\ F h' = F h /\ 1e-6 <= T h' /\
  forall i, (i < relax_count_of (prm h) (N h * N h))%nat ->
    let indices :=
      partial_sort (by_abs_flow (phase_flow h p))
        (relax_count_of (prm h) (N h * N h)) (seq 0 (N h * N h)) in
    (i < length indices)%nat /\ (nth i indices O < length (kappa h))%nat.
Proof.
  intros Hwf Hin Hstep. apply ssd_step_some in Hstep. destruct Hstep as [-> _].
  destruct (step_frame h p dt) as (HN & Hprm & HF & HT).
  split; [apply step_wf; exact Hwf|].
  split; [rewrite HN, Hprm; exact Hin|].
  repeat (split; [assumption|]).
  intros i Hi. destruct Hwf as (_ & _ & -> & _).
  apply relax_top_reads; assumption.
Qed.

End StepFrame.

Lemma ssd_step_keeps_shape_witness :
  handle_wf jump_handle /\
  relax_in_bounds (prm jump_handle) (N jump_handle) /\
  handle_wf jump_post /\
  relax_in_bounds (prm jump_post) (N jump_post) /\
  N jump_post = N jump_handle /\
  prm jump_post = prm jump_handle /\ F jump_post = F jump_handle /\
  1e-6 <= T jump_post.
Proof.
  assert (Hwf : handle_wf jump_handle)
    by (unfold handle_wf; simpl; repeat split; lia).
  split; [exact Hwf|]. split; [exact jump_relax_in_bounds|].
  destruct (ssd_step_keeps_shape jump_handle jump_post 1 1 None None Hwf
              jump_relax_in_bounds
              (eq_trans (ssd_step_run jump_handle 1 1 None)
                 (f_equal (fun r => (Some (fst r), None)) jump_step)))
    as (H1 & H2 & H3 & H4 & H5 & H6 & _).
  repeat (split; [assumption|]). exact H6.
Defined.

(** ** Creation and the accessors *)

Section Accessors.
Context {G : Type} {RT : StdRuntime G}.

Lemma vsum_repeat (v : R) (n : nat) : vsum (repeat v n) = INR n * v.
Proof.
  induction n as [|n IH]; [simpl; rewrite vsum_nil; lra|].
  cbn [repeat]. rewrite vsum_cons, IH, S_INR. lra.
Qed.

(** X2.  [ssd_create] returns the null handle in three cases: [N <= 0];
    the product [N * N], computed in [int], is negative (as it is for
    [N = 46341], the first node count whose square does not fit); and the
    allocation fails.  Otherwise the handle has [N] nodes, the walker on node
    0, two matrices of zeros with as many entries as the [int] product says,
    no heat, [T = T0] and a uniform policy that sums to one.  It is well
    formed for [N <= 46340]; for [N = 65536] the product wraps to [0], the
    matrices are empty and the handle is not well formed.  A seed of [0]
    gives the handle of seed [123456789]. *)
Theorem ssd_create_fresh (n : Z) (params : option SSDParams) (seed : Z) :
  (Core.ssd_create (G := G) n params seed = None <->
   (n <= 0)%Z \/ (int32 (n * n) < 0)%Z \/ allocates (handle_of n) = false) /\
  (forall h : SSDHandle G,
     Core.ssd_create n params seed = Some h ->
     Z.of_nat (N h) = n /\ current h = O /\
     prm h = match params with Some p => p | None => default_params end /\
     kappa h = repeat 0 (Z.to_nat (int32 (n * n))) /\
     w h = repeat 0 (Z.to_nat (int32 (n * n))) /\
     E h = 0 /\ F h = 0 /\ T h = T0 (prm h) /\
     length (pi h) = N h /\
     Forall (fun x => x = / INR (N h)) (pi h) /\ vsum (pi h) = 1 /\
     ((n <= 46340)%Z -> handle_wf h)) /\
  Core.ssd_create (G := G) 46341 params seed = None /\
  (forall h : SSDHandle G,
     Core.ssd_create 65536 params seed = Some h ->
     Z.of_nat (N h) = 65536%Z /\ kappa h = [] /\ w h = [] /\
     ~ handle_wf h) /\
  Core.ssd_create (G := G) n params 0 = Core.ssd_create n params 123456789.
Proof.
  split; [|split; [|split; [|split; [|reflexivity]]]].
  - unfold Core.ssd_create, constructs.
    destruct (n <=? 0)%Z eqn:Hn.
    + apply Z.leb_le in Hn. split; [intros _; left; exact Hn|reflexivity].
    + apply Z.leb_gt in Hn.
      destruct (0 <=? int32 (n * n))%Z eqn:Hsq;
        [apply Z.leb_le in Hsq|apply Z.leb_gt in Hsq].
      * destruct (allocates (handle_of n)) eqn:Hal; simpl.
        -- split; [discriminate|]. intros [H|[H|H]]; [lia|lia|discriminate].
        -- split; [intros _; right; right; reflexivity|reflexivity].
      * simpl. split; [intros _; right; left; exact Hsq|reflexivity].
  - intros h Hcreate.
    pose proof Hcreate as Hsome. apply ssd_create_some in Hsome.
    destruct Hsome as (Hn & _ & ->).
    cbn [new_handle N current kappa w E F T prm pi].
    rewrite Z.max_r by lia.
    assert (Hinr : INR (Z.to_nat n) = IZR n)
      by (rewrite INR_IZR_INZ, Z2Nat.id by lia; reflexivity).
    assert (Hpos : 0 < IZR n) by (apply IZR_lt; exact Hn).
    split; [lia|]. split; [reflexivity|]. split; [reflexivity|].
    split; [reflexivity|]. split; [reflexivity|].
    split; [reflexivity|]. split; [reflexivity|]. split; [reflexivity|].
    split; [apply repeat_length|]. split; [|split].
    + apply Forall_forall. intros v Hv. apply repeat_spec in Hv. subst v.
      rewrite Hinr. unfold Rdiv. lra.
    + rewrite vsum_repeat, Hinr. field. lra.
    + intros Hmax. apply new_handle_wf. lia.
  - unfold Core.ssd_create, constructs. reflexivity.
  - intros h Hcreate. apply ssd_create_some in Hcreate.
    destruct Hcreate as (_ & _ & ->).
    cbn [new_handle N kappa w].
    split; [apply Z2Nat.id; lia|]. split; [reflexivity|].
    split; [reflexivity|].
    intros (HN & _ & Hk & _). cbn [new_handle N kappa] in HN, Hk.
    change (Z.to_nat (int32 (65536 * 65536))) with O in Hk.
    cbn [repeat length] in Hk. nia.
Qed.

(** X3.  [ssd_get_kappa_row] on a valid row with [0 <= len] within the
    caller's buffer returns [min(N, len)], writes that many leading entries
    of the row into the front of the buffer and leaves the rest of the
    buffer, and its size, as they were. *)
Theorem ssd_get_kappa_row_copies (h : SSDHandle G) (row len : Z)
    (buf : list R) :
  handle_wf h ->
  (0 <= row < Z.of_nat (N h))%Z ->
  (0 <= len <= Z.of_nat (length buf))%Z ->
  exists buf',
    ssd_get_kappa_row (Some h) row (Some buf) len
      = (Z.min (Z.of_nat (N h)) len, Some buf') /\
    length buf' = length buf /\
    (forall i, (Z.of_nat i < Z.min (Z.of_nat (N h)) len)%Z ->
       vget buf' i = vget (kappa h) (idx (Z.to_nat row) i (N h))) /\
    (forall i, (Z.min (Z.of_nat (N h)) len <= Z.of_nat i)%Z ->
       vget buf' i = vget buf i).
Proof.
  intros (HN & _ & Hk & _) Hrow Hlen.
  unfold ssd_get_kappa_row.
  assert (Hguard : ((row <? 0)%Z || (Z.of_nat (N h) <=? row)%Z)%bool = false).
  { apply orb_false_iff. split; [apply Z.ltb_ge|apply Z.leb_gt]; lia. }
  rewrite Hguard.
  set (m := Z.to_nat (Z.min (Z.of_nat (N h)) len)).
  set (src := skipn (Z.to_nat row * N h) (kappa h)).
  assert (Hm : (m <= N h /\ m <= length buf)%nat) by (subst m; lia).
  assert (Hsrc : (N h <= length src)%nat).
  { subst src. rewrite length_skipn, Hk.
    assert (Z.to_nat row < N h)%nat by lia. nia. }
  eexists. split; [reflexivity|]. unfold memcpy. fold m. fold src.
  assert (Hfirst : length (firstn m src) = m)
    by (rewrite length_firstn; lia).
  split; [rewrite length_app, Hfirst, length_skipn; lia|]. split.
  - intros i Hi. assert (Him : (i < m)%nat) by (subst m; lia).
    unfold vget. rewrite app_nth1 by lia.
    rewrite nth_firstn.
    destruct (Nat.ltb_spec i m) as [_|Hge]; [|lia].
    subst src. rewrite nth_skipn. reflexivity.
  - intros i Hi. assert (Him : (m <= i)%nat) by (subst m; lia).
    unfold vget. rewrite app_nth2 by lia. rewrite Hfirst, nth_skipn.
    f_equal. lia.
Qed.

(** X4.  [ssd_get_kappa_row] returns [0] and writes nothing when the handle
    or the buffer is null or the row is out of range. *)
Theorem ssd_get_kappa_row_rejects (h : option (SSDHandle G)) (row len : Z)
    (out_buf : option (list R)) :
  h = None \/ out_buf = None \/ (row < 0)%Z \/
  (exists h0, h = Some h0 /\ (Z.of_nat (N h0) <= row)%Z) ->
  ssd_get_kappa_row h row out_buf len = (0%Z, out_buf).
Proof.
  intros Hbad. unfold ssd_get_kappa_row.
  destruct h as [h0|]; [|reflexivity].
  destruct out_buf as [buf|]; [|reflexivity].
  assert (Hguard : ((row <? 0)%Z || (Z.of_nat (N h0) <=? row)%Z)%bool = true).
  { apply orb_true_iff.
    destruct Hbad as [Hh|[Hb|[Hneg|(h1 & Hh & Hrow)]]]; try discriminate.
    - left. apply Z.ltb_lt. exact Hneg.
    - right. inversion Hh. subst h1. apply Z.leb_le. exact Hrow. }
  rewrite Hguard. reflexivity.
Qed.

(** X5.  Parameters round trip: what [ssd_set_params] stores is what
    [ssd_get_params] returns; setting changes nothing else in the handle;
    writing back what was read leaves the handle as it was; and both calls do
    nothing on a null handle or a null buffer. *)
Theorem params_round_trip (h : SSDHandle G) (p buf : SSDParams) :
  ssd_get_params (ssd_set_params (Some h) (Some p)) (Some buf) = Some p /\
  (exists h',
     ssd_set_params (Some h) (Some p) = Some h' /\
     N h' = N h /\ current h' = current h /\ kappa h' = kappa h /\
     w h' = w h /\ E h' = E h /\ F h' = F h /\ T h' = T h /\ pi h' = pi h /\
     rng h' = rng h /\ ssd_get_N (Some h') = ssd_get_N (Some h)) /\
  ssd_set_params (Some h) (ssd_get_params (Some h) (Some buf)) = Some h /\
  ssd_get_params (G := G) None (Some buf) = Some buf /\
  ssd_get_params (Some h) None = None /\
  ssd_set_params (G := G) None (Some p) = None /\
  ssd_set_params (Some h) None = Some h.
Proof.
  split; [reflexivity|]. split.
  - eexists. split; [reflexivity|]. cbn. repeat split.
  - split; [destruct h; reflexivity|]. repeat split.
Qed.

End Accessors.

Lemma ssd_create_fresh_witness :
  Core.ssd_create (G := Tape) 2 None 0
    = Some (new_handle 2 default_params 123456789) /\
  handle_wf (new_handle (G := Tape) 2 default_params 123456789) /\
  kappa (new_handle (G := Tape) 2 default_params 123456789) = [0; 0; 0; 0] /\
  Core.ssd_create (G := Tape) 46341 None 0 = None.
Proof.
  destruct (ssd_create_fresh (G := Tape) 2 None 0)
    as (_ & Hfresh & _ & _ & _).
  destruct (ssd_create_fresh (G := Tape) 46341 None 0)
    as (_ & _ & Hnull & _ & _).
  destruct (Hfresh (new_handle 2 default_params 123456789) eq_refl)
    as (_ & _ & _ & Hkappa & _ & _ & _ & _ & _ & _ & _ & Hwf).
  split; [reflexivity|]. split; [apply Hwf; lia|].
  split; [exact Hkappa|exact Hnull].
Defined.

Lemma ssd_get_kappa_row_copies_witness :
  exists buf',
    ssd_get_kappa_row (Some jump_post) 1 (Some [7; 7; 7]) 3
      = (Z.min (Z.of_nat (N jump_post)) 3, Some buf') /\
    length buf' = length [7; 7; 7] /\
    (forall i, (Z.of_nat i < Z.min (Z.of_nat (N jump_post)) 3)%Z ->
       vget buf' i
       = vget (kappa jump_post) (idx (Z.to_nat 1) i (N jump_post))) /\
    (forall i, (Z.min (Z.of_nat (N jump_post)) 3 <= Z.of_nat i)%Z ->
       vget buf' i = vget [7; 7; 7] i).
Proof.
  apply (ssd_get_kappa_row_copies jump_post 1 3 [7; 7; 7]).
  - unfold handle_wf. simpl. repeat split; lia.
  - simpl. lia.
  - simpl. lia.
Defined.

Lemma ssd_get_kappa_row_rejects_witness :
  ssd_get_kappa_row (Some jump_post) 2 (Some [7; 7; 7]) 3
  = (0%Z, Some [7; 7; 7]).
Proof.
  apply (ssd_get_kappa_row_rejects (Some jump_post) 2 3 (Some [7; 7; 7])).
  right. right. right. exists jump_post. split; [reflexivity|simpl; lia].
Defined.

(** ** The normalised entropy *)

Section Entropy.
Context {G : Type} {RT : StdRuntime G}.

Lemma entropy_fold_repeat (v : R) (n : nat) (a : R) :
  1e-12 < v ->
  fold_left entropy_term (repeat v n) a = a + INR n * (- v * ln v).
Proof.
  intros Hv. revert a.
  induction n as [|n IH]; intros a; [simpl; lra|].
  cbn [repeat fold_left]. rewrite IH, S_INR. unfold entropy_term.
  destruct (Rle_dec v 1e-12); lra.
Qed.

Lemma entropy_norm_uniform (n : nat) :
  (2 <= n)%nat -> INR n < 1e12 ->
  entropy_norm (repeat (/ INR n) n) = 1.
Proof.
  intros Hn Hbig.
  assert (Hinr : 2 <= INR n) by (change 2 with (INR 2); apply le_INR; exact Hn).
  assert (Hv : 1e-12 < / INR n).
  { replace 1e-12 with (/ 1e12) by lra.
    apply Rinv_lt_contravar; [|exact Hbig]. apply Rmult_lt_0_compat; lra. }
  unfold entropy_norm.
  destruct (repeat (/ INR n) n) eqn:Hrep;
    [destruct n; [lia|discriminate]|].
  rewrite <- Hrep, repeat_length, entropy_fold_repeat by exact Hv.
  assert (Hln : 0 < ln (INR n)) by (rewrite <- ln_1; apply ln_increasing; lra).
  destruct (Rlt_dec 0 (ln (INR n))); [|lra].
  rewrite ln_Rinv by lra. field. split; lra.
Qed.

(** X6.  The policy of a fresh handle with [2 <= N <= 46340] nodes (the
    node counts for which the constructor builds [N * N] matrices) has
    normalised entropy exactly [1], and that is the [H] the first step
    reports, whatever the drive, [dt] and the parameters. *)
Theorem fresh_handle_entropy_one (n : Z) (params : option SSDParams)
    (seed : Z) (h : SSDHandle G) (p dt : R) :
  (2 <= n <= 46340)%Z ->
  Core.ssd_create n params seed = Some h ->
  entropy_norm (pi h) = 1 /\ out_H (snd (Core.step h p dt)) = 1.
Proof.
  intros Hn Hcreate. apply ssd_create_some in Hcreate.
  destruct Hcreate as (_ & _ & ->).
  rewrite new_handle_fits by lia.
  assert (Hnat : (2 <= Z.to_nat n)%nat) by lia.
  assert (Hent : entropy_norm
                   (repeat (1 / INR (Z.to_nat n)) (Z.to_nat n)) = 1).
  { replace (1 / INR (Z.to_nat n)) with (/ INR (Z.to_nat n))
      by (unfold Rdiv; lra).
    apply entropy_norm_uniform; [exact Hnat|].
    rewrite INR_IZR_INZ, Z2Nat.id by lia.
    destruct Hn as [_ Hn']. apply IZR_le in Hn'. lra. }
  cbn [pi]. split; [exact Hent|].
  rewrite step_H. cbn [pi]. unfold policy_entropy_of.
  destruct (repeat _ _) eqn:Hpi; [|exact Hent].
  destruct (Z.to_nat n); [lia|discriminate].
Qed.

Lemma entropy_term_nonneg (a v : R) : v <= 1 -> a <= entropy_term a v.
Proof.
  intros Hv. unfold entropy_term.
  destruct (Rle_dec v 1e-12) as [_|Hbig].
  - assert (ln 1e-12 < 0) by (rewrite <- ln_1; apply ln_increasing; lra).
    nra.
  - assert (ln v <= 0).
    { destruct (Req_dec v 1) as [->|Hne]; [rewrite ln_1; lra|].
      apply Rlt_le. rewrite <- ln_1. apply ln_increasing; lra. }
    nra.
Qed.

Lemma entropy_fold_nonneg (p : list R) (a : R) :
  Forall (fun v => v <= 1) p -> a <= fold_left entropy_term p a.
Proof.
  intros Hp. revert a.
  induction Hp as [|v p Hv Hp IH]; intros a; simpl; [lra|].
  pose proof (entropy_term_nonneg a v Hv). specialize (IH (entropy_term a v)).
  lra.
Qed.

Lemma ln_le_minus_1 (v : R) : 0 < v -> ln v <= v - 1.
Proof.
  intros Hv. destruct (Req_dec v 1) as [->|Hne]; [rewrite ln_1; lra|].
  apply Rlt_le, ln_lt_minus_1; assumption.
Qed.

(** Gibbs' inequality, one entry at a time: no entry floored. *)
Lemma entropy_fold_gibbs (p : list R) (c a : R) :
  0 < c -> Forall (fun v => 1e-12 < v) p ->
  fold_left entropy_term p a
  <= a + ln c * vsum p + INR (length p) / c - vsum p.
Proof.
  intros Hc Hp. revert a.
  induction Hp as [|v p Hv Hp IH]; intros a.
  - simpl. rewrite vsum_nil. unfold Rdiv. lra.
  - cbn [fold_left]. specialize (IH (entropy_term a v)).
    rewrite vsum_cons. cbn [length]. rewrite S_INR.
    unfold entropy_term in *. destruct (Rle_dec v 1e-12); [lra|].
    assert (Hpos : 0 < v) by lra.
    assert (Hln : ln (/ (c * v)) <= / (c * v) - 1).
    { apply ln_le_minus_1. apply Rinv_0_lt_compat. nra. }
    rewrite ln_Rinv, ln_mult in Hln by nra.
    assert (Hmul : v * - (ln c + ln v) <= v * (/ (c * v) - 1))
      by (apply Rmult_le_compat_l; lra).
    assert (Hv' : v * (/ (c * v) - 1) = / c - v) by (field; lra).
    unfold Rdiv in *. lra.
Qed.

(** X7.  [entropy_norm] is never negative on a vector whose entries are at
    most [1], and it is at most [1] on a probability vector whose entries all
    exceed the floor [1e-12]. *)
Theorem entropy_norm_range (p : list R) :
  Forall (fun v => v <= 1) p ->
  0 <= entropy_norm p /\
  (Forall (fun v => 1e-12 < v) p -> vsum p = 1 -> entropy_norm p <= 1).
Proof.
  intros Hle. unfold entropy_norm.
  destruct p as [|v0 p0] eqn:Hp; [split; [lra|intros; lra]|].
  assert (Hlen : 0 < INR (length p))
    by (apply lt_0_INR; rewrite Hp; simpl; lia).
  rewrite <- Hp in *. clear Hp v0 p0.
  destruct (Rlt_dec 0 (ln (INR (length p)))) as [Hmax|_];
    [|split; [lra|intros; lra]].
  pose proof (entropy_fold_nonneg p 0 Hle) as Hnonneg.
  split.
  - apply Rmult_le_pos; [exact Hnonneg|].
    apply Rlt_le, Rinv_0_lt_compat. exact Hmax.
  - intros Hfloor Hsum.
    pose proof (entropy_fold_gibbs p (INR (length p)) 0 Hlen Hfloor) as Hg.
    rewrite Hsum in Hg.
    replace (INR (length p) / INR (length p)) with 1 in Hg by (field; lra).
    apply Rmult_le_reg_r with (ln (INR (length p))); [exact Hmax|].
    unfold Rdiv. rewrite Rmult_assoc, Rinv_l by lra. lra.
Qed.

End Entropy.

Lemma fresh_handle_entropy_one_witness :
  (2 <= 3 <= 46340)%Z /\
  Core.ssd_create (G := Tape) 3 None 5
    = Some (new_handle 3 default_params 5) /\
  entropy_norm (pi (new_handle (G := Tape) 3 default_params 5)) = 1 /\
  out_H (snd (Core.step (new_handle (G := Tape) 3 default_params 5) 1 1)) = 1.
Proof.
  split; [lia|]. split; [reflexivity|].
  apply (fresh_handle_entropy_one (G := Tape) 3 None 5); [lia|reflexivity].
Defined.

Lemma entropy_norm_range_witness :
  0 <= entropy_norm [/ 2; / 2] /\
  (Forall (fun v => 1e-12 < v) [/ 2; / 2] -> vsum [/ 2; / 2] = 1 ->
   entropy_norm [/ 2; / 2] <= 1).
Proof.
  apply (entropy_norm_range [/ 2; / 2]).
  repeat constructor; lra.
Defined.

(** ** The deterministic move of the no-jump branch *)

(** The value the action selection gives to node [k]: the inertia of the
    edge from the current node, [1e-6] lower on the self loop. *)
Definition row_value (ks : list R) (cur n k : nat) : R :=
  if Nat.eqb k cur then vget ks (idx cur k n) - 1e-6
  else vget ks (idx cur k n).

Section BestMove.

Lemma best_step_value (ks : list R) (cur n : nat) (best : nat) (bv : R)
    (k : nat) :
  best_step ks cur n (best, bv) k =
  if Rlt_dec bv (row_value ks cur n k) then (k, row_value ks cur n k)
  else (best, bv).
Proof.
  unfold best_step, row_value. destruct (Nat.eqb k cur); reflexivity.
Qed.

(** The state of the scan after the first [m] nodes. *)
Definition scan_ok (ks : list R) (cur n m : nat) (acc : nat * R) : Prop :=
  (acc = (cur, - 1e300) /\
   forall k, (k < m)%nat -> row_value ks cur n k <= - 1e300) \/
  ((fst acc < m)%nat /\ snd acc = row_value ks cur n (fst acc) /\
   - 1e300 < snd acc /\
   (forall k, (k < m)%nat -> row_value ks cur n k <= snd acc) /\
   (forall k, (k < fst acc)%nat -> row_value ks cur n k < snd acc)).

Lemma best_scan (ks : list R) (cur n m : nat) :
  scan_ok ks cur n m
    (fold_left (best_step ks cur n) (seq 0 m) (cur, - 1e300)).
Proof.
  induction m as [|m IH].
  - left. split; [reflexivity|intros k Hk; lia].
  - rewrite seq_S, fold_left_app. cbn [fold_left Nat.add].
    destruct (fold_left (best_step ks cur n) (seq 0 m) (cur, - 1e300))
      as [best bv].
    rewrite best_step_value.
    destruct IH as [[Hacc Hlow]|(Hb & Hbv & Hbig & Hmax & Hfirst)];
      cbn [fst snd] in *.
    + inversion Hacc. subst best bv.
      destruct (Rlt_dec (- 1e300) (row_value ks cur n m)) as [Hlt|Hge].
      * right. cbn [fst snd].
        split; [lia|]. split; [reflexivity|]. split; [exact Hlt|]. split.
        -- intros k Hk. destruct (Nat.eq_dec k m) as [->|Hne]; [lra|].
           specialize (Hlow k ltac:(lia)). lra.
        -- intros k Hk. specialize (Hlow k Hk). lra.
      * left. split; [reflexivity|].
        intros k Hk. destruct (Nat.eq_dec k m) as [->|Hne]; [lra|].
        apply Hlow. lia.
    + destruct (Rlt_dec bv (row_value ks cur n m)) as [Hlt|Hge].
      * right. cbn [fst snd].
        split; [lia|]. split; [reflexivity|]. split; [lra|]. split.
        -- intros k Hk. destruct (Nat.eq_dec k m) as [->|Hne]; [lra|].
           specialize (Hmax k ltac:(lia)). lra.
        -- intros k Hk. specialize (Hmax k Hk). lra.
      * right. cbn [fst snd].
        split; [lia|]. split; [exact Hbv|]. split; [exact Hbig|].
        split; [|exact Hfirst].
        intros k Hk. destruct (Nat.eq_dec k m) as [->|Hne]; [lra|].
        apply Hmax. lia.
Qed.

(** X8.  The deterministic move goes to the first node of the row whose
    value is the largest, the self loop counting [1e-6] lower: no node of the
    row has a larger value and no earlier node an equal one.  The walker
    stays where it is only if that node is the current one, or if no value of
    the row exceeds [-1e300]. *)
Theorem best_move_is_first_argmax (ks : list R) (cur n : nat) :
  (cur < n)%nat ->
  (best_move ks cur n < n)%nat /\
  ((best_move ks cur n = cur /\
    forall k, (k < n)%nat -> row_value ks cur n k <= - 1e300) \/
   ((forall k, (k < n)%nat ->
       row_value ks cur n k <= row_value ks cur n (best_move ks cur n)) /\
    (forall k, (k < best_move ks cur n)%nat ->
       row_value ks cur n k < row_value ks cur n (best_move ks cur n)))).
Proof.
  intros Hcur. split; [apply best_move_range; exact Hcur|].
  unfold best_move.
  destruct (best_scan ks cur n n)
    as [[Hacc Hlow]|(Hb & Hbv & _ & Hmax & Hfirst)].
  - left. rewrite Hacc. split; [reflexivity|exact Hlow].
  - right. rewrite <- Hbv. split; assumption.
Qed.

End BestMove.

Lemma best_move_is_first_argmax_witness :
  (best_move [0; 3; 3]%R 0 3 < 3)%nat /\
  ((best_move [0; 3; 3]%R 0 3 = O /\
    forall k, (k < 3)%nat -> row_value [0; 3; 3]%R 0 3 k <= - 1e300) \/
   ((forall k, (k < 3)%nat ->
       row_value [0; 3; 3]%R 0 3 k
       <= row_value [0; 3; 3]%R 0 3 (best_move [0; 3; 3]%R 0 3)) /\
    (forall k, (k < best_move [0; 3; 3]%R 0 3)%nat ->
       row_value [0; 3; 3]%R 0 3 k
       < row_value [0; 3; 3]%R 0 3 (best_move [0; 3; 3]%R 0 3)))).
Proof.
  apply (best_move_is_first_argmax [0; 3; 3]%R 0 3). lia.
Defined.

(** ** Weights, relaxation and decay *)

Lemma std_max_right_le (a b : R) : a <= b -> std_max a b = b.
Proof. intros Hab. unfold std_max. destruct (Rlt_dec a b); lra. Qed.

Section Accumulation.
Context {G : Type} {RT : StdRuntime G}.

Lemma Forall2_vupd_r (P : R -> R -> Prop) (a : nat) (f : R -> R)
    (v v' : list R) :
  (forall old new, P old new -> P old (f new)) ->
  Forall2 P v v' -> Forall2 P v (vupd a f v').
Proof.
  intros Hf Hv. revert a.
  induction Hv as [|x y v v' Hxy Hv IH]; intros [|a]; simpl;
    constructor; auto.
Qed.

Lemma Forall2_same (P : R -> R -> Prop) (v : list R) :
  (forall x, In x v -> P x x) -> Forall2 P v v.
Proof.
  induction v as [|x v IH]; intros HP; constructor.
  - apply HP. left. reflexivity.
  - apply IH. intros y Hy. apply HP. right. exact Hy.
Qed.

Lemma idx_in_row (cur k n : nat) :
  (cur < n)%nat -> (k < n)%nat -> (idx cur k n < n * n)%nat.
Proof. intros Hcur Hk. unfold idx. nia. Qed.

(** X9.  A step of a well-formed handle touches the weight of at most one
    edge, an edge out of the node the walker was on and inside the matrix.
    When the step jumps, the edge is the one to the node the walker lands
    on, and it gains [delta_w].  When it does not jump, the edge is the one
    to the exploration target [k], a node, and it gains [0.05], provided the
    exploration draw is below [eps] and [k] is not the current node;
    otherwise no weight changes.  With [delta_w >= 0] no weight ever
    decreases. *)
Theorem ssd_step_weights_accumulate (h h' : SSDHandle G) (p dt : R)
    (out t : SSDTelemetry) :
  handle_wf h ->
  Core.ssd_step (Some h) p dt (Some out) = (Some h', Some t) ->
  let h4 := decision_state h p dt in
  let k := explore_target h4 in
  (out_did_jump t = 1%Z \/ out_did_jump t = 0%Z) /\
  (out_did_jump t = 1%Z ->
   (idx (current h) (current h') (N h) < length (w h))%nat /\
   w h' = vupd (idx (current h) (current h') (N h))
            (fun x => x + delta_w (prm h)) (w h)) /\
  (out_did_jump t = 0%Z ->
   (k < N h)%nat /\ (idx (current h) k (N h) < length (w h))%nat /\
   w h' =
     (if Rlt_dec (explore_draw h4) (explore_eps h4 (out_kappa_mean t)) then
        if Nat.eqb k (current h) then w h
        else vupd (idx (current h) k (N h)) (fun x => x + 0.05) (w h)
      else w h)) /\
  (0 <= delta_w (prm h) -> Forall2 Rle (w h) (w h')).
Proof.
  intros Hwf Hstep h4 k.
  apply ssd_step_some in Hstep. destruct Hstep as [-> Ht].
  inversion Ht as [Ht']. clear Ht Ht' t.
  pose proof (step_wf h p dt Hwf) as (_ & Hcur' & _).
  destruct (step_frame h p dt) as (HN' & _).
  rewrite HN' in Hcur'.
  destruct Hwf as (HN & Hcur & _ & Hw & _).
  assert (Hk : (k < N h)%nat) by (apply (explore_target_range h4); exact HN).
  assert (Hjump_w :
    out_did_jump (snd (Core.step h p dt)) = 1%Z ->
    w (fst (Core.step h p dt))
    = vupd (idx (current h) (current (fst (Core.step h p dt))) (N h))
        (fun x => x + delta_w (prm h)) (w h)).
  { intros Hj. rewrite (step_jump_decision h p dt Hj). fold h4.
    apply (jump_branch_draw h4 (phase_flow h p)). }
  assert (Hstay_w :
    out_did_jump (snd (Core.step h p dt)) = 0%Z ->
    w (fst (Core.step h p dt))
    = (if Rlt_dec (explore_draw h4)
            (explore_eps h4 (out_kappa_mean (snd (Core.step h p dt))))
       then
         if Nat.eqb k (current h) then w h
         else vupd (idx (current h) k (N h)) (fun x => x + 0.05) (w h)
       else w h)).
  { intros Hj. rewrite (step_no_jump_decision h p dt Hj) at 1. fold h4.
    unfold Core.no_jump_branch. cbn [w].
    destruct (explore_draws h4 (out_kappa_mean (snd (Core.step h p dt))))
      as [_ Hw'].
    cbv zeta in Hw'. rewrite Hw'. fold k.
    change (current h4) with (current h). change (N h4) with (N h).
    change (w h4) with (w h).
    destruct (Rlt_dec _ _); [|reflexivity].
    destruct (Nat.eqb k (current h)); reflexivity. }
  assert (Hflag : out_did_jump (snd (Core.step h p dt)) = 1%Z \/
                  out_did_jump (snd (Core.step h p dt)) = 0%Z).
  { rewrite step_decision. cbv zeta. cbn [snd out_did_jump].
    destruct (Rlt_dec (jump_draw h p) (decision_probability h p dt)); auto. }
  split; [exact Hflag|]. split; [|split].
  - intros Hj. split; [|apply Hjump_w; exact Hj].
    rewrite Hw. apply idx_in_row; assumption.
  - intros Hj. split; [exact Hk|]. split; [|apply Hstay_w; exact Hj].
    rewrite Hw. apply idx_in_row; assumption.
  - intros Hdelta.
    assert (Hsame : Forall2 Rle (w h) (w h))
      by (apply Forall2_same; intros v _; lra).
    destruct Hflag as [Hj|Hj].
    + rewrite (Hjump_w Hj).
      apply Forall2_vupd_r; [intros old new Hle; lra|exact Hsame].
    + rewrite (Hstay_w Hj).
      destruct (Rlt_dec _ _); [|exact Hsame].
      destruct (Nat.eqb k (current h)); [exact Hsame|].
      apply Forall2_vupd_r; [intros old new Hle; lra|exact Hsame].
Qed.

(** Reading [indices[i]] for [i] below [m] is taking the first [m]
    entries, as long as they exist. *)
Lemma map_nth_seq (l : list nat) (m : nat) :
  (m <= length l)%nat -> map (fun i => nth i l O) (seq 0 m) = firstn m l.
Proof.
  revert m. induction l as [|a l IH]; intros [|m] Hm; simpl in *;
    try reflexivity; try lia.
  f_equal. rewrite <- seq_shift, map_map. apply IH. lia.
Qed.

Lemma fold_vupd_positions (f : R -> R) (pos : nat -> nat) (l : list nat)
    (ks : list R) :
  fold_left (fun ks i => vupd (pos i) f ks) l ks
  = fold_left (fun ks p => vupd p f ks) (map pos l) ks.
Proof.
  revert ks. induction l as [|i l IH]; intros ks; simpl; [reflexivity|].
  apply IH.
Qed.

(** A loop over distinct positions rewrites each of them once. *)
Lemma fold_vupd_get (f : R -> R) (ps : list nat) (ks : list R) (q : nat) :
  NoDup ps -> (q < length ks)%nat ->
  vget (fold_left (fun ks p => vupd p f ks) ps ks) q
  = if in_dec Nat.eq_dec q ps then f (vget ks q) else vget ks q.
Proof.
  intros Hnd. revert ks.
  induction Hnd as [|p ps Hp Hnd IH]; intros ks Hq; [reflexivity|].
  cbn [fold_left]. rewrite IH by (rewrite length_vupd; exact Hq).
  rewrite !vget_vupd by exact Hq.
  destruct (Nat.eqb q p) eqn:Hqp.
  - apply Nat.eqb_eq in Hqp. subst q.
    destruct (in_dec Nat.eq_dec p ps) as [Hin|_]; [contradiction|].
    destruct (in_dec Nat.eq_dec p (p :: ps)) as [_|Hout]; [reflexivity|].
    exfalso. apply Hout. left. reflexivity.
  - apply Nat.eqb_neq in Hqp.
    destruct (in_dec Nat.eq_dec q ps) as [Hin|Hout];
      destruct (in_dec Nat.eq_dec q (p :: ps)) as [Hin'|Hout'];
      try reflexivity; exfalso.
    + apply Hout'. right. exact Hin.
    + destruct Hin' as [Heq|Hin']; [congruence|contradiction].
Qed.

(** Inside its bounds RelaxTop walks the first [relax_count] entries of the
    sorted index vector: distinct cells of the matrix. *)
Lemma relax_top_positions (params : SSDParams) (n : nat) (j : list R) :
  relax_in_bounds params n ->
  let relax_count := relax_count_of params (n * n) in
  let indices := partial_sort (by_abs_flow j) relax_count (seq 0 (n * n)) in
  map (fun i => nth i indices O) (seq 0 relax_count)
    = firstn relax_count indices /\
  length (firstn relax_count indices) = relax_count /\
  NoDup (firstn relax_count indices) /\
  Forall (fun pos => (pos < n * n)%nat) (firstn relax_count indices).
Proof.
  intros [_ Hin] relax_count indices.
  assert (Hperm : Permutation indices (seq 0 (n * n))).
  { apply partial_sort_perm. rewrite length_seq. exact Hin. }
  assert (Hlen : length indices = (n * n)%nat)
    by (rewrite (Permutation_length Hperm); apply length_seq).
  assert (Hnd : NoDup indices).
  { apply (Permutation_NoDup (Permutation_sym Hperm)). apply seq_NoDup. }
  fold relax_count in Hin.
  split; [apply map_nth_seq; lia|].
  split; [rewrite length_firstn; lia|].
  split.
  - rewrite <- (firstn_skipn relax_count indices) in Hnd.
    apply NoDup_app_remove_r in Hnd. exact Hnd.
  - apply Forall_forall. intros pos Hpos.
    assert (Hmem : In pos (seq 0 (n * n))).
    { apply (Permutation_in _ Hperm).
      rewrite <- (firstn_skipn relax_count indices).
      apply in_or_app. left. exact Hpos. }
    apply in_seq in Hmem. lia.
Qed.

(** X10.  RelaxTop, inside its bounds ([relax_count <= N * N]) and on an
    [N * N] matrix: the loop walks the first [relax_count] entries of the
    sorted index vector, which are that many distinct cells of the matrix;
    each of them is lowered once, to [max(kappa - eps_relax, kappa_min)],
    and every other cell keeps its value.  So with [eps_relax >= 0], on a
    matrix that respects the floor, every entry afterwards lies between
    [kappa_min] and its value before, whichever edges the partial sort puts
    first. *)
Theorem relax_top_only_lowers (params : SSDParams) (n : nat) (j ks : list R) :
  relax_in_bounds params n -> length ks = (n * n)%nat ->
  let relax_count := relax_count_of params (n * n) in
  let relaxed :=
    firstn relax_count
      (partial_sort (by_abs_flow j) relax_count (seq 0 (n * n))) in
  length relaxed = relax_count /\ NoDup relaxed /\
  Forall (fun pos => (pos < length ks)%nat) relaxed /\
  length (Core.relax_top params n j ks) = length ks /\
  (forall q, (q < length ks)%nat ->
     vget (Core.relax_top params n j ks) q
     = if in_dec Nat.eq_dec q relaxed
       then std_max (vget ks q - eps_relax params) (kappa_min params)
       else vget ks q) /\
  (0 <= eps_relax params ->
   Forall (fun k => kappa_min params <= k) ks ->
   Forall2 (fun old new => kappa_min params <= new <= old) ks
     (Core.relax_top params n j ks)).
Proof.
  intros Hin Hlen relax_count relaxed.
  destruct (relax_top_positions params n j Hin)
    as (Hmap & Hcount & Hnd & Hrange).
  fold relax_count in Hmap, Hcount, Hnd, Hrange.
  fold relaxed in Hmap, Hcount, Hnd, Hrange.
  split; [exact Hcount|]. split; [exact Hnd|].
  split; [rewrite Hlen; exact Hrange|].
  split; [apply relax_top_length|]. split.
  - intros q Hq. unfold Core.relax_top. fold relax_count.
    rewrite (fold_vupd_positions
               (fun k => std_max (k - eps_relax params) (kappa_min params))
               (fun i =>
                  nth i (partial_sort (by_abs_flow j) relax_count
                           (seq 0 (n * n))) O)).
    rewrite Hmap. apply fold_vupd_get; assumption.
  - intros Heps Hks. unfold Core.relax_top.
    assert (Hstart : Forall2 (fun old new => kappa_min params <= new <= old)
                       ks ks).
    { apply Forall2_same. rewrite Forall_forall in Hks.
      intros v Hv. specialize (Hks v Hv). lra. }
    revert Hstart. generalize ks at 2 4 as cur.
    generalize (seq 0 (relax_count_of params (n * n))) as l.
    induction l as [|i l IH]; intros cur Hcur; simpl; [exact Hcur|].
    apply IH. apply Forall2_vupd_r; [|exact Hcur].
    intros old new [Hlo Hhi]. unfold std_max.
    destruct (Rlt_dec (new - eps_relax params) (kappa_min params)); lra.
Qed.

Lemma update_kappa_no_drive (params : SSDParams) (dt : R) (ks : list R)
    (s : G) :
  ~ 0 < eps_noise params ->
  Core.update_kappa params 0 dt ks (fst (align_flow params 0 ks s))
  = map (fun k =>
           std_max (k - lam params * (k - kappa_min params) * dt)
             (kappa_min params)) ks.
Proof.
  intros Hnoise. rewrite align_flow_no_noise by exact Hnoise. cbn [fst].
  unfold Core.update_kappa.
  induction ks as [|k ks IH]; [reflexivity|].
  cbn [map combine]. rewrite IH. f_equal.
  unfold Core.update_edge. f_equal. ring.
Qed.

(** X11.  Without drive and without flow noise, phases 2 and 3 only decay:
    for [lam * dt >= 0] every inertia entry stays between [kappa_min] and its
    value before, its distance to the floor shrinking by the factor
    [1 - lam * dt] as long as [lam * dt <= 1]; for [beta_E * dt >= 0] the
    heat stays between [0] and its value before. *)
Theorem no_drive_decays (params : SSDParams) (dt E0 : R) (ks : list R)
    (s : G) :
  ~ 0 < eps_noise params ->
  Forall (fun k => kappa_min params <= k) ks ->
  0 <= lam params * dt -> 0 <= beta_E params * dt -> 0 <= E0 ->
  Forall2
    (fun old new =>
       kappa_min params <= new <= old /\
       (lam params * dt <= 1 ->
        new - kappa_min params
        = (1 - lam params * dt) * (old - kappa_min params)))
    ks (Core.update_kappa params 0 dt ks (fst (align_flow params 0 ks s))) /\
  0 <= Core.update_heat params 0
         (flow_norm (fst (align_flow params 0 ks s))) dt E0 <= E0.
Proof.
  intros Hnoise Hks Hlam Hbeta HE. split.
  - rewrite update_kappa_no_drive by exact Hnoise.
    induction Hks as [|k ks Hk Hks IH]; cbn [map]; constructor; [|exact IH].
    unfold std_max.
    destruct (Rlt_dec (k - lam params * (k - kappa_min params) * dt)
                (kappa_min params)) as [Hlt|Hge].
    + split; [lra|]. intros Hle. nra.
    + split; [nra|]. intros _. ring.
  - unfold Core.update_heat.
    pose proof (sqrt_pos (fold_left (fun acc val => acc + val * val)
                            (fst (align_flow params 0 ks s)) 0)) as HJ.
    fold (flow_norm (fst (align_flow params 0 ks s))) in HJ.
    rewrite Rabs_R0.
    rewrite (std_max_right_le
               (0 - flow_norm (fst (align_flow params 0 ks s))) 0)
      by lra.
    unfold std_max. destruct (Rlt_dec _ 0); nra.
Qed.

End Accumulation.

Lemma ssd_step_weights_accumulate_witness :
  handle_wf jump_handle /\
  Core.ssd_step (Some jump_handle) 1 1 (Some stale_telemetry)
    = (Some jump_post, Some jump_telemetry) /\
  out_did_jump jump_telemetry = 1%Z /\
  w jump_post
  = vupd (idx (current jump_handle) (current jump_post) (N jump_handle))
      (fun x => x + delta_w (prm jump_handle)) (w jump_handle) /\
  Forall2 Rle (w jump_handle) (w jump_post).
Proof.
  assert (Hwf : handle_wf jump_handle)
    by (unfold handle_wf; simpl; repeat split; lia).
  assert (Hd : 0 <= delta_w (prm jump_handle)) by (simpl; lra).
  split; [exact Hwf|]. split; [apply jump_ssd_step|].
  split; [reflexivity|].
  destruct (ssd_step_weights_accumulate jump_handle jump_post 1 1
              stale_telemetry jump_telemetry Hwf
              (jump_ssd_step stale_telemetry))
    as (_ & Hjump & _ & Hle).
  split; [apply (Hjump eq_refl)|apply Hle; exact Hd].
Defined.

Lemma relax_top_only_lowers_witness :
  relax_in_bounds default_params 2 /\
  length [1; 2; 0; 3] = (2 * 2)%nat /\
  length (Core.relax_top (G := Tape) default_params 2 [0; 0; 0; / 2]
            [1; 2; 0; 3]) = length [1; 2; 0; 3] /\
  Forall2 (fun old new => kappa_min default_params <= new <= old) [1; 2; 0; 3]
    (Core.relax_top (G := Tape) default_params 2 [0; 0; 0; / 2] [1; 2; 0; 3]).
Proof.
  assert (Hin : relax_in_bounds default_params 2)
    by (apply relax_in_bounds_unit; simpl; [lra|lia]).
  split; [exact Hin|]. split; [reflexivity|].
  destruct (relax_top_only_lowers (G := Tape) default_params 2
              [0; 0; 0; / 2] [1; 2; 0; 3] Hin eq_refl)
    as (_ & _ & _ & Hlen & _ & Hlow).
  split; [exact Hlen|]. apply Hlow.
  - simpl. lra.
  - simpl. repeat constructor; lra.
Defined.

Lemma no_drive_decays_witness :
  Forall2
    (fun old new =>
       kappa_min default_params <= new <= old /\
       (lam default_params * 1 <= 1 ->
        new - kappa_min default_params
        = (1 - lam default_params * 1) * (old - kappa_min default_params)))
    [1; 2]
    (Core.update_kappa default_params 0 1 [1; 2]
       (fst (align_flow (G := Tape) default_params 0 [1; 2]
               {| uniforms := []; normals := [] |}))) /\
  0 <= Core.update_heat default_params 0
         (flow_norm
            (fst (align_flow (G := Tape) default_params 0 [1; 2]
                    {| uniforms := []; normals := [] |}))) 1 4 <= 4.
Proof.
  apply (no_drive_decays (G := Tape) default_params 1 4 [1; 2]
           {| uniforms := []; normals := [] |}).
  - simpl. lra.
  - simpl. repeat constructor; lra.
  - simpl. lra.
  - simpl. lra.
  - lra.
Defined.

(** ** The flow norm and the alignment efficiency *)

Section Efficiency.
Context {G : Type} {RT : StdRuntime G}.

Lemma sumsq_nonneg (l : list R) (a : R) :
  0 <= a -> 0 <= fold_left (fun acc val => acc + val * val) l a.
Proof.
  revert a. induction l as [|v l IH]; intros a Ha; simpl; [exact Ha|].
  apply IH. nra.
Qed.

Lemma sumsq_scale (c : R -> R) (p : R) (ks : list R) (a : R) :
  fold_left (fun acc val => acc + val * val)
    (map (fun k => c k * p) ks) (p * p * a)
  = p * p * fold_left (fun acc val => acc + val * val) (map c ks) a.
Proof.
  revert a. induction ks as [|k ks IH]; intros a; simpl; [reflexivity|].
  rewrite <- IH. f_equal. ring.
Qed.

Lemma flow_norm_scale (c : R -> R) (p : R) (ks : list R) :
  flow_norm (map (fun k => c k * p) ks) = Rabs p * flow_norm (map c ks).
Proof.
  unfold flow_norm.
  replace 0 with (p * p * 0) at 1 by ring.
  rewrite sumsq_scale, sqrt_mult.
  - f_equal. change (p * p) with (Rsqr p). apply sqrt_Rsqr_abs.
  - nra.
  - apply sumsq_nonneg. lra.
Qed.

Lemma step_align_eff (h : SSDHandle G) (p dt : R) :
  out_align_eff (snd (Core.step h p dt)) =
  if Rlt_dec 1e-8 (Rabs p)
  then flow_norm (fst (align_flow (prm h) p (kappa h) (rng h))) / Rabs p
  else 0.
Proof.
  unfold Core.step.
  destruct (align_flow (prm h) p (kappa h) (rng h)) as [j s].
  destruct (uni01 s) as [u s1]. reflexivity.
Qed.

(** X12.  Without flow noise the flow norm is proportional to the size of
    the drive, [J_norm = |p| * sqrt(sum (G0 + g * kappa)^2)], so the alignment
    efficiency a step reports for [|p| > 1e-8] depends on the inertia alone,
    not on the drive; for [|p| <= 1e-8] it is [0]. *)
Theorem align_efficiency_drive_free (h : SSDHandle G) (p dt : R) :
  ~ 0 < eps_noise (prm h) ->
  out_J_norm (snd (Core.step h p dt))
  = Rabs p
    * flow_norm (map (fun k => G0 (prm h) + g (prm h) * k) (kappa h)) /\
  (1e-8 < Rabs p ->
   out_align_eff (snd (Core.step h p dt))
   = flow_norm (map (fun k => G0 (prm h) + g (prm h) * k) (kappa h))) /\
  (Rabs p <= 1e-8 -> out_align_eff (snd (Core.step h p dt)) = 0).
Proof.
  intros Hnoise.
  assert (Hnorm :
    flow_norm (fst (align_flow (prm h) p (kappa h) (rng h)))
    = Rabs p
      * flow_norm (map (fun k => G0 (prm h) + g (prm h) * k) (kappa h))).
  { rewrite align_flow_no_noise by exact Hnoise. cbn [fst].
    apply (flow_norm_scale (fun k => G0 (prm h) + g (prm h) * k)). }
  rewrite step_J_norm, step_align_eff, Hnorm.
  split; [reflexivity|]. split; intros Hp.
  - destruct (Rlt_dec 1e-8 (Rabs p)); [|lra]. field. lra.
  - destruct (Rlt_dec 1e-8 (Rabs p)); [lra|reflexivity].
Qed.

End Efficiency.

Lemma align_efficiency_drive_free_witness :
  out_J_norm (snd (Core.step jump_handle 3 1))
  = Rabs 3
    * flow_norm (map (fun k => G0 jump_params + g jump_params * k)
                   (kappa jump_handle)) /\
  (1e-8 < Rabs 3 ->
   out_align_eff (snd (Core.step jump_handle 3 1))
   = flow_norm (map (fun k => G0 jump_params + g jump_params * k)
                  (kappa jump_handle))) /\
  (Rabs 3 <= 1e-8 -> out_align_eff (snd (Core.step jump_handle 3 1)) = 0).
Proof.
  apply (align_efficiency_drive_free jump_handle 3 1). simpl. lra.
Defined.

(** ** The policy and the sampling of the jump branch *)

Section Sampling.
Context {G : Type} {RT : StdRuntime G}.





(** X14.  The categorical sampling never falls back and never selects a node
    of probability zero: on a non-empty vector without negative entries, a
    draw [0 < r] not above the sum returns an index inside the vector whose
    entry is positive; a draw [r <= 0] returns index 0. *)
Theorem sample_cdf_positive_entry (pis : list R) (r : R) (fallback : nat) :
  pis <> [] -> Forall (fun v => 0 <= v) pis -> r <= vsum pis ->
  (sample_cdf r pis 0 0 fallback < length pis)%nat /\
  (0 < r -> 0 < vget pis (sample_cdf r pis 0 0 fallback)) /\
  (r <= 0 -> sample_cdf r pis 0 0 fallback = O).
Proof.
  intros Hne Hpos Hsum.
  destruct (sample_cdf_first pis r 0 0 fallback
              ltac:(lra) ltac:(right; exact Hne))
    as (i & Hres & Hi & Hreach & Hbefore).
  rewrite Hres. cbn [Nat.add]. rewrite Rplus_0_l in Hreach.
  split; [exact Hi|]. split.
  - intros Hr. rewrite cdf_upto_S in Hreach by exact Hi.
    destruct i as [|i].
    + rewrite cdf_upto_0 in Hreach. lra.
    + specialize (Hbefore i ltac:(lia)). lra.
  - intros Hr. destruct i as [|i]; [reflexivity|].
    specialize (Hbefore O ltac:(lia)).
    pose proof (cdf_upto_mono pis 0 1 Hpos ltac:(lia)) as Hmono.
    rewrite cdf_upto_0 in Hmono. lra.
Qed.

End Sampling.


Lemma sample_cdf_positive_entry_witness :
  (sample_cdf (/ 2)%R [0; 1]%R 0 0%R 1 < length [0; 1]%R)%nat /\
  (0 < / 2 -> 0 < vget [0; 1] (sample_cdf (/ 2) [0; 1] 0 0 1)) /\
  (/ 2 <= 0 -> sample_cdf (/ 2) [0; 1] 0 0 1 = O).
Proof.
  apply (sample_cdf_positive_entry [0; 1] (/ 2) 1).
  - discriminate.
  - repeat constructor; lra.
  - unfold vsum. simpl. lra.
Defined.

(** ** The neuromodulator state ([neuro_core.cpp]) *)

(** Every component lies in [0,1]. *)
Definition in01 (s : Neuro.NeuroState) : Prop :=
  0 <= Neuro.DA s <= 1 /\ 0 <= Neuro.S5 s <= 1 /\ 0 <= Neuro.NE s <= 1 /\
  0 <= Neuro.AD s <= 1 /\ 0 <= Neuro.END s <= 1 /\ 0 <= Neuro.OXT s <= 1 /\
  0 <= Neuro.CORT s <= 1.

(** Every time constant is above the threshold [1e-3] under which [Tick]
    skips a component, and [dt] is within every time constant. *)
Definition taus_cover (c : Neuro.NeuroCore) (dt : R) : Prop :=
  Forall (fun tau => 1e-3 < tau /\ dt <= tau)
    [Neuro.tau_DA c; Neuro.tau_S5 c; Neuro.tau_NE c; Neuro.tau_AD c;
     Neuro.tau_END c; Neuro.tau_OXT c; Neuro.tau_CORT c].

(** The distance of each component to its baseline, signed. *)
Definition gap (c : Neuro.NeuroCore) : list R :=
  let b := Neuro.baseline c in
  let s := Neuro.x c in
  [Neuro.DA b - Neuro.DA s; Neuro.S5 b - Neuro.S5 s;
   Neuro.NE b - Neuro.NE s; Neuro.AD b - Neuro.AD s;
   Neuro.END b - Neuro.END s; Neuro.OXT b - Neuro.OXT s;
   Neuro.CORT b - Neuro.CORT s].

Lemma clamp01_range (v : R) : 0 <= Neuro.clamp01 v <= 1.
Proof.
  unfold Neuro.clamp01. destruct (Rlt_dec v 0); [lra|].
  destruct (Rlt_dec 1 v); lra.
Qed.

Lemma clamp01_inside (v : R) : 0 <= v <= 1 -> Neuro.clamp01 v = v.
Proof.
  intros Hv. unfold Neuro.clamp01. destruct (Rlt_dec v 0); [lra|].
  destruct (Rlt_dec 1 v); lra.
Qed.

Lemma neuro_step_range (dt v b tau : R) :
  0 <= v <= 1 -> 0 <= Neuro.step dt v b tau <= 1.
Proof.
  intros Hv. unfold Neuro.step.
  destruct (Rle_dec tau 1e-3); [exact Hv|apply clamp01_range].
Qed.

Lemma add_event_in01 (s delta : Neuro.NeuroState) :
  in01 (Neuro.add_event s delta).
Proof.
  unfold in01, Neuro.add_event, Neuro.add_clamp. simpl.
  repeat split; apply clamp01_range.
Qed.

Lemma apply_first_cases (events : list (String.string * Neuro.NeuroState))
    (id : String.string) (s : Neuro.NeuroState) :
  (~ In id (map fst events) /\ Neuro.apply_first events id s = s) \/
  (In id (map fst events) /\
   exists delta, In (id, delta) events /\
     Neuro.apply_first events id s = Neuro.add_event s delta).
Proof.
  induction events as [|[event_id delta] events IH]; simpl.
  - left. split; [tauto|reflexivity].
  - destruct (String.eqb id event_id) eqn:Heq.
    + apply String.eqb_eq in Heq. subst event_id. right.
      split; [left; reflexivity|]. exists delta.
      split; [left; reflexivity|reflexivity].
    + apply String.eqb_neq in Heq.
      destruct IH as [[Hnot Hsame]|(Hin & d & Hd & Hres)].
      * left. split; [|exact Hsame].
        intros [Heq'|Hin]; [congruence|contradiction].
      * right. split; [right; exact Hin|].
        exists d. split; [right; exact Hd|exact Hres].
Qed.

(** X16.  The neuromodulator state stays normalised: from a state whose
    seven components lie in [0,1], [NeuroCore::Tick] (any [dt], any baseline,
    any time constants) and [NeuroCore::ApplyEvent] (any identifier) lead to
    a state whose seven components lie in [0,1]. *)
Theorem neuro_state_stays_in_range (c : Neuro.NeuroCore) (dt : R)
    (id : String.string) :
  in01 (Neuro.x c) ->
  in01 (Neuro.x (Neuro.Tick c dt)) /\
  in01 (Neuro.x (Neuro.ApplyEvent c id)).
Proof.
  intros Hin. split.
  - destruct Hin as (H1 & H2 & H3 & H4 & H5 & H6 & H7).
    unfold in01, Neuro.Tick. simpl.
    repeat split; apply neuro_step_range; assumption.
  - unfold Neuro.ApplyEvent. cbn [Neuro.x].
    destruct (apply_first_cases Neuro.kEvents id (Neuro.x c))
      as [[_ ->]|(_ & delta & _ & ->)]; [exact Hin|apply add_event_in01].
Qed.

Lemma neuro_step_relaxes (dt v b tau : R) :
  1e-3 < tau -> 0 <= dt <= tau -> 0 <= v <= 1 -> 0 <= b <= 1 ->
  b - Neuro.step dt v b tau = (1 - dt / tau) * (b - v) /\
  0 <= 1 - dt / tau <= 1.
Proof.
  intros Htau Hdt Hv Hb.
  assert (Hq : 0 <= dt / tau <= 1).
  { split.
    - apply Rmult_le_pos; [lra|]. apply Rlt_le, Rinv_0_lt_compat. lra.
    - apply Rmult_le_reg_r with tau; [lra|].
      unfold Rdiv. rewrite Rmult_assoc, Rinv_l by lra. lra. }
  unfold Neuro.step. destruct (Rle_dec tau 1e-3); [lra|].
  rewrite clamp01_inside by nra. split; [ring|lra].
Qed.

Lemma gap_shrinks (q d : R) :
  0 <= q <= 1 -> Rabs (q * d) <= Rabs d /\ 0 <= d * (q * d).
Proof.
  intros Hq. split.
  - rewrite Rabs_mult, (Rabs_pos_eq q) by lra.
    pose proof (Rabs_pos d). nra.
  - nra.
Qed.

(** X17.  [NeuroCore::Tick] relaxes without overshoot: when every time
    constant exceeds [1e-3], [0 <= dt] is within every time constant, and
    state and baseline lie in [0,1], every component ends between its old
    value and its baseline (the gap keeps its sign and does not grow). *)
Theorem neuro_tick_no_overshoot (c : Neuro.NeuroCore) (dt : R) :
  taus_cover c dt -> 0 <= dt ->
  in01 (Neuro.x c) -> in01 (Neuro.baseline c) ->
  Forall2 (fun before after => Rabs after <= Rabs before /\ 0 <= before * after)
    (gap c) (gap (Neuro.Tick c dt)).
Proof.
  intros Htaus Hdt (X1 & X2 & X3 & X4 & X5 & X6 & X7)
    (B1 & B2 & B3 & B4 & B5 & B6 & B7).
  unfold taus_cover in Htaus.
  repeat match goal with
         | H : Forall _ (_ :: _) |- _ => inversion H; clear H; subst
         end.
  unfold gap, Neuro.Tick. simpl.
  repeat (constructor;
    [match goal with
     | |- context [Neuro.step dt ?v ?b ?tau] =>
         destruct (neuro_step_relaxes dt v b tau
                     ltac:(tauto) ltac:(lra) ltac:(lra) ltac:(lra))
           as [-> Hq];
         apply gap_shrinks; exact Hq
     end|]).
  constructor.
Qed.

(** X18.  A state that sits on its baseline inside [0,1] is a fixed point of
    [NeuroCore::Tick], whatever [dt] and the time constants. *)
Theorem neuro_tick_fixed_point (c : Neuro.NeuroCore) (dt : R) :
  Neuro.x c = Neuro.baseline c -> in01 (Neuro.x c) ->
  Neuro.Tick c dt = c.
Proof.
  intros Heq (X1 & X2 & X3 & X4 & X5 & X6 & X7).
  destruct c as [b s t1 t2 t3 t4 t5 t6 t7]. simpl in *. subst b.
  destruct s as [v1 v2 v3 v4 v5 v6 v7]. simpl in *.
  assert (Hstep : forall v tau, 0 <= v <= 1 -> Neuro.step dt v v tau = v).
  { intros v tau Hv. unfold Neuro.step.
    destruct (Rle_dec tau 1e-3); [reflexivity|].
    replace (v + (v - v) * (dt / tau)) with v by ring.
    apply clamp01_inside. exact Hv. }
  unfold Neuro.Tick. simpl.
  rewrite !Hstep by assumption. reflexivity.
Qed.

(** X19.  [NeuroCore::ApplyEvent] with an identifier that is not one of the
    five of [kEvents] changes nothing; with one of the five it leaves a state
    whose components lie in [0,1], whatever the state was; it never touches
    the baseline. *)
Theorem neuro_apply_event_cases (c : Neuro.NeuroCore) (id : String.string) :
  (~ In id (map fst Neuro.kEvents) -> Neuro.ApplyEvent c id = c) /\
  (In id (map fst Neuro.kEvents) -> in01 (Neuro.x (Neuro.ApplyEvent c id))) /\
  Neuro.baseline (Neuro.ApplyEvent c id) = Neuro.baseline c.
Proof.
  unfold Neuro.ApplyEvent.
  destruct (apply_first_cases Neuro.kEvents id (Neuro.x c))
    as [[Hnot Hsame]|(Hin & delta & _ & Hres)].
  - split; [|split; [tauto|reflexivity]].
    intros _. rewrite Hsame. destruct c. reflexivity.
  - split; [tauto|]. split; [|reflexivity].
    intros _. cbn [Neuro.x]. rewrite Hres. apply add_event_in01.
Qed.

(** On [stirred_core] the clamps are at work: a tick of [100] seconds
    overshoots the baseline of dopamine and is cut at [0]; the event
    [praise] pushes dopamine and oxytocin above [1] and cortisol below [0]. *)
Lemma neuro_state_stays_in_range_witness :
  in01 (Neuro.x NeuroRun.stirred_core) /\
  in01 (Neuro.x (Neuro.Tick NeuroRun.stirred_core 100)) /\
  in01 (Neuro.x (Neuro.ApplyEvent NeuroRun.stirred_core NeuroRun.praise)) /\
  Neuro.DA (Neuro.x (Neuro.Tick NeuroRun.stirred_core 100)) = 0 /\
  Neuro.DA (Neuro.x (Neuro.ApplyEvent NeuroRun.stirred_core NeuroRun.praise))
    = 1 /\
  Neuro.CORT (Neuro.x (Neuro.ApplyEvent NeuroRun.stirred_core NeuroRun.praise))
    = 0.
Proof.
  assert (Hin : in01 (Neuro.x NeuroRun.stirred_core))
    by (unfold in01; simpl; lra).
  split; [exact Hin|].
  destruct (neuro_state_stays_in_range NeuroRun.stirred_core 100
              NeuroRun.praise Hin) as [Htick Hevent].
  split; [exact Htick|]. split; [exact Hevent|].
  split; [|split].
  - unfold Neuro.Tick, Neuro.step, Neuro.clamp01. simpl. rdec. reflexivity.
  - unfold Neuro.ApplyEvent. simpl.
    unfold Neuro.add_clamp, Neuro.clamp01. rdec. reflexivity.
  - unfold Neuro.ApplyEvent. simpl.
    unfold Neuro.add_clamp, Neuro.clamp01. rdec. reflexivity.
Defined.

(** On [stirred_core] a tick of [4] seconds, within every time constant,
    moves six of the seven components towards the baseline. *)
Lemma neuro_tick_no_overshoot_witness :
  taus_cover NeuroRun.stirred_core 4 /\ 0 <= 4 /\
  in01 (Neuro.x NeuroRun.stirred_core) /\
  in01 (Neuro.baseline NeuroRun.stirred_core) /\
  Forall2 (fun before after => Rabs after <= Rabs before /\ 0 <= before * after)
    (gap NeuroRun.stirred_core) (gap (Neuro.Tick NeuroRun.stirred_core 4)) /\
  gap NeuroRun.stirred_core <> gap (Neuro.Tick NeuroRun.stirred_core 4).
Proof.
  assert (Htaus : taus_cover NeuroRun.stirred_core 4)
    by (unfold taus_cover; simpl; repeat constructor; lra).
  assert (Hdt : 0 <= 4) by lra.
  assert (Hx : in01 (Neuro.x NeuroRun.stirred_core))
    by (unfold in01; simpl; lra).
  assert (Hb : in01 (Neuro.baseline NeuroRun.stirred_core))
    by (unfold in01; simpl; lra).
  split; [exact Htaus|]. split; [exact Hdt|]. split; [exact Hx|].
  split; [exact Hb|].
  split; [exact (neuro_tick_no_overshoot NeuroRun.stirred_core 4
                   Htaus Hdt Hx Hb)|].
  intros Heq. apply (f_equal (fun l => nth 0 l 0)) in Heq.
  revert Heq. unfold gap, Neuro.Tick, Neuro.step, Neuro.clamp01. simpl.
  rdec. lra.
Defined.

Lemma neuro_tick_fixed_point_witness :
  Neuro.Tick Neuro.default_core 1 = Neuro.default_core.
Proof.
  apply (neuro_tick_fixed_point Neuro.default_core 1).
  - reflexivity.
  - unfold in01. simpl. lra.
Defined.

(** ** The mapping from neuromodulators to parameters
       ([neuro_ssd_bridge.cpp]) *)

(** The nineteen parameter fields [MapNeuroToSSD] does not assign. *)
Definition same_unmapped (p q : SSDParams) : Prop :=
  G0 q = G0 p /\ g q = g p /\ eps_noise q = eps_noise p /\ rho q = rho p /\
  kappa_min q = kappa_min p /\ a1 q = a1 p /\ a2 q = a2 p /\
  gamma q = gamma p /\ c1 q = c1 p /\ c2 q = c2 p /\
  delta_w q = delta_w p /\ delta_kappa q = delta_kappa p /\
  c0_cool q = c0_cool p /\ q_relax q = q_relax p /\
  eps_relax q = eps_relax p /\ eps0 q = eps0 p /\ d1 q = d1 p /\
  d2 q = d2 p /\ b_path q = b_path p.

(** The ranges [MapNeuroToSSD] clips the eight fields it assigns to. *)
Definition mapped_in_range (p : SSDParams) : Prop :=
  0 <= T0 p <= 1 /\ 0 <= Theta0 p <= 1 /\ 0 <= h0 p <= 1 /\
  0 <= sigma p <= 1 /\
  1e-6 <= eta p /\ 1e-6 <= lam p /\ 1e-6 <= alpha p /\ 1e-6 <= beta_E p.

Lemma clip01_range (v : R) : 0 <= Bridge.clip01 v <= 1.
Proof.
  unfold Bridge.clip01. destruct (Rlt_dec v 0); [lra|].
  destruct (Rlt_dec 1 v); lra.
Qed.

Lemma clip01_inside (v : R) : 0 <= v <= 1 -> Bridge.clip01 v = v.
Proof.
  intros Hv. unfold Bridge.clip01. destruct (Rlt_dec v 0); [lra|].
  destruct (Rlt_dec 1 v); lra.
Qed.

Lemma clipPos_floor (v : R) : 1e-6 <= Bridge.clipPos v.
Proof. unfold Bridge.clipPos. destruct (Rlt_dec v 1e-6); lra. Qed.

Lemma clipPos_inside (v : R) : 1e-6 <= v -> Bridge.clipPos v = v.
Proof. intros Hv. unfold Bridge.clipPos. destruct (Rlt_dec v 1e-6); lra. Qed.

Lemma map_neuro_sane (n : Neuro.NeuroState) (p : SSDParams) :
  mapped_in_range (Bridge.MapNeuroToSSD n p) /\
  same_unmapped p (Bridge.MapNeuroToSSD n p).
Proof.
  unfold mapped_in_range, same_unmapped, Bridge.MapNeuroToSSD. simpl.
  repeat split; try apply clip01_range; apply clipPos_floor.
Qed.

(** X20.  Whatever the neuromodulator state and the parameters before,
    [MapNeuroToSSD] leaves [T0], [Theta0], [h0] and [sigma] in [0,1] and
    [eta], [lam], [alpha] and [beta_E] at [1e-6] or above, and it changes no
    other field: the inertia floor, the rewire amounts, the cooling factor
    and the relaxation and exploration parameters stay as they were. *)
Theorem map_neuro_ranges_and_frame (n : Neuro.NeuroState) (p : SSDParams) :
  mapped_in_range (Bridge.MapNeuroToSSD n p) /\
  same_unmapped p (Bridge.MapNeuroToSSD n p).
Proof. apply map_neuro_sane. Qed.

(** X21.  At the neutral neuromodulator state (every component [0.5]) the
    mapping changes nothing in parameters that are already inside the
    clipping ranges; the default parameters are such. *)
Theorem map_neuro_neutral_fixed_point (p : SSDParams) :
  mapped_in_range p ->
  Bridge.MapNeuroToSSD Neuro.default_state p = p /\
  mapped_in_range default_params.
Proof.
  intros (HT & HTh & Hh & Hs & He & Hl & Ha & Hb). split.
  - destruct p as [v1 v2 v3 v4 v5 v6 v7 v8 v9 v10 v11 v12 v13 v14 v15 v16 v17
                   v18 v19 v20 v21 v22 v23 v24 v25 v26 v27].
    unfold Bridge.MapNeuroToSSD, Bridge.dev.
    cbn [G0 g eps_noise eta rho lam kappa_min alpha beta_E Theta0 a1 a2 h0
         gamma T0 c1 c2 sigma delta_w delta_kappa c0_cool q_relax eps_relax
         eps0 d1 d2 b_path Neuro.DA Neuro.S5 Neuro.NE Neuro.AD Neuro.END
         Neuro.OXT Neuro.CORT Neuro.default_state] in *.
    assert (Hpos : forall v, 1e-6 <= v ->
              Bridge.clipPos (v + 0.10 * (2 * 0.5 - 1)) = v /\
              Bridge.clipPos (v + 0.10 * (2 * 0.5 - 1) - 0.10 * (2 * 0.5 - 1))
              = v /\
              Bridge.clipPos (v + 0.15 * (2 * 0.5 - 1) - 0.10 * (2 * 0.5 - 1))
              = v /\
              Bridge.clipPos (v + 0.10 * (2 * 0.5 - 1) + 0.10 * (2 * 0.5 - 1))
              = v).
    { intros v Hv. repeat split; rewrite clipPos_inside; lra. }
    assert (H01 : forall v, 0 <= v <= 1 ->
              Bridge.clip01 (v + 0.20 * (2 * 0.5 - 1) - 0.15 * (2 * 0.5 - 1)
                             + 0.10 * (2 * 0.5 - 1)) = v /\
              Bridge.clip01 (v + 0.25 * (2 * 0.5 - 1) + 0.20 * (2 * 0.5 - 1)
                             - 0.25 * (2 * 0.5 - 1)) = v /\
              Bridge.clip01 (v + 0.20 * (2 * 0.5 - 1) + 0.15 * (2 * 0.5 - 1)
                             - 0.15 * (2 * 0.5 - 1)) = v /\
              Bridge.clip01 (v + 0.05 * (2 * 0.5 - 1) - 0.05 * (2 * 0.5 - 1))
              = v).
    { intros v Hv. repeat split; rewrite clip01_inside; lra. }
    destruct (Hpos v4 He) as (_ & -> & _ & _).
    destruct (Hpos v6 Hl) as (-> & _ & _ & _).
    destruct (Hpos v8 Ha) as (_ & _ & -> & _).
    destruct (Hpos v9 Hb) as (_ & _ & _ & ->).
    destruct (H01 v15 HT) as (-> & _ & _ & _).
    destruct (H01 v10 HTh) as (_ & -> & _ & _).
    destruct (H01 v13 Hh) as (_ & _ & -> & _).
    destruct (H01 v18 Hs) as (_ & _ & _ & ->).
    reflexivity.
  - unfold mapped_in_range. simpl. lra.
Qed.

Lemma map_neuro_neutral_fixed_point_witness :
  mapped_in_range default_params /\
  Bridge.MapNeuroToSSD Neuro.default_state default_params = default_params.
Proof.
  assert (Hr : mapped_in_range default_params)
    by (unfold mapped_in_range; simpl; lra).
  split; [exact Hr|].
  exact (proj1 (map_neuro_neutral_fixed_point default_params Hr)).
Defined.

(** ** The invariants on the second implementation and on the whole system *)

Section SystemInvariants.
Context {G : Type} {RT : StdRuntime G}.

Lemma step_floor_and_heat (h : SSDHandle G) (p dt : R) :
  0 <= delta_kappa (prm h) -> 0 <= c0_cool (prm h) ->
  Forall (fun k => kappa_min (prm h) <= k) (kappa (fst (Core.step h p dt))) /\
  0 <= E (fst (Core.step h p dt)).
Proof.
  intros Hdelta Hcool.
  open_step h p dt j s u s1 Hflow Hu Hjump; cbn [fst].
  - split.
    + match goal with
      | |- context [Core.jump_branch ?h4 j] =>
          apply (jump_branch_floor h4 j); cbn [prm kappa]; [exact Hdelta|]
      end.
      apply update_kappa_floor.
    + rewrite jump_branch_E. cbn [E prm].
      apply Rmult_le_pos; [apply update_heat_nonneg|exact Hcool].
  - split.
    + match goal with
      | |- context [Core.no_jump_branch ?h4 ?km] =>
          apply (no_jump_branch_floor h4 km); cbn [prm kappa]
      end.
      apply update_kappa_floor.
    + rewrite no_jump_branch_E. cbn [E]. apply update_heat_nonneg.
Qed.

(** X15.  [ssd_step] of [ssd_align_leap_dll.cpp] keeps the same invariants
    as the one of [ssd_core.cpp], on a well-formed handle whose [q_relax]
    keeps RelaxTop inside its index vector ([qn <= N * N]): the handle stays
    well formed and RelaxTop inside its bounds, [N] and the parameters are
    untouched, the temperature is at least [1e-6], and with
    [delta_kappa >= 0] and [c0_cool >= 0] every inertia entry is at least
    [kappa_min] and the heat is not negative. *)
Theorem align_leap_step_invariants (h h' : SSDHandle G) (p dt : R)
    (out out' : option SSDTelemetry) :
  handle_wf h -> relax_in_bounds (prm h) (N h) ->
  0 <= delta_kappa (prm h) -> 0 <= c0_cool (prm h) ->
  AlignLeap.ssd_step (Some h) p dt out = (Some h', out') ->
  handle_wf h' /\ relax_in_bounds (prm h') (N h') /\
  N h' = N h /\ prm h' = prm h /\ 1e-6 <= T h' /\
  Forall (fun k => kappa_min (prm h) <= k) (kappa h') /\ 0 <= E h'.
Proof.
  intros Hwf Hin Hdelta Hcool Hstep.
  unfold AlignLeap.ssd_step in Hstep. rewrite align_leap_step in Hstep.
  inversion Hstep as [[Hh Hout]]. clear Hstep Hout.
  destruct (step_frame h p dt) as (HN & Hprm & _ & HT).
  destruct (step_floor_and_heat h p dt Hdelta Hcool) as [Hfloor HE].
  split; [apply step_wf; exact Hwf|].
  split; [rewrite HN, Hprm; exact Hin|]. auto.
Qed.

(** What holds of a system built by [neurossd_create] from a node count
    that fits, when the allocations succeed: a normalised neuromodulator
    state; a well-formed handle; the unmapped parameters at their defaults
    and the mapped ones inside their ranges; inertia and heat not negative;
    temperature at least [1e-6]. *)
Definition system_ok (sys : Bridge.NeuroSSDSystem (G := G)) : Prop :=
  in01 (Neuro.x (Bridge.neuro sys)) /\
  exists h,
    Bridge.ssd_handle sys = Some h /\ handle_wf h /\
    same_unmapped default_params (prm h) /\ mapped_in_range (prm h) /\
    Forall (fun k => 0 <= k) (kappa h) /\ 0 <= E h /\ 1e-6 <= T h.

(** [q_relax] is not mapped, so on such a system RelaxTop stays inside its
    index vector. *)
Lemma system_ok_relax (sys : Bridge.NeuroSSDSystem (G := G))
    (h : SSDHandle G) :
  system_ok sys -> Bridge.ssd_handle sys = Some h ->
  relax_in_bounds (prm h) (N h).
Proof.
  intros (_ & h0 & Hh0 & (HN & _) & Hsame & _) Hh.
  rewrite Hh in Hh0. inversion Hh0. subst h0.
  assert (Hq : q_relax (prm h) = 0.1).
  { unfold same_unmapped in Hsame. simpl in Hsame.
    decompose [and] Hsame. congruence. }
  apply relax_in_bounds_unit; [rewrite Hq; lra|exact HN].
Qed.

Lemma same_unmapped_trans (p q r : SSDParams) :
  same_unmapped p q -> same_unmapped q r -> same_unmapped p r.
Proof.
  unfold same_unmapped. intros Hpq Hqr.
  decompose [and] Hpq. decompose [and] Hqr.
  repeat split; congruence.
Qed.

Lemma same_unmapped_refl (p : SSDParams) : same_unmapped p p.
Proof. unfold same_unmapped. repeat split. Qed.

(** A step on a handle whose unmapped parameters are the defaults. *)
Lemma step_ok (h : SSDHandle G) (p dt : R) :
  handle_wf h -> same_unmapped default_params (prm h) ->
  mapped_in_range (prm h) ->
  handle_wf (fst (Core.step h p dt)) /\
  same_unmapped default_params (prm (fst (Core.step h p dt))) /\
  mapped_in_range (prm (fst (Core.step h p dt))) /\
  Forall (fun k => 0 <= k) (kappa (fst (Core.step h p dt))) /\
  0 <= E (fst (Core.step h p dt)) /\ 1e-6 <= T (fst (Core.step h p dt)).
Proof.
  intros Hwf Hsame Hrange.
  destruct (step_frame h p dt) as (_ & Hprm & _ & HT).
  assert (Hfields : delta_kappa (prm h) = 0.2 /\ c0_cool (prm h) = 0.6 /\
                    kappa_min (prm h) = 0).
  { unfold same_unmapped in Hsame. simpl in Hsame. tauto. }
  destruct Hfields as (Hdk & Hcool & Hmin).
  destruct (step_floor_and_heat h p dt ltac:(lra) ltac:(lra)) as [Hfloor HE].
  rewrite Hmin in Hfloor. rewrite Hprm.
  split; [apply step_wf; exact Hwf|]. auto.
Qed.

Lemma new_system_ok (n seed : Z) :
  (0 < n <= 46340)%Z -> allocates (handle_of n) = true ->
  system_ok (Bridge.new_system n seed).
Proof.
  intros Hn Halloc. unfold system_ok, Bridge.new_system.
  cbn [Bridge.neuro Bridge.ssd_handle].
  split; [unfold in01; simpl; lra|].
  unfold Core.ssd_create. destruct (n <=? 0)%Z eqn:Hle;
    [apply Z.leb_le in Hle; lia|].
  assert (Hc : constructs n = true).
  { unfold constructs. rewrite int32_square, Halloc by lia.
    apply andb_true_iff. split; [apply Z.leb_le; nia|reflexivity]. }
  rewrite Hc.
  eexists. split; [reflexivity|].
  split; [apply new_handle_wf; lia|].
  cbn [new_handle prm kappa E T].
  split; [apply same_unmapped_refl|].
  split; [unfold mapped_in_range; simpl; lra|].
  split; [|simpl; lra].
  apply Forall_forall. intros v Hv. apply repeat_spec in Hv. lra.
Qed.

Lemma tick_ok (s : Bridge.NeuroSSDSystem (G := G)) (mp dt : R)
    (out : option SSDTelemetry) :
  system_ok s -> system_ok (fst (Bridge.Tick s mp dt out)).
Proof.
  intros (Hin & h & Hh & Hwf & Hsame & Hrange & _).
  unfold Bridge.Tick. rewrite Hh.
  cbn [ssd_get_params ssd_set_params].
  rewrite ssd_step_run. cbn [fst].
  unfold system_ok. cbn [Bridge.neuro Bridge.ssd_handle].
  split.
  - destruct Hin as (H1 & H2 & H3 & H4 & H5 & H6 & H7).
    unfold in01, Neuro.Tick. simpl.
    repeat split; apply neuro_step_range; assumption.
  - eexists. split; [reflexivity|].
    destruct (map_neuro_sane
                (Neuro.Get (Neuro.Tick (Bridge.neuro s) dt)) (prm h))
      as [Hrange' Hsame'].
    apply step_ok; cbn [prm].
    + unfold handle_wf in *. cbn [N current kappa w pi]. exact Hwf.
    + apply (same_unmapped_trans _ (prm h)); assumption.
    + exact Hrange'.
Qed.

Lemma getter_step_ok (s : Bridge.NeuroSSDSystem (G := G))
    (telem : SSDTelemetry) :
  system_ok s ->
  system_ok
    {| Bridge.neuro := Bridge.neuro s;
       Bridge.ssd_handle :=
         fst (Core.ssd_step (Bridge.ssd_handle s) 0 0 (Some telem)) |}.
Proof.
  intros (Hin & h & Hh & Hwf & Hsame & Hrange & _).
  rewrite Hh, ssd_step_run. cbn [fst].
  split; [exact Hin|]. eexists. split; [reflexivity|].
  apply step_ok; assumption.
Qed.

Lemma do_call_ok (s : Bridge.NeuroSSDSystem (G := G)) (c : Api.ApiCall) :
  system_ok s -> exists s', Api.do_call (Some s) c = Some s' /\ system_ok s'.
Proof.
  intros Hok. destruct c as [mp dt out|id|b|telem|telem]; cbn [Api.do_call].
  - unfold Api.neurossd_tick.
    pose proof (tick_ok s mp dt out Hok) as Hok'.
    destruct (Bridge.Tick s mp dt out) as [s' out']. cbn [fst] in *.
    exists s'. split; [reflexivity|exact Hok'].
  - destruct id as [id|]; cbn [Api.neurossd_apply_event];
      [|exists s; split; [reflexivity|exact Hok]].
    eexists. split; [reflexivity|].
    destruct Hok as (Hin & Hrest). split; [|exact Hrest].
    cbn [Bridge.ApplyEvent Bridge.neuro Neuro.ApplyEvent Neuro.x].
    destruct (apply_first_cases Neuro.kEvents id (Neuro.x (Bridge.neuro s)))
      as [[_ ->]|(_ & delta & _ & ->)]; [exact Hin|apply add_event_in01].
  - destruct b as [b|]; cbn [Api.neurossd_set_neuro_baseline];
      [|exists s; split; [reflexivity|exact Hok]].
    eexists. split; [reflexivity|]. exact Hok.
  - unfold Api.neurossd_get_current_node.
    pose proof (getter_step_ok s telem Hok) as Hok'.
    destruct (Core.ssd_step (Bridge.ssd_handle s) 0 0 (Some telem))
      as [h' out']. cbn [fst] in *.
    eexists. split; [reflexivity|exact Hok'].
  - unfold Api.neurossd_get_heat_level.
    pose proof (getter_step_ok s telem Hok) as Hok'.
    destruct (Core.ssd_step (Bridge.ssd_handle s) 0 0 (Some telem))
      as [h' out']. cbn [fst] in *.
    eexists. split; [reflexivity|exact Hok'].
Qed.

(** X22.  A system created by [neurossd_create] from a node count
    [0 < N <= 46340], when the two allocations succeed, stays sound under
    every sequence of API calls ([neurossd_tick], [neurossd_apply_event],
    [neurossd_set_neuro_baseline] and the two getters, with any arguments):
    the system pointer and the handle stay non-null, the handle well formed,
    the neuromodulator state in [0,1], the rewire, cooling and floor
    parameters at their defaults, the mapped parameters inside their ranges,
    every inertia entry and the heat non-negative, and RelaxTop inside its
    index vector.  When the allocation of the system fails,
    [neurossd_create] returns the null pointer and every call leaves it
    null. *)
Theorem api_calls_keep_system_ok (n seed : Z) (calls : list Api.ApiCall) :
  (0 < n <= 46340)%Z ->
  (allocates (handle_of n) = true -> allocates neuro_ssd_system = true ->
   exists s h,
     fold_left Api.do_call calls (Api.neurossd_create n seed) = Some s /\
     system_ok s /\
     Bridge.ssd_handle s = Some h /\ relax_in_bounds (prm h) (N h)) /\
  (allocates neuro_ssd_system = false ->
   fold_left Api.do_call calls (Api.neurossd_create (G := G) n seed) = None).
Proof.
  intros Hn. split.
  - intros Halloc Hsys. unfold Api.neurossd_create. rewrite Hsys.
    pose proof (new_system_ok n seed Hn Halloc) as Hok.
    revert Hok. generalize (Bridge.new_system n seed) as s.
    induction calls as [|c calls IH]; intros s Hok; cbn [fold_left].
    + pose proof Hok as (_ & h & Hh & _).
      exists s, h. split; [reflexivity|]. split; [exact Hok|].
      split; [exact Hh|]. apply (system_ok_relax s h Hok Hh).
    + destruct (do_call_ok s c Hok) as (s' & -> & Hok').
      apply IH. exact Hok'.
  - intros Hsys. unfold Api.neurossd_create. rewrite Hsys.
    induction calls as [|c calls IH]; [reflexivity|].
    cbn [fold_left].
    replace (Api.do_call None c) with (@None (Bridge.NeuroSSDSystem (G := G)));
      [exact IH|].
    destruct c as [mp dt out|[id|]|[b|]|telem|telem]; reflexivity.
Qed.

(** X23.  The two debug getters are not read-only queries: each runs one
    [ssd_step] with no drive and no time.  On a handle whose inertia respects
    the floor and whose heat is not negative, [neurossd_get_heat_level]
    returns the heat of the handle and leaves the heat as it was, while
    [neurossd_get_current_node] moves the walker to the strongest edge of
    its row and returns the node after that move; neither result depends on
    what the uninitialised local record held.  On a null system they return
    [0] and [-1]. *)
Theorem getters_step_the_engine (s : Bridge.NeuroSSDSystem (G := G))
    (h : SSDHandle G) (telem : SSDTelemetry) :
  Bridge.ssd_handle s = Some h ->
  Forall (fun k => kappa_min (prm h) <= k) (kappa h) -> 0 <= E h ->
  (exists s' h',
     Api.neurossd_get_heat_level (Some s) telem = (Some s', E h) /\
     Bridge.ssd_handle s' = Some h' /\ E h' = E h) /\
  (exists s' h',
     Api.neurossd_get_current_node (Some s) telem
       = (Some s', Z.of_nat (current h')) /\
     Bridge.ssd_handle s' = Some h' /\
     current h' = best_move (kappa h') (current h) (N h)) /\
  Api.neurossd_get_heat_level (G := G) None telem = (None, 0) /\
  Api.neurossd_get_current_node (G := G) None telem = (None, (-1)%Z).
Proof.
  intros Hh Hks HE.
  destruct (step_idle h 0 Hks HE) as (s0 & T4 & Hpost & _).
  set (h4 := {| N := N h; current := current h; kappa := kappa h; w := w h;
                E := E h; F := F h; T := T4; pi := pi h; prm := prm h;
                rng := s0 |}) in *.
  assert (HE' : E (fst (Core.step h 0 0)) = E h)
    by (rewrite Hpost, no_jump_branch_E; reflexivity).
  assert (HoutE : out_E (snd (Core.step h 0 0)) = E (fst (Core.step h 0 0))).
  { unfold Core.step.
    destruct (align_flow (prm h) 0 (kappa h) (rng h)) as [j s1].
    destruct (uni01 s1) as [u s2]. reflexivity. }
  assert (Houtc : out_current (snd (Core.step h 0 0))
                  = Z.of_nat (current (fst (Core.step h 0 0)))).
  { unfold Core.step.
    destruct (align_flow (prm h) 0 (kappa h) (rng h)) as [j s1].
    destruct (uni01 s1) as [u s2]. reflexivity. }
  split; [|split; [|split; reflexivity]].
  - unfold Api.neurossd_get_heat_level. rewrite Hh, ssd_step_run.
    eexists _, _. split; [rewrite HoutE, HE'; reflexivity|].
    split; [reflexivity|exact HE'].
  - unfold Api.neurossd_get_current_node. rewrite Hh, ssd_step_run.
    eexists _, _. split; [rewrite Houtc; reflexivity|].
    split; [reflexivity|].
    rewrite Hpost. unfold Core.no_jump_branch. cbn [current kappa].
    destruct (explore_cases h4 (mean_kappa (N h) (kappa h)))
      as (HN & Hcur & _).
    rewrite HN, Hcur. reflexivity.
Qed.

End SystemInvariants.

Lemma align_leap_step_invariants_witness :
  handle_wf (new_handle (G := Tape) 2 default_params 1) /\
  relax_in_bounds (prm (new_handle (G := Tape) 2 default_params 1))
    (N (new_handle (G := Tape) 2 default_params 1)) /\
  0 <= delta_kappa (prm (new_handle (G := Tape) 2 default_params 1)) /\
  0 <= c0_cool (prm (new_handle (G := Tape) 2 default_params 1)) /\
  handle_wf (fst (Core.step (new_handle (G := Tape) 2 default_params 1) 1 1)) /\
  0 <= E (fst (Core.step (new_handle (G := Tape) 2 default_params 1) 1 1)).
Proof.
  assert (Hwf : handle_wf (new_handle (G := Tape) 2 default_params 1))
    by (unfold handle_wf; simpl; repeat split; lia).
  assert (Hin : relax_in_bounds
                  (prm (new_handle (G := Tape) 2 default_params 1))
                  (N (new_handle (G := Tape) 2 default_params 1)))
    by (apply relax_in_bounds_unit; simpl; [lra|lia]).
  assert (Hd : 0 <= delta_kappa
                      (prm (new_handle (G := Tape) 2 default_params 1)))
    by (simpl; lra).
  assert (Hc : 0 <= c0_cool (prm (new_handle (G := Tape) 2 default_params 1)))
    by (simpl; lra).
  split; [exact Hwf|]. split; [exact Hin|]. split; [exact Hd|].
  split; [exact Hc|].
  destruct (align_leap_step_invariants (new_handle 2 default_params 1)
              (fst (Core.step (new_handle 2 default_params 1) 1 1)) 1 1
              None None Hwf Hin Hd Hc)
    as (Hwf' & _ & _ & _ & _ & _ & HE).
  - unfold AlignLeap.ssd_step. rewrite align_leap_step. reflexivity.
  - split; [exact Hwf'|exact HE].
Defined.

Lemma api_calls_keep_system_ok_witness :
  (0 < 2 <= 46340)%Z /\
  allocates (StdRuntime := TapeRuntime) (handle_of 2) = true /\
  allocates (StdRuntime := TapeRuntime) neuro_ssd_system = true /\
  exists s h,
    fold_left Api.do_call
      [Api.call_tick 1 1 None; Api.call_get_current_node stale_telemetry]
      (Api.neurossd_create (G := Tape) 2 0) = Some s /\
    system_ok s /\
    Bridge.ssd_handle s = Some h /\ relax_in_bounds (prm h) (N h).
Proof.
  split; [lia|]. split; [reflexivity|]. split; [reflexivity|].
  apply (api_calls_keep_system_ok (G := Tape) 2 0
           [Api.call_tick 1 1 None; Api.call_get_current_node stale_telemetry]);
    [lia|reflexivity|reflexivity].
Defined.

Lemma getters_step_the_engine_witness :
  exists s' h',
    Api.neurossd_get_heat_level
      (Some {| Bridge.neuro := Neuro.default_core;
               Bridge.ssd_handle := Some jump_handle |}) stale_telemetry
      = (Some s', E jump_handle) /\
    Bridge.ssd_handle s' = Some h' /\ E h' = E jump_handle.
Proof.
  apply (getters_step_the_engine
           {| Bridge.neuro := Neuro.default_core;
              Bridge.ssd_handle := Some jump_handle |}
           jump_handle stale_telemetry).
  - reflexivity.
  - simpl. repeat constructor; lra.
  - simpl. lra.
Defined.
